(** * SitePulse: audit and trend-analysis engine

    A shallow embedding of the parts of
    [server/services/audit.ts], [server/services/historical-insights.service.ts]
    and [server/storage.ts] that carry the algorithmic content of the
    repository: the URL safety gate, the category scorers, the link checker,
    the trend engine and the in-memory trend store.

    Conventions.
    - JavaScript strings are [string]; only the ASCII behaviour of
      [toLowerCase] and [trim] is modelled.
    - JavaScript numbers that the code keeps integral are [Z]; averages and
      ratios are exact rationals [Q], and [Math.round x] is
      [floor (x + 1/2)].  The two weighted sums of scores, whose rounding
      decides the overall scores, are computed in IEEE 754 binary64 as the
      source does ([Binary64]).
    - A value that the code obtains from the network, the clock or a library
      outside the repository (DNS, axios, the WHATWG URL parser, cheerio
      selectors, [randomUUID]) is an explicit argument of the model. *)

From Stdlib Require Import ZArith QArith Qround Qminmax Qabs Lqa Lia Bool Ascii String List.
From Stdlib Require Floats.
From stdpp Require Import base option list strings gmap pmap sorting.

Local Open Scope string_scope.
Local Open Scope Z_scope.

(* ===================================================================== *)
(** ** JavaScript string primitives used by the services *)
(* ===================================================================== *)

Module JS.

(** [s.startsWith(p)] *)
Fixpoint startsWith (s p : string) {struct p} : bool :=
  match p with
  | EmptyString => true
  | String b p' =>
      match s with
      | EmptyString => false
      | String a s' => Ascii.eqb a b && startsWith s' p'
      end
  end.

(** [s.includes(p)] *)
Fixpoint includes (s p : string) : bool :=
  startsWith s p ||
  match s with
  | EmptyString => false
  | String _ s' => includes s' p
  end.

(** [s.split(sep)] for a one-character separator. *)
Fixpoint split (sep : ascii) (s : string) : list string :=
  match s with
  | EmptyString => [EmptyString]
  | String c s' =>
      if Ascii.eqb c sep then EmptyString :: split sep s'
      else match split sep s' with
           | [] => [String c EmptyString]
           | h :: t => String c h :: t
           end
  end.

Definition lowerChar (c : ascii) : ascii :=
  let n := nat_of_ascii c in
  if (65 <=? n)%nat && (n <=? 90)%nat then ascii_of_nat (n + 32) else c.

(** [s.toLowerCase()] on ASCII text. *)
Fixpoint toLowerCase (s : string) : string :=
  match s with
  | EmptyString => EmptyString
  | String c s' => String (lowerChar c) (toLowerCase s')
  end.

Definition isSpace (c : ascii) : bool :=
  let n := nat_of_ascii c in
  (n =? 32)%nat || ((9 <=? n)%nat && (n <=? 13)%nat).

Fixpoint trimStart (s : string) : string :=
  match s with
  | EmptyString => EmptyString
  | String c s' => if isSpace c then trimStart s' else s
  end.

Fixpoint revString (acc s : string) : string :=
  match s with
  | EmptyString => acc
  | String c s' => revString (String c acc) s'
  end.

(** [s.trim()] *)
Definition trim (s : string) : string :=
  revString EmptyString (trimStart (revString EmptyString (trimStart s))).

Definition digitValue (c : ascii) : option Z :=
  let n := nat_of_ascii c in
  if (48 <=? n)%nat && (n <=? 57)%nat then Some (Z.of_nat n - 48) else None.

Fixpoint digitsValue (acc : Z) (s : string) : option Z :=
  match s with
  | EmptyString => Some acc
  | String c s' =>
      match digitValue c with
      | Some d => digitsValue (10 * acc + d) s'
      | None => None
      end
  end.

(** [Number(s)] on the components of a dotted address: a run of decimal
    digits is its value and the empty string is 0.  The other spellings
    that JavaScript reads as numbers (signs, exponents, hexadecimal,
    surrounding blanks) do not occur in the addresses [dns.lookup]
    returns; they are [NaN] here, written [None].  Comparisons with
    [NaN] are false. *)
Definition Number (s : string) : option Z := digitsValue 0 s.

(** [x === n], [x >= n], [x <= n] for a possibly-NaN number [x]. *)
Definition numEq (x : option Z) (n : Z) : bool :=
  match x with Some v => v =? n | None => false end.
Definition numGe (x : option Z) (n : Z) : bool :=
  match x with Some v => n <=? v | None => false end.
Definition numLe (x : option Z) (n : Z) : bool :=
  match x with Some v => v <=? n | None => false end.

(** [Math.round]: the nearest integer, ties towards plus infinity. *)
Definition round (x : Q) : Z := Qfloor (x + (1 # 2))%Q.

(** [arr.includes(x)] on an array of strings. *)
Definition arrayIncludes (arr : list string) (x : string) : bool :=
  existsb (String.eqb x) arr.

End JS.

(* ===================================================================== *)
(** ** JavaScript numbers in binary64 *)
(* ===================================================================== *)

Module Binary64.
Import PrimFloat.

(** A number is an IEEE 754 binary64 value, [float]; its sums and
    products are those of [PrimFloat], rounded to nearest with ties to
    even, as JavaScript's are. *)

(** An integer as a number; exact below 2^53 in absolute value. *)
Definition number (z : Z) : float :=
  if z <? 0 then opp (of_uint63 (Uint63.of_Z (- z)))
  else of_uint63 (Uint63.of_Z z).

(** The rational that a finite number denotes; NaN and the infinities,
    which no sum of weighted scores produces, are sent to 0. *)
Definition exactly (x : float) : Q :=
  match FloatOps.Prim2SF x with
  | SpecFloat.S754_finite s m e =>
      let v := if 0 <=? e then inject_Z (Zpos m * 2 ^ e)
               else (Zpos m # Z.to_pos (2 ^ (- e))) in
      if s then Qopp v else v
  | _ => 0%Q
  end.

(** [Math.round] on a number. *)
Definition round (x : float) : Z := JS.round (exactly x).

End Binary64.

(* ===================================================================== *)
(** ** URL Safety Gate ([AuditService.isPrivateIP], [validateUrlSafety]) *)
(* ===================================================================== *)

Module SafetyGate.
Import JS.

(** [parts[i]] of a JavaScript array: out of range is [undefined], which
    compares like [NaN]. *)
Definition part (parts : list (option Z)) (i : nat) : option Z :=
  match nth_error parts i with Some v => v | None => None end.

Definition isPrivateIP (ip : string) : bool :=
  if includes ip ":" then
    let normalized := trim (toLowerCase ip) in
    if String.eqb normalized "::1" || String.eqb normalized "::" then true
    else
      let parts :=
        List.filter (fun p => negb (Nat.eqb (String.length p) 0))
                    (split ":" normalized) in
      match parts with
      | [] => true
      | firstHextet :: _ =>
          if String.eqb firstHextet "fe80" || startsWith normalized "fe80:"
          then true
          else if startsWith firstHextet "fc" || startsWith firstHextet "fd"
          then true
          else if startsWith firstHextet "ff" then true
          else false
      end
  else
    let parts := List.map Number (split "." ip) in
    if negb (Nat.eqb (List.length parts) 4) then false
    else if numEq (part parts 0) 127 then true
    else if numEq (part parts 0) 10 then true
    else if numEq (part parts 0) 172 && numGe (part parts 1) 16
            && numLe (part parts 1) 31 then true
    else if numEq (part parts 0) 192 && numEq (part parts 1) 168 then true
    else if numEq (part parts 0) 169 && numEq (part parts 1) 254 then true
    else if numEq (part parts 0) 0 then true
    else if numGe (part parts 0) 224 && numLe (part parts 0) 239 then true
    else false.

(** The fields of the parsed [URL] object that the Gate reads. *)
Record URL := mkURL { protocol : string; hostname : string }.

(** Outcome of [dns.lookup]: an address with its family, or a rejected
    promise carrying an [Error] with a message. *)
Inductive LookupResult :=
| Resolved (address : string) (family : Z)
| LookupError (message : string).

(** Outcome of an [async] function returning [void]. *)
Inductive Outcome :=
| Ok
| Throw (message : string).

Definition isDigitIn (lo hi : nat) (c : ascii) : bool :=
  let n := nat_of_ascii c in ((48 + lo <=? n) && (n <=? 48 + hi))%nat.

(** [/^(10\.|172\.(1[6-9]|2[0-9]|3[0-1])\.|192\.168\.|127\.|169\.254\.)/.test(h)] *)
Definition privateHostPattern (h : string) : bool :=
  startsWith h "10."
  || match h with
     | String "1" (String "7" (String "2" (String "." (String a (String b (String "." _)))))) =>
         (Ascii.eqb a "1" && isDigitIn 6 9 b)
         || (Ascii.eqb a "2" && isDigitIn 0 9 b)
         || (Ascii.eqb a "3" && isDigitIn 0 1 b)
     | _ => false
     end
  || startsWith h "192.168."
  || startsWith h "127."
  || startsWith h "169.254.".

Definition msgProtocol : string := "Only HTTP and HTTPS protocols are allowed".
Definition msgLoopback : string := "Cannot audit localhost or loopback addresses".
Definition msgPrivate : string := "Cannot audit private or internal IP addresses".

Section Gate.
(** [new URL(url)]: [None] when the constructor throws. *)
Variable parseURL : string -> option URL.
(** [dnsLookup(hostname, { family: 0 })]. *)
Variable dnsLookup : string -> LookupResult.

(** The body of the [try] block. *)
Definition resolveAndCheck (urlObj : URL) : Outcome :=
  match dnsLookup (hostname urlObj) with
  | Resolved address _ =>
      if isPrivateIP address then Throw msgPrivate else Ok
  | LookupError message => Throw message
  end.

(** The [catch] block: only the Gate's own error is re-thrown. *)
Definition catchLookup (r : Outcome) : Outcome :=
  match r with
  | Ok => Ok
  | Throw message =>
      if includes message "Cannot audit" then Throw message else Ok
  end.

Definition validateParsed (urlObj : URL) : Outcome :=
  if negb (arrayIncludes ["http:"; "https:"] (protocol urlObj))
  then Throw msgProtocol
  else
    let hostname := toLowerCase (hostname urlObj) in
    if arrayIncludes ["localhost"; "127.0.0.1"; "::1"] hostname
    then Throw msgLoopback
    else if privateHostPattern hostname then Throw msgPrivate
    else catchLookup (resolveAndCheck urlObj).

Definition validateUrlSafety (url : string) : Outcome :=
  match parseURL url with
  | None => Throw "Invalid URL"
  | Some urlObj => validateParsed urlObj
  end.
End Gate.

End SafetyGate.

(* ===================================================================== *)
(** ** The documented address ranges (reference side of the Gate) *)
(* ===================================================================== *)

Module DocumentedRanges.
Import JS.

(** A parsed address: four octets, or eight 16-bit groups. *)
Inductive IPAddr :=
| IPv4 (a b c d : Z)
| IPv6 (groups : list Z).

(** [value] lies in [base/len] for addresses of [width] bits. *)
Definition inPrefix (width value base len : Z) : bool :=
  Z.shiftr value (width - len) =? Z.shiftr base (width - len).

Definition v4value (a b c d : Z) : Z :=
  a * 2 ^ 24 + b * 2 ^ 16 + c * 2 ^ 8 + d.

Definition v6value (groups : list Z) : Z :=
  fold_left (fun acc g => acc * 2 ^ 16 + g) groups 0.

(** 127.0.0.0/8, 10.0.0.0/8, 172.16.0.0/12, 192.168.0.0/16,
    169.254.0.0/16, 0.0.0.0/8 and 224.0.0.0/4. *)
Definition documentedV4 (v : Z) : bool :=
  inPrefix 32 v (v4value 127 0 0 0) 8
  || inPrefix 32 v (v4value 10 0 0 0) 8
  || inPrefix 32 v (v4value 172 16 0 0) 12
  || inPrefix 32 v (v4value 192 168 0 0) 16
  || inPrefix 32 v (v4value 169 254 0 0) 16
  || inPrefix 32 v (v4value 0 0 0 0) 8
  || inPrefix 32 v (v4value 224 0 0 0) 4.

(** ::1, fe80::/10, fc00::/7 and ff00::/8. *)
Definition documentedV6 (v : Z) : bool :=
  (v =? 1)
  || inPrefix 128 v (v6value [0xfe80; 0; 0; 0; 0; 0; 0; 0]) 10
  || inPrefix 128 v (v6value [0xfc00; 0; 0; 0; 0; 0; 0; 0]) 7
  || inPrefix 128 v (v6value [0xff00; 0; 0; 0; 0; 0; 0; 0]) 8.

Definition documented (a : IPAddr) : bool :=
  match a with
  | IPv4 a b c d => documentedV4 (v4value a b c d)
  | IPv6 groups => documentedV6 (v6value groups)
  end.

(** Reading the textual form of an address. *)
Definition hexValue (c : ascii) : option Z :=
  let n := nat_of_ascii c in
  if (48 <=? n)%nat && (n <=? 57)%nat then Some (Z.of_nat n - 48)
  else if (97 <=? n)%nat && (n <=? 102)%nat then Some (Z.of_nat n - 87)
  else if (65 <=? n)%nat && (n <=? 70)%nat then Some (Z.of_nat n - 55)
  else None.

Fixpoint hexDigits (acc : Z) (s : string) : option Z :=
  match s with
  | EmptyString => Some acc
  | String c s' =>
      match hexValue c with
      | Some d => hexDigits (16 * acc + d) s'
      | None => None
      end
  end.

Definition parseGroup (s : string) : option Z :=
  if (Nat.leb 1 (String.length s) && Nat.leb (String.length s) 4)%bool
  then hexDigits 0 s else None.

Fixpoint parseGroups (l : list string) : option (list Z) :=
  match l with
  | [] => Some []
  | s :: l' =>
      match parseGroup s, parseGroups l' with
      | Some g, Some gs => Some (g :: gs)
      | _, _ => None
      end
  end.

(** The text before and after the first [::], when there is one. *)
Fixpoint cutDoubleColon (s : string) : option (string * string) :=
  match s with
  | String ":" (String ":" rest) => Some (EmptyString, rest)
  | String c s' =>
      match cutDoubleColon s' with
      | Some (l, r) => Some (String c l, r)
      | None => None
      end
  | EmptyString => None
  end.

Definition groupsOf (s : string) : option (list Z) :=
  match s with
  | EmptyString => Some []
  | _ => parseGroups (split ":" s)
  end.

Definition parseIPv6 (s : string) : option IPAddr :=
  match cutDoubleColon s with
  | Some (l, r) =>
      match groupsOf l, groupsOf r with
      | Some gl, Some gr =>
          if Nat.leb (List.length gl + List.length gr) 7
          then Some (IPv6 (gl ++ repeat 0 (8 - (List.length gl + List.length gr)) ++ gr))
          else None
      | _, _ => None
      end
  | None =>
      match groupsOf s with
      | Some g => if Nat.eqb (List.length g) 8 then Some (IPv6 g) else None
      | None => None
      end
  end.

Definition parseOctet (s : string) : option Z :=
  match s with
  | EmptyString => None
  | _ => match Number s with
         | Some v => if v <=? 255 then Some v else None
         | None => None
         end
  end.

Definition parseIPv4 (s : string) : option IPAddr :=
  match List.map parseOctet (split "." s) with
  | [Some a; Some b; Some c; Some d] => Some (IPv4 a b c d)
  | _ => None
  end.

Definition parseIP (s : string) : option IPAddr :=
  if includes s ":" then parseIPv6 s else parseIPv4 s.

(** Writing an IPv4 address in dotted decimal. *)
Definition digitChar (d : Z) : ascii := ascii_of_nat (48 + Z.to_nat d).

Definition octetText (n : Z) : string :=
  if n <? 10 then String (digitChar n) ""
  else if n <? 100
  then String (digitChar (n / 10)) (String (digitChar (n mod 10)) "")
  else String (digitChar (n / 100))
         (String (digitChar (n / 10 mod 10)) (String (digitChar (n mod 10)) "")).

Definition dotted (a b c d : Z) : string :=
  octetText a ++ "." ++ octetText b ++ "." ++ octetText c ++ "." ++ octetText d.

End DocumentedRanges.

(* ===================================================================== *)
(** ** Category scorers ([AuditService], score components) *)
(* ===================================================================== *)

Module Scoring.
Import JS Binary64(number).
Import PrimFloat.PrimFloatNotations.
Local Open Scope Q_scope.

(** *** What the selectors return

    The scorers read the page only through cheerio selectors; [Page]
    holds the answer of each selector they use. *)

Record StyledElement := mkStyled {
  styleHasFontSize : bool;      (* style.includes('font-size') *)
  fontSizePx : option Z;        (* parseInt(style.match(/font-size:\s*(\d+)px/)[1]) *)
  classLooksSmall : bool        (* class has 'btn-sm', 'small' or 'xs' *)
}.

Record Image := mkImage {
  hasAlt : bool;                (* img[alt] *)
  altNonEmpty : bool;           (* $(el).attr('alt') is truthy *)
  hasResponsive : bool;         (* sizes or srcset *)
  hasLazyLoading : bool         (* loading === 'lazy' *)
}.

Record Page := mkPage {
  titleText : string;
  descriptionContent : string;
  ogImageContent : string;
  ogTitleContent : string;
  ogDescriptionContent : string;
  twitterCardContent : string;
  twitterTitleContent : string;
  twitterDescriptionContent : string;
  h1Count : nat;
  headings : list Z;            (* heading levels in document order *)
  hasMain : bool;
  hasHeader : bool;
  hasNav : bool;
  hasFooter : bool;
  wordCount : Z;
  images : list Image;
  canonicalLinks : nat;
  robotsMeta : nat;
  sitemapLinks : nat;
  htmlLang : string;            (* '' when the attribute is absent *)
  schemaMarkup : nat;
  viewportMeta : nat;
  viewportContent : string;
  forms : nat;
  formInputsWithoutLabels : nat;
  interactiveElements : list StyledElement;
  textElements : list StyledElement;
  hasWebP : bool;
  appleTouchIcon : bool;
  screenStylesheet : bool;
  styleTextMentionsMedia : bool;
  ldJsonScripts : list string;
  requestElements : nat;        (* script, link[rel=stylesheet], img *)
  anchorHrefs : list string;    (* a[href] *)
  inputsWithoutLabels : nat;    (* unlabelled input elements *)
  imagesWithEmptyAlt : nat;     (* img[alt=""] *)
  lowContrastElements : nat;    (* inline colour on an inline background *)
  skipLinks : nat;              (* a[href^="#"] about skip, main or content *)
  duplicateIds : nat            (* id values used more than once *)
}.

Inductive Status := good | warning | error.
Inductive Severity := sevCritical | sevWarning | sevGood.
Inductive WcagLevel := levelA | levelAA | levelAAA.
Inductive PerfStatus := perfGood | perfAverage | perfPoor.

Record MetaTag := mkMetaTag {
  present : bool; content : string; status : Status
}.

Record MetaTagAnalysis := mkMetaTags {
  title : MetaTag; description : MetaTag; ogImage : MetaTag;
  ogTitle : MetaTag; ogDescription : MetaTag; twitterCard : MetaTag;
  twitterTitle : MetaTag; twitterDescription : MetaTag
}.

Record AccessibilityIssue := mkIssue {
  issueType : string; severity : Severity; wcagLevel : option WcagLevel
}.

Record BrokenLink := mkBrokenLink {
  url : string; httpStatus : Z; foundIn : string; isInternalLink : bool
}.

Record PerformanceMetrics := mkMetrics {
  loadTime : Z; contentSize : Z; httpRequests : Z; firstPaint : Q;
  perfStatus : PerfStatus
}.

Record AuditStatistics := mkStats {
  totalLinks : Z; workingLinks : Z; brokenLinkCount : Z;
  internalLinks : Z; externalLinks : Z;
  totalImages : Z; imagesWithAlt : Z; imagesWithoutAlt : Z
}.

Definition len {A} (l : list A) : Z := Z.of_nat (List.length l).
Definition strlen (s : string) : Z := Z.of_nat (String.length s).
Definition nonEmpty (s : string) : bool := negb (Nat.eqb (String.length s) 0).
Definition count {A} (f : A -> bool) (l : list A) : Z := len (List.filter f l).

(** *** [analyzeMetaTags] *)

Definition bandTag (c : string) (lo hi : Z) : MetaTag :=
  mkMetaTag (nonEmpty c) c
    (if nonEmpty c && (lo <=? strlen c)%Z && (strlen c <=? hi)%Z then good
     else if nonEmpty c then warning else error).

Definition plainTag (c : string) : MetaTag :=
  mkMetaTag (nonEmpty c) c (if nonEmpty c then good else warning).

Definition analyzeMetaTags (p : Page) : MetaTagAnalysis :=
  {| title := bandTag (titleText p) 30 60;
     description := bandTag (descriptionContent p) 120 160;
     ogImage := plainTag (ogImageContent p);
     ogTitle := plainTag (ogTitleContent p);
     ogDescription := plainTag (ogDescriptionContent p);
     twitterCard := plainTag (twitterCardContent p);
     twitterTitle := plainTag (twitterTitleContent p);
     twitterDescription := plainTag (twitterDescriptionContent p) |}.

(** *** SEO sub-scores: each starts from 100, subtracts, and is floored *)

Definition penalty (b : bool) (n : Z) : Z := if b then n else 0%Z.

Definition analyzeMetaTagsScore (m : MetaTagAnalysis) : Z :=
  let score := 100%Z in
  let score :=
    (if negb (present (title m)) then score - 25
     else if (60 <? strlen (content (title m)))%Z then score - 10
     else if (strlen (content (title m)) <? 30)%Z then score - 10
     else score)%Z in
  let score :=
    (if negb (present (description m)) then score - 20
     else if (160 <? strlen (content (description m)))%Z then score - 8
     else if (strlen (content (description m)) <? 120)%Z then score - 5
     else score)%Z in
  let score := (score - penalty (negb (present (ogTitle m))) 10)%Z in
  let score := (score - penalty (negb (present (ogDescription m))) 10)%Z in
  let score := (score - penalty (negb (present (ogImage m))) 15)%Z in
  let score := (score - penalty (negb (present (twitterCard m))) 10)%Z in
  Z.max 0 score.

(** The heading walk of [analyzeContentStructure]: [forEach] ignores the
    callback's [return false], so every skipped level costs 5 and leaves
    [previousLevel] unchanged. *)
Fixpoint headingWalk (hs : list Z) (previousLevel score : Z) : Z :=
  match hs with
  | [] => score
  | currentLevel :: hs' =>
      if (previousLevel + 1 <? currentLevel)%Z
      then headingWalk hs' previousLevel (score - 5)%Z
      else headingWalk hs' currentLevel score
  end.

Definition analyzeContentStructure (p : Page) : Z :=
  let score := 100%Z in
  let score :=
    (if Nat.eqb (h1Count p) 0 then score - 20
     else if Nat.ltb 1 (h1Count p) then score - 15 else score)%Z in
  let score := headingWalk (headings p) 0 score in
  let score := (score - penalty (negb (hasMain p)) 10)%Z in
  let score := (score - penalty (negb (hasHeader p)) 8)%Z in
  let score := (score - penalty (negb (hasNav p)) 5)%Z in
  let score := (score - penalty (negb (hasFooter p)) 5)%Z in
  let score := (score - penalty (wordCount p <? 300)%Z 15)%Z in
  let totalImages := len (images p) in
  let imagesWithAlt := count hasAlt (images p) in
  let imagesWithoutAlt := (totalImages - imagesWithAlt)%Z in
  let score :=
    (if 0 <? imagesWithoutAlt then score - Z.min 20 (imagesWithoutAlt * 5)
     else score)%Z in
  Z.max 0 score.

Definition analyzeTechnicalSEO (p : Page) (brokenLinks : list BrokenLink)
    (statistics : AuditStatistics) : Z :=
  let score := 100%Z in
  let score := (score - penalty (Nat.eqb (canonicalLinks p) 0) 10)%Z in
  let score := (score - penalty (Nat.eqb (robotsMeta p) 0) 5)%Z in
  let score :=
    (if 0 <? len brokenLinks then score - Z.min 30 (len brokenLinks * 5)
     else score)%Z in
  let score := (score - penalty (Nat.eqb (sitemapLinks p) 0) 8)%Z in
  let score := (score - penalty (negb (nonEmpty (htmlLang p))) 10)%Z in
  let score := (score - penalty (Nat.eqb (schemaMarkup p) 0) 15)%Z in
  let internalLinkRatio :=
    if (0 <? totalLinks statistics)%Z
    then inject_Z (internalLinks statistics) / inject_Z (totalLinks statistics)
    else 0 in
  let score :=
    (score - penalty (negb (Qle_bool (3 # 10) internalLinkRatio)) 10)%Z in
  Z.max 0 score.

Definition analyzePerformanceScore (m : PerformanceMetrics) : Z :=
  let score := 100%Z in
  let score :=
    (if 3000 <? loadTime m then score - 30
     else if 2000 <? loadTime m then score - 15 else score)%Z in
  let score :=
    (score - penalty (negb (Qle_bool (firstPaint m) 2000)) 20)%Z in
  let score := (score - penalty (1000000 <? contentSize m)%Z 15)%Z in
  let score := (score - penalty (50 <? httpRequests m)%Z 10)%Z in
  Z.max 0 score.

Definition isCritical (i : AccessibilityIssue) : bool :=
  match severity i with sevCritical => true | _ => false end.
Definition isWarning (i : AccessibilityIssue) : bool :=
  match severity i with sevWarning => true | _ => false end.
Definition isGood (i : AccessibilityIssue) : bool :=
  match severity i with sevGood => true | _ => false end.

Definition analyzeUserExperience (p : Page)
    (accessibilityIssues : list AccessibilityIssue) : Z :=
  let score := 100%Z in
  let score := (score - penalty (Nat.eqb (viewportMeta p) 0) 25)%Z in
  let criticalA11yIssues := count isCritical accessibilityIssues in
  let warningA11yIssues := count isWarning accessibilityIssues in
  let score := (score - (criticalA11yIssues * 15 + warningA11yIssues * 5))%Z in
  let score :=
    (if Nat.ltb 0 (forms p)
     then score - penalty (Nat.ltb 0 (formInputsWithoutLabels p)) 15
     else score)%Z in
  Z.max 0 score.

Record SEOCategoryScores := mkSEOCategories {
  metaTagsScore : Z; contentStructureScore : Z; technicalSEOScore : Z;
  performanceScore : Z; userExperienceScore : Z
}.

Record SEOScoring := mkSEO {
  seoOverallScore : Z; seoCategoryScores : SEOCategoryScores
}.

(** The [weights] of [calculateAdvancedSEOScoring]: the binary64 numbers
    that the literals 0.30, 0.25, 0.20, 0.15 and 0.10 denote. *)
Module weights.
Import PrimFloat.
#[warnings="-inexact-float"] Definition metaTags : float := 0.30%float.
Definition contentStructure : float := 0.25%float.
#[warnings="-inexact-float"] Definition technicalSEO : float := 0.20%float.
#[warnings="-inexact-float"] Definition performance : float := 0.15%float.
#[warnings="-inexact-float"] Definition userExperience : float := 0.10%float.
End weights.

(** The weighted sum is evaluated from left to right, every product and
    every sum rounded to binary64, and [Math.round] is applied to the
    result. *)
Definition calculateAdvancedSEOScoring (p : Page) (metaTags : MetaTagAnalysis)
    (accessibilityIssues : list AccessibilityIssue)
    (brokenLinks : list BrokenLink) (performanceMetrics : PerformanceMetrics)
    (statistics : AuditStatistics) : SEOScoring :=
  let metaTagsScore := analyzeMetaTagsScore metaTags in
  let contentStructureScore := analyzeContentStructure p in
  let technicalSEOScore := analyzeTechnicalSEO p brokenLinks statistics in
  let performanceScore := analyzePerformanceScore performanceMetrics in
  let userExperienceScore := analyzeUserExperience p accessibilityIssues in
  let overallScore :=
    Binary64.round
      (number metaTagsScore * weights.metaTags
       + number contentStructureScore * weights.contentStructure
       + number technicalSEOScore * weights.technicalSEO
       + number performanceScore * weights.performance
       + number userExperienceScore * weights.userExperience)%float in
  mkSEO overallScore
    (mkSEOCategories metaTagsScore contentStructureScore technicalSEOScore
       performanceScore userExperienceScore).

(** *** Accessibility scoring *)

Definition calculateCategoryScore (issues : list AccessibilityIssue)
    (categoryTypes : list string) : Z :=
  let categoryIssues :=
    List.filter (fun i => arrayIncludes categoryTypes (issueType i)) issues in
  let criticalInCategory := count isCritical categoryIssues in
  let warningInCategory := count isWarning categoryIssues in
  let maxScore := 100%Z in
  let penalty := (criticalInCategory * 20 + warningInCategory * 10)%Z in
  Z.max 0 (maxScore - penalty).

Inductive Compliance := complianceA | complianceAA | complianceAAA | complianceNone.

Record WcagCategoryScores := mkWcagCategories {
  perceivable : Z; operable : Z; understandable : Z; robust : Z
}.

Record AccessibilityScoring := mkA11y {
  a11yOverallScore : Z;
  wcagComplianceLevel : Compliance;
  compliancePercentage : Z;
  a11yCategoryScores : WcagCategoryScores;
  criticalIssues : Z; warningIssues : Z; passedChecks : Z; totalChecks : Z
}.

Definition criticalAtLevel (l : WcagLevel) (i : AccessibilityIssue) : bool :=
  isCritical i &&
  match wcagLevel i, l with
  | Some levelA, levelA | Some levelAA, levelAA | Some levelAAA, levelAAA => true
  | _, _ => false
  end.

Definition calculateAccessibilityScoring (issues : list AccessibilityIssue)
    : AccessibilityScoring :=
  let criticalIssues := count isCritical issues in
  let warningIssues := count isWarning issues in
  let passedChecks := count isGood issues in
  let totalChecks := len issues in
  let perceivableScore := calculateCategoryScore issues
    ["Missing Alt Text"; "Images with Empty Alt Text";
     "Potential Color Contrast Issues"]%string in
  let operableScore := calculateCategoryScore issues
    ["Interactive Elements Not Keyboard Accessible"; "Missing Skip Links"]%string in
  let understandableScore := calculateCategoryScore issues
    ["Missing Language Declaration"; "Missing Page Title"]%string in
  let robustScore := calculateCategoryScore issues
    ["Duplicate IDs"; "Buttons Without Accessible Names";
     "Form Accessibility"]%string in
  let maxPossibleScore := 100%Z in
  let criticalPenalty := (criticalIssues * 15)%Z in
  let warningPenalty := (warningIssues * 5)%Z in
  let overallScore :=
    Z.max 0 (maxPossibleScore - criticalPenalty - warningPenalty) in
  let levelAIssues := count (criticalAtLevel levelA) issues in
  let levelAAIssues := count (criticalAtLevel levelAA) issues in
  let wcagComplianceLevel :=
    if (levelAIssues =? 0)%Z && (levelAAIssues =? 0)%Z then complianceAA
    else if (levelAIssues =? 0)%Z then complianceA else complianceNone in
  let totalPossibleIssues := 10%Z in
  let actualIssues := (criticalIssues + warningIssues)%Z in
  let compliancePercentage :=
    Z.max 0 (round (inject_Z (totalPossibleIssues - actualIssues)
                    / inject_Z totalPossibleIssues * 100)) in
  mkA11y overallScore wcagComplianceLevel compliancePercentage
    (mkWcagCategories perceivableScore operableScore understandableScore
       robustScore)
    criticalIssues warningIssues passedChecks totalChecks.

(** The heading walk of [analyzeAccessibility]: here [previousLevel]
    follows every heading. *)
Fixpoint hierarchyWalk (hs : list Z) (previousLevel : Z) (hierarchyIssue : bool)
    : bool :=
  match hs with
  | [] => hierarchyIssue
  | currentLevel :: hs' =>
      hierarchyWalk hs' currentLevel
        (if (0 <? previousLevel)%Z && (previousLevel + 1 <? currentLevel)%Z
         then true else hierarchyIssue)
  end.

(** [issues.push(...)] under a condition. *)
Definition pushIf (b : bool) (i : AccessibilityIssue) : list AccessibilityIssue :=
  if b then [i] else [].

Definition performWCAGChecks (p : Page) : list AccessibilityIssue :=
  (pushIf (Nat.ltb 0 (imagesWithEmptyAlt p))
     (mkIssue "Images with Empty Alt Text" sevCritical (Some levelA))
   ++ pushIf (Nat.ltb 0 (lowContrastElements p))
        (mkIssue "Potential Color Contrast Issues" sevWarning (Some levelAA))
   ++ pushIf (Nat.eqb (skipLinks p) 0)
        (mkIssue "Missing Skip Links" sevWarning (Some levelA))
   ++ pushIf (negb (nonEmpty (htmlLang p)))
        (mkIssue "Missing Language Declaration" sevWarning (Some levelA))
   ++ pushIf (Nat.ltb 0 (duplicateIds p))
        (mkIssue "Duplicate IDs" sevCritical (Some levelA)))%list.

Definition analyzeAccessibility (p : Page)
    : list AccessibilityIssue * AccessibilityScoring :=
  let imagesWithoutAlt := count (fun i => negb (hasAlt i)) (images p) in
  let issues :=
    (pushIf (0 <? imagesWithoutAlt)%Z (mkIssue "Missing Alt Text" sevCritical None)
     ++ pushIf (hierarchyWalk (headings p) 0 false)
          (mkIssue "Heading Hierarchy" sevWarning None)
     ++ [ if hasHeader p && hasNav p && hasMain p && hasFooter p
          then mkIssue "Semantic HTML Structure" sevGood None
          else mkIssue "Semantic HTML Structure" sevWarning None ]
     ++ pushIf (Nat.ltb 0 (inputsWithoutLabels p))
          (mkIssue "Form Accessibility" sevCritical None)
     ++ performWCAGChecks p)%list in
  (issues, calculateAccessibilityScoring issues).

(** *** Mobile analysis *)

Definition analyzeViewport (p : Page) : Status :=
  if Nat.eqb (viewportMeta p) 0 then error
  else
    let hasWidth := includes (viewportContent p) "width=device-width" in
    let hasInitialScale := includes (viewportContent p) "initial-scale=1" in
    if negb hasWidth || negb hasInitialScale then warning else good.

(** One step of the [each] loop of [analyzeTouchTargets], on the pair
    (adequateSize, tooSmall). *)
Definition touchStep (acc : Z * Z) (e : StyledElement) : Z * Z :=
  let '(adequateSize, tooSmall) := acc in
  match styleHasFontSize e, fontSizePx e with
  | true, Some fontSize =>
      if (fontSize <? 16)%Z then (adequateSize, tooSmall + 1)%Z
      else (adequateSize + 1, tooSmall)%Z
  | _, _ =>
      if classLooksSmall e then (adequateSize, tooSmall + 1)%Z
      else (adequateSize + 1, tooSmall)%Z
  end.

Definition analyzeTouchTargets (p : Page) : Z :=
  let '(adequateSize, tooSmall) :=
    fold_left touchStep (interactiveElements p) (0, 0)%Z in
  let totalElements := (adequateSize + tooSmall)%Z in
  let score := 100 in
  let score :=
    if (0 <? tooSmall)%Z
    then Qmax 0 (100 - inject_Z tooSmall / inject_Z totalElements * 100)
    else score in
  let score := if (totalElements =? 0)%Z then 50 else score in
  round score.

(** One step of the [each] loop of [analyzeTextReadability], on the pair
    (fontSizes, smallTextElements). *)
Definition textStep (acc : list Z * Z) (e : StyledElement) : list Z * Z :=
  let '(fontSizes, smallTextElements) := acc in
  if styleHasFontSize e then
    match fontSizePx e with
    | Some fontSize =>
        ((fontSizes ++ [fontSize])%list,
         if (fontSize <? 16)%Z then (smallTextElements + 1)%Z
         else smallTextElements)
    | None => acc
    end
  else ((fontSizes ++ [16%Z])%list, smallTextElements).

Definition sumZ (l : list Z) : Z := fold_left Z.add l 0%Z.

Definition analyzeTextReadability (p : Page) : Z :=
  let '(fontSizes, smallTextElements) :=
    fold_left textStep (textElements p) ([], 0%Z) in
  let averageFontSize :=
    if (0 <? len fontSizes)%Z
    then inject_Z (sumZ fontSizes) / inject_Z (len fontSizes) else 16 in
  let score := 100 in
  let score :=
    if (0 <? smallTextElements)%Z
    then Qmax 0 (100 - inject_Z smallTextElements
                       / inject_Z (len (textElements p)) * 100)
    else score in
  let score :=
    if negb (Qle_bool 14 averageFontSize) then Qmax (score - 20) 0 else score in
  round score.

Definition analyzeMobilePerformance (p : Page) (m : PerformanceMetrics) : Z :=
  let score := 100%Z in
  let optimizedImages :=
    count (fun i => hasResponsive i || hasLazyLoading i) (images p) in
  let imageOptimization :=
    if (0 <? len (images p))%Z
    then inject_Z optimizedImages / inject_Z (len (images p)) * 100 else 100 in
  let score := (score - penalty (5000 <? loadTime m)%Z 30)%Z in
  let score := (score - penalty (2000000 <? contentSize m)%Z 20)%Z in
  let score := (score - penalty (negb (Qle_bool 50 imageOptimization)) 25)%Z in
  let score :=
    (score - penalty (negb (hasWebP p) && (0 <? len (images p))%Z) 10)%Z in
  Z.max 0 (round (inject_Z score)).

Definition analyzeMobileSEO (p : Page) : Z :=
  let score := 100%Z in
  let viewportMeta := Nat.ltb 0 (viewportMeta p) in
  let mobileFriendlyMeta := viewportMeta in
  let responsiveDesign :=
    screenStylesheet p || viewportMeta || styleTextMentionsMedia p in
  let score := (score - penalty (negb mobileFriendlyMeta) 30)%Z in
  let score := (score - penalty (negb responsiveDesign) 25)%Z in
  let score := (score - penalty (negb (appleTouchIcon p)) 10)%Z in
  let hasMobileStructuredData :=
    existsb (fun c => includes c "MobileApplication" || includes c "mobileUrl")
            (ldJsonScripts p) in
  let score :=
    (score - penalty (negb hasMobileStructuredData
                      && (0 <? len (ldJsonScripts p))%Z) 15)%Z in
  Z.max 0 (round (inject_Z score)).

Record MobileAnalysis := mkMobile {
  mobileOverallScore : Z; viewportStatus : Status;
  touchTargetsScore : Z; textReadabilityScore : Z;
  mobilePerformanceScore : Z; mobileSEOScore : Z
}.

(** The literals 0.25, 0.20, 0.20 and 0.15 of the mobile score, as
    binary64 numbers. *)
Module mobileWeights.
Import PrimFloat.
Definition touchTargets : float := 0.25%float.
#[warnings="-inexact-float"] Definition textReadability : float := 0.20%float.
#[warnings="-inexact-float"] Definition mobilePerformance : float := 0.20%float.
#[warnings="-inexact-float"] Definition mobileSEO : float := 0.15%float.
End mobileWeights.

(** As for the SEO score, the sum is evaluated in binary64 from left to
    right before [Math.round]. *)
Definition analyzeMobileFriendliness (p : Page) (m : PerformanceMetrics)
    : MobileAnalysis :=
  let viewport := analyzeViewport p in
  let touchTargets := analyzeTouchTargets p in
  let textReadability := analyzeTextReadability p in
  let mobilePerformance := analyzeMobilePerformance p m in
  let mobileSEO := analyzeMobileSEO p in
  let overallScore :=
    Binary64.round
      (number (match viewport with good => 20 | warning => 10 | error => 0 end)
       + number touchTargets * mobileWeights.touchTargets
       + number textReadability * mobileWeights.textReadability
       + number mobilePerformance * mobileWeights.mobilePerformance
       + number mobileSEO * mobileWeights.mobileSEO)%float in
  mkMobile overallScore viewport touchTargets textReadability
    mobilePerformance mobileSEO.

(** *** [calculateStatistics] and the composition in [auditWebsite] *)

Definition skippedHref (href : string) : bool :=
  negb (nonEmpty href) || startsWith href "#" || startsWith href "mailto:"
  || startsWith href "tel:".

Definition statStep (acc : Z * Z) (href : string) : Z * Z :=
  let '(internalLinks, externalLinks) := acc in
  if skippedHref href then acc
  else if startsWith href "/" || startsWith href "." then (internalLinks + 1, externalLinks)%Z
  else if startsWith href "http" then (internalLinks, externalLinks + 1)%Z
  else (internalLinks + 1, externalLinks)%Z.

Definition calculateStatistics (p : Page) (brokenLinks : list BrokenLink)
    : AuditStatistics :=
  let totalLinks := len (anchorHrefs p) in
  let '(internalLinks, externalLinks) :=
    fold_left statStep (anchorHrefs p) (0, 0)%Z in
  let totalImages := len (images p) in
  let imagesWithoutAlt := count (fun i => negb (altNonEmpty i)) (images p) in
  mkStats totalLinks (totalLinks - len brokenLinks) (len brokenLinks)
    internalLinks externalLinks totalImages (totalImages - imagesWithoutAlt)
    imagesWithoutAlt.

Record AuditResult := mkAudit {
  overallScore : Z;
  accessibilityScoring : AccessibilityScoring;
  seoScoring : SEOScoring;
  mobileAnalysis : MobileAnalysis
}.

(** [auditWebsite] after the page was fetched in [loadTime] ms with
    [contentSize] bytes; [brokenLinks] is what [checkLinks] returned. *)
Definition auditWebsite (p : Page) (loadTime contentSize : Z)
    (brokenLinks : list BrokenLink) : AuditResult :=
  let metaTags := analyzeMetaTags p in
  let accessibilityAnalysis := analyzeAccessibility p in
  let accessibilityIssues := fst accessibilityAnalysis in
  let accessibilityScoring := snd accessibilityAnalysis in
  let performanceMetrics :=
    mkMetrics loadTime contentSize (Z.of_nat (requestElements p))
      (inject_Z loadTime * (6 # 10))
      (if (loadTime <? 2000)%Z then perfGood
       else if (loadTime <? 4000)%Z then perfAverage else perfPoor) in
  let statistics := calculateStatistics p brokenLinks in
  let seoScoring :=
    calculateAdvancedSEOScoring p metaTags accessibilityIssues brokenLinks
      performanceMetrics statistics in
  let mobileAnalysis := analyzeMobileFriendliness p performanceMetrics in
  let overallScore := seoOverallScore seoScoring in
  mkAudit overallScore accessibilityScoring seoScoring mobileAnalysis.

End Scoring.

(* ===================================================================== *)
(** ** Link integrity checker ([AuditService.checkLinks]) *)
(* ===================================================================== *)

Module Links.
Import JS.
Export Scoring(BrokenLink, mkBrokenLink, url, httpStatus, foundIn,
               isInternalLink, skippedHref).

(** A thrown value: an axios error, with the status of its [response]
    when it has one, or any other error. *)
Inductive Err :=
| AxiosError (response : option Z)
| OtherError (message : string).

Inductive Result (A : Type) :=
| Val (a : A)
| Exn (e : Err).
Arguments Val {A} a.
Arguments Exn {A} e.

(** A call [axios.head(target, ...)] or [axios.get(target, ...)]. *)
Inductive Request :=
| HEAD (target : string)
| GET (target : string).

(** The mutable locals of [checkLinks], and the calls of axios made so
    far.  A call is not one request on the wire: see [Wire] below. *)
Record St := mkSt {
  brokenLinks : list BrokenLink;
  checkedUrls : gset string;
  checkedCount : Z;
  requests : list Request
}.

(** Computations that update the locals and may throw. *)
Definition M (A : Type) : Type := St -> Result A * St.

Definition ret {A} (a : A) : M A := fun s => (Val a, s).
Definition throw {A} (e : Err) : M A := fun s => (Exn e, s).
Definition bind {A B} (m : M A) (k : A -> M B) : M B :=
  fun s => match m s with
           | (Val a, s') => k a s'
           | (Exn e, s') => (Exn e, s')
           end.
(** [try { body } catch (e) { handler e }]: the updates made by [body]
    before it threw are kept. *)
Definition tryCatch {A} (body : M A) (handler : Err -> M A) : M A :=
  fun s => match body s with
           | (Val a, s') => (Val a, s')
           | (Exn e, s') => handler e s'
           end.
Definition get_ {A} (f : St -> A) : M A := fun s => (Val (f s), s).
Definition modify (f : St -> St) : M unit := fun s => (Val tt, f s).

Declare Scope links_scope.
Delimit Scope links_scope with links.
Notation "x <- m ;; k" := (bind m (fun x => k))
  (at level 100, m at next level, right associativity) : links_scope.
Notation "m ;;; k" := (bind m (fun _ => k))
  (at level 100, right associativity) : links_scope.
Local Open Scope links_scope.

(** An [a[href]] element: its attribute and what [findLinkContext]
    returns for it. *)
Record Anchor := mkAnchor { href : string; context : string }.

(** Everything outside the process that [checkLinks] consults. *)
Record Env := mkEnv {
  (** [new URL(href, baseUrl).toString()]; [None] when it throws *)
  resolve : string -> option string;
  (** [new URL(href).origin === new URL(baseUrl).origin]; [None] when
      [new URL(href)] throws *)
  sameOrigin : string -> option bool;
  (** [this.validateUrlSafety(absoluteUrl)] *)
  gate : string -> SafetyGate.Outcome;
  (** [axios.head] and [axios.get]: the status of the response that the
      call ends with, after the redirects that axios followed, or the
      thrown error *)
  head : string -> Result Z;
  get : string -> Result Z
}.

Definition maxLinksToCheck : Z := 50.

Definition initial : St := mkSt [] ∅ 0 [].

Definition liftOption {A} (o : option A) : M A :=
  match o with
  | Some a => ret a
  | None => throw (OtherError "Invalid URL")
  end.

(** [await axios.head(...)], [await axios.get(...)]: the call is noted and
    its outcome returned or thrown. *)
Definition send (r : Request) (answer : Result Z) : M Z :=
  fun s =>
    (answer, mkSt (brokenLinks s) (checkedUrls s) (checkedCount s)
                  (requests s ++ [r])).

Definition pushBroken (b : BrokenLink) : M unit :=
  modify (fun s => mkSt (brokenLinks s ++ [b]) (checkedUrls s)
                        (checkedCount s) (requests s)).

Definition markChecked (absoluteUrl : string) : M unit :=
  modify (fun s => mkSt (brokenLinks s) ({[absoluteUrl]} ∪ checkedUrls s)
                        (checkedCount s + 1) (requests s)).

Section CheckLinks.
Variable env : Env.

(** The first [if]/[else if]/[else] of the outer [try]. *)
Definition absolutize (href : string) : M (string * bool) :=
  if startsWith href "/" then
    absoluteUrl <- liftOption (resolve env href) ;;
    ret (absoluteUrl, true)
  else if startsWith href "http" then
    isInternal <- liftOption (sameOrigin env href) ;;
    ret (href, isInternal)
  else
    absoluteUrl <- liftOption (resolve env href) ;;
    ret (absoluteUrl, true).

(** [await this.validateUrlSafety(absoluteUrl)] *)
Definition validate (absoluteUrl : string) : M unit :=
  match gate env absoluteUrl with
  | SafetyGate.Ok => ret tt
  | SafetyGate.Throw message => throw (OtherError message)
  end.

Definition methodNotAllowed (e : Err) : bool :=
  match e with
  | AxiosError (Some status) => (status =? 405) || (status =? 501)
  | _ => false
  end.

(** [axios.head] first, [axios.get] when the HEAD call failed with a 405
    or 501 response.  Both calls are made with [maxRedirects: 2]. *)
Definition request (absoluteUrl : string) : M Z :=
  tryCatch (send (HEAD absoluteUrl) (head env absoluteUrl))
    (fun headError =>
       if methodNotAllowed headError
       then send (GET absoluteUrl) (get env absoluteUrl)
       else throw headError).

Definition entry (link : Anchor) (absoluteUrl : string) (status : Z)
    (isInternal : bool) : BrokenLink :=
  mkBrokenLink absoluteUrl status (context link) isInternal.

Definition probe (link : Anchor) (absoluteUrl : string) (isInternal : bool)
    : M unit :=
  tryCatch
    (status <- request absoluteUrl ;;
     if 400 <=? status
     then pushBroken (entry link absoluteUrl status isInternal)
     else ret tt)
    (fun error =>
       match error with
       | AxiosError (Some status) =>
           pushBroken (entry link absoluteUrl status isInternal)
       | _ => ret tt
       end).

(** One iteration of the [for] loop; [ret tt] is [continue]. *)
Definition iteration (link : Anchor) : M unit :=
  if skippedHref (href link) then ret tt
  else
    tryCatch
      (target <- absolutize (href link) ;;
       let '(absoluteUrl, isInternal) := target in
       checked <- get_ checkedUrls ;;
       if decide (absoluteUrl ∈ checked) then ret tt
       else
         markChecked absoluteUrl ;;;
         allowed <- tryCatch
                      (if negb isInternal
                       then validate absoluteUrl ;;; ret true
                       else ret true)
                      (fun _ => ret false) ;;
         if allowed then probe link absoluteUrl isInternal else ret tt)
      (fun _ => ret tt).

(** [for (i = 0; i < links.length && checkedCount < maxLinksToCheck; i++)] *)
Fixpoint loop (links : list Anchor) : M unit :=
  match links with
  | [] => ret tt
  | link :: rest =>
      checkedCount <- get_ checkedCount ;;
      if checkedCount <? maxLinksToCheck
      then iteration link ;;; loop rest
      else ret tt
  end.

Definition checkLinksM (links : list Anchor) : M (list BrokenLink) :=
  loop links ;;; get_ brokenLinks.

(** The promise returned by [checkLinks], with the final locals. *)
Definition run (links : list Anchor) : Result (list BrokenLink) * St :=
  checkLinksM links initial.

Definition checkLinks (links : list Anchor) : Result (list BrokenLink) :=
  fst (run links).

(** Targets on which a probe was started: those of the [axios.head]
    calls. *)
Definition probed (s : St) : list string :=
  omap (fun r => match r with HEAD u => Some u | GET _ => None end)
       (requests s).

(** What a probe of [absoluteUrl] ends with: the HEAD answer, or the GET
    answer after a 405/501. *)
Definition finalAnswer (absoluteUrl : string) : Result Z :=
  match head env absoluteUrl with
  | Val status => Val status
  | Exn headError =>
      if methodNotAllowed headError then get env absoluteUrl
      else Exn headError
  end.
End CheckLinks.

(** *** What the calls put on the wire

    Both calls of a probe are made with [maxRedirects: 2]: axios follows
    the redirects it is answered with, and [checkLinks] sees the last
    answer only. *)
Definition maxRedirects : nat := 2.

(** For each call, the URLs that axios sends a request to, in order: none
    when axios rejects the URL before sending (a [javascript:] URL, for
    one), else the URL of the call followed by the Location targets of
    the redirects that it follows.  The method stays the same. *)
Record Wire := mkWire { contacts : Request -> list string }.

(** axios follows no more than [maxRedirects] redirects. *)
Definition honoursMaxRedirects (w : Wire) : Prop :=
  forall r, (List.length (contacts w r) <= 1 + maxRedirects)%nat.

Definition onWire (w : Wire) (r : Request) : list Request :=
  List.map (match r with HEAD _ => HEAD | GET _ => GET end) (contacts w r).

(** The requests that the calls made so far have sent. *)
Definition wireRequests (w : Wire) (s : St) : list Request :=
  flat_map (onWire w) (requests s).

End Links.

(* ===================================================================== *)
(** ** Shared schema types of the trend engine *)
(* ===================================================================== *)

Module Schema.

Inductive TimePeriod := P7d | P30d | P90d | P1y.

Definition periodName (p : TimePeriod) : string :=
  match p with P7d => "7d" | P30d => "30d" | P90d => "90d" | P1y => "1y" end.

Inductive Trend := improving | declining | stable.
Inductive Strength := weak | moderate | strong.
Inductive Category := overall | seo | accessibility | mobile | performance.
Inductive ChangeType := improvement | regression.
Inductive Magnitude := minor | moderateChange | major.

(** A row of the performance history; [recordedAt] in milliseconds. *)
Record PerformanceHistory := mkHistory {
  historicalTrackingId : string;
  auditReportId : string;
  recordedAt : Z;
  overallScore : Q;
  seoScore : option Q;
  accessibilityScore : option Q;
  mobileScore : option Q;
  performanceScore : option Q
}.

(** [description] is left out: it only prints the two numbers below. *)
Record SignificantChange := mkChange {
  category : Category;
  changeType : ChangeType;
  magnitude : Magnitude;
  scoreChange : Q;
  percentageChange : Q;
  impact : string;
  possibleCauses : list string
}.

Record TrendInsight := mkInsight {
  insightType : string;
  insightCategory : string;
  insightTitle : string;
  insightDescription : string;
  insightImpact : string;
  insightTimeframe : string;
  insightConfidence : Z;
  dataSupport : list string
}.

Record HistoricalRecommendation := mkRecommendation {
  priority : string;
  recCategory : string;
  recTitle : string;
  recDescription : string;
  expectedImpact : string;
  effort : string;
  recTimeframe : string;
  basedOn : list string
}.

Record InsertTrendAnalysis := mkInsert {
  insTrackingId : string;
  insTimePeriod : TimePeriod;
  insOverallTrend : Trend;
  insTrendStrength : Strength;
  insKeyInsights : list TrendInsight;
  insImprovements : list SignificantChange;
  insRegressions : list SignificantChange;
  insRecommendations : list HistoricalRecommendation;
  insConfidenceScore : Z
}.

Record TrendAnalysis := mkAnalysis {
  id : string;
  trackingId : string;
  timePeriod : TimePeriod;
  overallTrend : Trend;
  trendStrength : Strength;
  keyInsights : list TrendInsight;
  improvements : list SignificantChange;
  regressions : list SignificantChange;
  recommendations : list HistoricalRecommendation;
  confidenceScore : Z;
  analysisDate : Z
}.

End Schema.

(* ===================================================================== *)
(** ** In-memory store ([MemStorage], history and trend records) *)
(* ===================================================================== *)

Module Storage.
Import Schema.

Record MemStorage := mkStorage {
  performanceHistory : gmap string (list PerformanceHistory);
  trendAnalyses : gmap string TrendAnalysis
}.

Definition empty : MemStorage := mkStorage ∅ ∅.

(** [this.performanceHistory.get(trackingId) || []] *)
Definition historiesOf (st : MemStorage) (trackingId : string)
    : list PerformanceHistory :=
  default [] (performanceHistory st !! trackingId).

Definition getPerformanceHistoryByDateRange (st : MemStorage)
    (trackingId : string) (startDate endDate : Z) : list PerformanceHistory :=
  List.filter (fun h => (startDate <=? recordedAt h) && (recordedAt h <=? endDate))
              (historiesOf st trackingId).

(** [`${trackingId}_${timePeriod}`] *)
Definition key (trackingId : string) (timePeriod : TimePeriod) : string :=
  trackingId ++ "_" ++ periodName timePeriod.

(** [{ ...existing, ...insertAnalysis, analysisDate }] and
    [{ id, ...insertAnalysis, analysisDate }] *)
Definition spread (id : string) (ins : InsertTrendAnalysis) (now : Z)
    : TrendAnalysis :=
  mkAnalysis id (insTrackingId ins) (insTimePeriod ins) (insOverallTrend ins)
    (insTrendStrength ins) (insKeyInsights ins) (insImprovements ins)
    (insRegressions ins) (insRecommendations ins) (insConfidenceScore ins) now.

(** [uuid] is the value [randomUUID()] would return and [now] the clock. *)
Definition createOrUpdateTrendAnalysis (insertAnalysis : InsertTrendAnalysis)
    (uuid : string) (now : Z) (st : MemStorage) : TrendAnalysis * MemStorage :=
  let key := key (insTrackingId insertAnalysis) (insTimePeriod insertAnalysis) in
  match trendAnalyses st !! key with
  | Some existing =>
      let updated := spread (id existing) insertAnalysis now in
      (updated, mkStorage (performanceHistory st)
                          (<[key := updated]> (trendAnalyses st)))
  | None =>
      let analysis := spread uuid insertAnalysis now in
      (analysis, mkStorage (performanceHistory st)
                           (<[key := analysis]> (trendAnalyses st)))
  end.

Definition getTrendAnalysis (st : MemStorage) (trackingId : string)
    (timePeriod : TimePeriod) : option TrendAnalysis :=
  trendAnalyses st !! key trackingId timePeriod.

(** All stored analyses, as [Array.from(this.trendAnalyses.values())]. *)
Definition values (st : MemStorage) : list TrendAnalysis :=
  (map_to_list (trendAnalyses st)).*2.

#[global] Instance TimePeriod_eq_dec : EqDecision TimePeriod.
Proof. solve_decision. Defined.

(** The analysis is the one of the pair (trackingId, timePeriod). *)
Definition isFor (trackingId : string) (timePeriod : TimePeriod)
    (a : TrendAnalysis) : Prop :=
  Schema.trackingId a = trackingId /\ Schema.timePeriod a = timePeriod.

#[global] Instance isFor_dec trackingId timePeriod a :
  Decision (isFor trackingId timePeriod a).
Proof. unfold isFor. apply _. Defined.

(** [getTrendAnalysesByTracking], narrowed to one period. *)
Definition analysesFor (st : MemStorage) (trackingId : string)
    (timePeriod : TimePeriod) : list TrendAnalysis :=
  filter (isFor trackingId timePeriod) (values st).

(** [x || null] on an optional score: 0 is falsy. *)
Definition orNull (x : option Q) : option Q :=
  match x with
  | Some v => if Qeq_bool v 0 then None else Some v
  | None => None
  end.

(** [createPerformanceHistory]: the row is stamped with the clock and
    pushed on the array of its tracking id. *)
Definition createPerformanceHistory (insertHistory : PerformanceHistory)
    (now : Z) (st : MemStorage) : PerformanceHistory * MemStorage :=
  let history :=
    mkHistory (historicalTrackingId insertHistory)
      (auditReportId insertHistory) now (overallScore insertHistory)
      (orNull (seoScore insertHistory))
      (orNull (accessibilityScore insertHistory))
      (orNull (mobileScore insertHistory))
      (orNull (performanceScore insertHistory)) in
  let existing := historiesOf st (historicalTrackingId history) in
  (history,
   mkStorage (<[historicalTrackingId history := (existing ++ [history])%list]>
                (performanceHistory st))
             (trendAnalyses st)).

(** [cleanupExpiredData], given the cut-off date it computes. *)
Definition cleanupExpiredData (cutoffDate : Z) (st : MemStorage) : MemStorage :=
  mkStorage
    (List.filter (fun h => cutoffDate <? recordedAt h) <$> performanceHistory st)
    (trendAnalyses st).

(** States of the store reachable from the empty store. *)
Inductive reachable : MemStorage -> Prop :=
| reach_empty : reachable empty
| reach_trend st ins uuid now :
    reachable st ->
    reachable (snd (createOrUpdateTrendAnalysis ins uuid now st))
| reach_history st h now :
    reachable st ->
    reachable (snd (createPerformanceHistory h now st))
| reach_cleanup st cutoffDate :
    reachable st ->
    reachable (cleanupExpiredData cutoffDate st).

End Storage.

(* ===================================================================== *)
(** ** Trend analysis engine ([HistoricalInsightsService]) *)
(* ===================================================================== *)

Module Trend.
Import JS Schema Storage.
Local Open Scope Q_scope.

Record TrendAnalysisParams := mkParams {
  paramPeriod : TimePeriod;
  minimumDataPoints : Z;
  significanceThreshold : Q
}.

Definition TREND_PARAMS (p : TimePeriod) : TrendAnalysisParams :=
  match p with
  | P7d => mkParams P7d 3 5
  | P30d => mkParams P30d 5 8
  | P90d => mkParams P90d 8 10
  | P1y => mkParams P1y 12 15
  end.

Definition len {A} (l : list A) : Z := Z.of_nat (List.length l).

(** *** Array primitives *)

(** [Array.prototype.sort] with the comparator [key(a) - key(b)]: a
    stable sort, here by insertion from the right. *)
Fixpoint insertBy {A} (key : A -> Z) (x : A) (l : list A) : list A :=
  match l with
  | [] => [x]
  | y :: l' => if (key x <=? key y)%Z then x :: y :: l'
               else y :: insertBy key x l'
  end.

Definition sortBy {A} (key : A -> Z) (l : list A) : list A :=
  fold_right (insertBy key) [] l.

Definition sliceIndex (n i : Z) : Z :=
  if (i <? 0)%Z then Z.max (n + i) 0 else Z.min i n.

(** [l.slice(start, stop)]; [stop = None] is [l.slice(start)]. *)
Definition slice {A} (l : list A) (start : Z) (stop : option Z) : list A :=
  let from := sliceIndex (len l) start in
  let to := match stop with
            | Some e => sliceIndex (len l) e
            | None => len l
            end in
  firstn (Z.to_nat (to - from)) (skipn (Z.to_nat from) l).

Definition sumQ (l : list Q) : Q := fold_left Qplus l 0.

(** *** Averages *)

Record Averages := mkAverages {
  avgOverall : Q;
  avgSeo : option Q;
  avgAccessibility : option Q;
  avgMobile : option Q;
  avgPerformance : option Q
}.

(** [counts.x > 0 ? totals.x / counts.x : null] for an optional field. *)
Definition averageOfDefined (l : list (option Q)) : option Q :=
  let defined := omap (fun x => x) l in
  if (0 <? len defined)%Z then Some (sumQ defined / inject_Z (len defined))
  else None.

Definition calculateAverageScores (history : list PerformanceHistory)
    : Averages :=
  if (len history =? 0)%Z then mkAverages 0 None None None None
  else
    mkAverages
      (sumQ (List.map overallScore history) / inject_Z (len history))
      (averageOfDefined (List.map seoScore history))
      (averageOfDefined (List.map accessibilityScore history))
      (averageOfDefined (List.map mobileScore history))
      (averageOfDefined (List.map performanceScore history)).

Definition sorted (history : list PerformanceHistory) : list PerformanceHistory :=
  sortBy recordedAt history.

(** *** Trend direction and strength *)

Definition detectOverallTrend (history : list PerformanceHistory) : Trend :=
  if (len history <? 2)%Z then stable
  else
    let sortedHistory := sorted history in
    let n := len sortedHistory in
    let recentHalf := slice sortedHistory ((n + 1) / 2)%Z None in
    let earlierHalf := slice sortedHistory 0 (Some (n / 2)%Z) in
    let recentAverage := calculateAverageScores recentHalf in
    let earlierAverage := calculateAverageScores earlierHalf in
    let overallChange := avgOverall recentAverage - avgOverall earlierAverage in
    if Qle_bool 5 overallChange then improving
    else if Qle_bool overallChange (-5) then declining
    else stable.

Fixpoint consecutive (l : list PerformanceHistory) : list Q :=
  match l with
  | a :: (b :: _) as l' => (overallScore b - overallScore a) :: consecutive l'
  | _ => []
  end.

Definition calculateConsecutiveChanges (history : list PerformanceHistory)
    : list Q :=
  if (len history <? 2)%Z then [] else consecutive (sorted history).

Definition Qlt_bool (x y : Q) : bool := negb (Qle_bool y x).

Definition calculateConsistencyScore (changes : list Q) (trend : Trend) : Q :=
  if (len changes =? 0)%Z then 0
  else
    let expectedDirection := match trend with improving => 1 | _ => -1 end in
    let consistentChanges :=
      len (List.filter
             (fun change =>
                (Qlt_bool 0 change && Qlt_bool 0 expectedDirection)
                || (Qlt_bool change 0 && Qlt_bool expectedDirection 0))
             changes) in
    inject_Z consistentChanges / inject_Z (len changes) * 100.

Definition calculateMagnitudeScore (changes : list Q) : Q :=
  if (len changes =? 0)%Z then 0
  else
    let averageMagnitude :=
      fold_left (fun sum change => sum + Qabs change) changes 0
      / inject_Z (len changes) in
    Qmin 100 (averageMagnitude * 5).

Definition calculateTrendStrength (history : list PerformanceHistory)
    (trend : Trend) : Strength :=
  match trend with
  | stable => weak
  | _ =>
      let changes := calculateConsecutiveChanges history in
      let consistencyScore := calculateConsistencyScore changes trend in
      let magnitudeScore := calculateMagnitudeScore changes in
      let strengthScore := (consistencyScore + magnitudeScore) / 2 in
      if Qle_bool 75 strengthScore then strong
      else if Qle_bool 50 strengthScore then moderate
      else weak
  end.

(** *** Significant changes *)

Definition classifyMagnitude (change threshold : Q) : Magnitude :=
  if Qle_bool (threshold * (25 # 10)) change then major
  else if Qle_bool (threshold * (15 # 10)) change then moderateChange
  else minor.

(** [categoryMap[metricName] || 'overall'] *)
Definition metricNameToCategory (metricName : string) : Category :=
  if String.eqb metricName "Overall" then overall
  else if String.eqb metricName "SEO" then seo
  else if String.eqb metricName "Accessibility" then accessibility
  else if String.eqb metricName "Mobile" then mobile
  else if String.eqb metricName "Performance" then performance
  else overall.

Definition generatePossibleCauses (metricName : string) (t : ChangeType)
    : list string :=
  let pick (a b : list string) := match t with improvement => a | regression => b end in
  (if String.eqb metricName "Overall" then
     pick ["Comprehensive optimization efforts"; "Multiple metric improvements";
           "Strategic performance initiatives"]
          ["Multiple simultaneous issues"; "Technical debt accumulation";
           "Resource constraints"]
   else if String.eqb metricName "SEO" then
     pick ["Meta tag optimization"; "Content structure improvements";
           "Technical SEO enhancements"]
          ["Content quality issues"; "Technical SEO problems";
           "Crawling or indexing issues"]
   else if String.eqb metricName "Accessibility" then
     pick ["WCAG compliance improvements"; "Screen reader optimizations";
           "Keyboard navigation enhancements"]
          ["New accessibility barriers"; "Missing alt texts or labels";
           "Color contrast issues"]
   else if String.eqb metricName "Mobile" then
     pick ["Responsive design improvements"; "Mobile-specific optimizations";
           "Touch interaction enhancements"]
          ["Mobile layout issues"; "Touch target problems";
           "Mobile performance degradation"]
   else if String.eqb metricName "Performance" then
     pick ["Code optimization"; "Caching improvements"; "Resource compression"]
          ["Increased payload size"; "Third-party script issues";
           "Server performance problems"]
   else ["General optimization changes"; "External factors";
         "Technical modifications"])%string.

Record Metric := mkMetric {
  name : string; recent : option Q; baseline : option Q
}.

(** The [metrics] array shared by both functions. *)
Definition metricsOf (history : list PerformanceHistory) : list Metric :=
  let sortedHistory := sorted history in
  let recentAvg := calculateAverageScores (slice sortedHistory (-5) None) in
  let baselineAvg := calculateAverageScores (slice sortedHistory 0 (Some 5%Z)) in
  [ mkMetric "Overall" (Some (avgOverall recentAvg)) (Some (avgOverall baselineAvg));
    mkMetric "SEO" (avgSeo recentAvg) (avgSeo baselineAvg);
    mkMetric "Accessibility" (avgAccessibility recentAvg) (avgAccessibility baselineAvg);
    mkMetric "Mobile" (avgMobile recentAvg) (avgMobile baselineAvg);
    mkMetric "Performance" (avgPerformance recentAvg) (avgPerformance baselineAvg) ].

Definition round2 (x : Q) : Q := inject_Z (round (x * 100)) / 100.

(** The body of the [for (const metric of metrics)] loop: the change to
    push, if any. *)
Definition changeOf (t : ChangeType) (threshold : Q) (metric : Metric)
    : option SignificantChange :=
  match recent metric, baseline metric with
  | Some recent, Some baseline =>
      let change := recent - baseline in
      let percentage :=
        if Qlt_bool 0 baseline then change / baseline * 100 else 0 in
      let flagged :=
        match t with
        | improvement => Qle_bool threshold change
        | regression => Qle_bool change (- threshold)
        end in
      if flagged then
        Some (mkChange (metricNameToCategory (name metric)) t
                (classifyMagnitude (Qabs change) threshold)
                (round2 change) (round2 percentage)
                (match t with
                 | improvement =>
                     "Positive change in " ++ name metric
                     ++ " performance indicates successful optimization efforts"
                 | regression =>
                     "Negative change in " ++ name metric
                     ++ " performance requires attention and optimization"
                 end)%string
                (generatePossibleCauses (name metric) t))
      else None
  | _, _ => None
  end.

Definition identifyImprovements (history : list PerformanceHistory)
    (threshold : Q) : list SignificantChange :=
  if (len history <? 2)%Z then []
  else omap (changeOf improvement threshold) (metricsOf history).

Definition identifyRegressions (history : list PerformanceHistory)
    (threshold : Q) : list SignificantChange :=
  if (len history <? 2)%Z then []
  else omap (changeOf regression threshold) (metricsOf history).

(** *** Confidence *)

Definition day : Z := 24 * 60 * 60 * 1000.

Definition getExpectedTimeSpan (p : TimePeriod) : Z :=
  match p with
  | P7d => 7 * day | P30d => 30 * day | P90d => 90 * day | P1y => 365 * day
  end.

Definition isNull (x : option Q) : Z := match x with None => 1 | Some _ => 0 end.

Definition calculateDataConsistency (history : list PerformanceHistory) : Q :=
  if (len history =? 0)%Z then 0
  else
    let totalFields := (5 * len history)%Z in
    let nullFields :=
      fold_left (fun n r => (n + isNull (seoScore r) + isNull (accessibilityScore r)
                             + isNull (mobileScore r) + isNull (performanceScore r))%Z)
                history 0%Z in
    inject_Z (totalFields - nullFields) / inject_Z totalFields * 100.

Definition calculateTimeSpanCoverage (history : list PerformanceHistory)
    (p : TimePeriod) : Q :=
  match sorted history, last (sorted history) with
  | first :: _, Some last =>
      let actualSpan := (recordedAt last - recordedAt first)%Z in
      Qmin 100 (inject_Z actualSpan / inject_Z (getExpectedTimeSpan p) * 100)
  | _, _ => 0
  end.

Definition calculateDataFreshness (history : list PerformanceHistory)
    (now : Z) : Q :=
  match sortBy (fun h => (- recordedAt h)%Z) history with
  | [] => 0
  | latest :: _ =>
      let daysSinceLatest := inject_Z (now - recordedAt latest) / inject_Z day in
      if Qle_bool daysSinceLatest 1 then 100
      else if Qle_bool daysSinceLatest 3 then 80
      else if Qle_bool daysSinceLatest 7 then 60
      else if Qle_bool daysSinceLatest 14 then 40
      else if Qle_bool daysSinceLatest 30 then 20
      else 10
  end.

Definition calculateConfidenceScore (history : list PerformanceHistory)
    (p : TimePeriod) (now : Z) : Z :=
  let minRequired := minimumDataPoints (TREND_PARAMS p) in
  let dataQuantityScore :=
    Qmin 100 (inject_Z (len history) / inject_Z (minRequired * 2) * 100) in
  let confidence := 0 + dataQuantityScore * (3 # 10) in
  let confidence := confidence + calculateDataConsistency history * (25 # 100) in
  let confidence := confidence + calculateTimeSpanCoverage history p * (25 # 100) in
  let confidence := confidence + calculateDataFreshness history now * (2 # 10) in
  round (Qmax 0 (Qmin 100 confidence)).

(** *** The service entry point *)

(** Calendar arithmetic of [Date]: [d.setDate(d.getDate() - n)] and
    [d.setFullYear(d.getFullYear() - n)], on millisecond timestamps. *)
Record Calendar := mkCalendar {
  setDateBack : Z -> Z -> Z;
  setFullYearBack : Z -> Z -> Z
}.

Definition calculateDateRange (cal : Calendar) (now : Z) (p : TimePeriod)
    : Z * Z :=
  let endDate := now in
  let startDate :=
    match p with
    | P7d => setDateBack cal now 7
    | P30d => setDateBack cal now 30
    | P90d => setDateBack cal now 90
    | P1y => setFullYearBack cal now 1
    end in
  (startDate, endDate).

Definition insufficientData (trackingId : string) (p : TimePeriod)
    : InsertTrendAnalysis :=
  mkInsert trackingId p stable weak
    [ mkInsight "recommendation" "overall" "Insufficient Data for Analysis"
        ("Insufficient historical data available for " ++ periodName p
         ++ " analysis. Continue running audits to build comprehensive trend insights.")
        "low" (periodName p) 10 ["Limited audit history available"] ]%string
    [] []
    [ mkRecommendation "low" "monitoring" "Increase Data Collection"
        ("Run additional audits to gather sufficient data for meaningful "
         ++ periodName p ++ " trend analysis")
        "Enable comprehensive historical performance insights and recommendations"
        "low" "short-term" ["Insufficient historical data points"] ]%string
    10.

Section Service.
(** The insight and recommendation writers print floating-point
    numbers ([toFixed], [Math.sqrt]); the engine only stores what they
    return. *)
Variable generateKeyInsights :
  list PerformanceHistory -> TimePeriod -> list TrendInsight.
Variable generateRecommendations :
  list PerformanceHistory -> list SignificantChange ->
  list SignificantChange -> list HistoricalRecommendation.
Variable cal : Calendar.

Definition createInsufficientDataAnalysis (trackingId : string)
    (p : TimePeriod) (uuid : string) (now : Z) (st : MemStorage)
    : TrendAnalysis * MemStorage :=
  createOrUpdateTrendAnalysis (insufficientData trackingId p) uuid now st.

(** The history slice that [generateTrendAnalysis] reads. *)
Definition historyInRange (trackingId : string) (p : TimePeriod) (now : Z)
    (st : MemStorage) : list PerformanceHistory :=
  let dateRange := calculateDateRange cal now p in
  getPerformanceHistoryByDateRange st trackingId (fst dateRange) (snd dateRange).

(** [uuid] and [now] are what [randomUUID()] and the clock give during
    the call. *)
Definition generateTrendAnalysis (trackingId : string) (p : TimePeriod)
    (uuid : string) (now : Z) (st : MemStorage) : TrendAnalysis * MemStorage :=
  let params := TREND_PARAMS p in
  let performanceHistory := historyInRange trackingId p now st in
  if (len performanceHistory <? minimumDataPoints params)%Z
  then createInsufficientDataAnalysis trackingId p uuid now st
  else
    let overallTrend := detectOverallTrend performanceHistory in
    let trendStrength := calculateTrendStrength performanceHistory overallTrend in
    let keyInsights := generateKeyInsights performanceHistory p in
    let improvements :=
      identifyImprovements performanceHistory (significanceThreshold params) in
    let regressions :=
      identifyRegressions performanceHistory (significanceThreshold params) in
    let recommendations :=
      generateRecommendations performanceHistory improvements regressions in
    let confidenceScore := calculateConfidenceScore performanceHistory p now in
    createOrUpdateTrendAnalysis
      (mkInsert trackingId p overallTrend trendStrength keyInsights
         improvements regressions recommendations confidenceScore)
      uuid now st.
End Service.

End Trend.

(* ===================================================================== *)
(** * Further parts of the services *)
(* ===================================================================== *)

(** ** Page retrieval ([AuditService.fetchPage]) *)

Module Fetch.
Import JS SafetyGate.

(** What [fetchPage] resolves to, or the message of the error it throws. *)
Inductive FetchResult :=
| Fetched (html : string) (loadTime contentSize : Z)
| FetchError (message : string).

Definition failedToFetch (message : string) : string :=
  "Failed to fetch URL: " ++ message.

(** [response.data]: the body as text, or another value, which is what
    axios delivers when it could parse the body as JSON to something that
    is no string.  [Buffer.byteLength] throws a [TypeError] on a value that
    is no string; [typeError] is the message of that error. *)
Inductive Data :=
| Text (data : string)
| Parsed (typeError : string).

(** How [axios.get(url, { maxRedirects: 3, ... })] ends: with a response,
    or with an error, of which [fetchPage] uses the message. *)
Inductive Ending :=
| Response (data : Data)
| Rejected (message : string).

(** A call of [axios.get]: the URLs that axios sends a GET to, in order
    (none when it rejects the URL before sending, else [url] followed by
    the Location targets of the redirects that it follows), and how
    the call ends. *)
Record GetCall := mkGetCall { contacted : list string; ending : Ending }.

Definition maxRedirects : nat := 3.

(** axios follows no more than [maxRedirects] redirects, starting from the
    URL it was called with. *)
Definition honoursMaxRedirects (axiosGet : string -> GetCall) : Prop :=
  forall url,
    (List.length (contacted (axiosGet url)) <= 1 + maxRedirects)%nat
    /\ (contacted (axiosGet url) = []
        \/ exists redirects, contacted (axiosGet url) = url :: redirects).

Section FetchPage.
Variable parseURL : string -> option URL.
Variable dnsLookup : string -> LookupResult.
Variable axiosGet : string -> GetCall.

(** [startTime] and [endTime] are the two readings of [Date.now()].
    The second component lists the URLs that a GET was sent to.  Only
    [url] itself goes through the Gate. *)
Definition fetchPage (url : string) (startTime endTime : Z)
    : FetchResult * list string :=
  match validateUrlSafety parseURL dnsLookup url with
  | Throw message => (FetchError (failedToFetch message), [])
  | Ok =>
      let call := axiosGet url in
      match ending call with
      | Response (Text data) =>
          (Fetched data (endTime - startTime)
                   (Z.of_nat (String.length data)),
           contacted call)
      | Response (Parsed typeError) =>
          (FetchError (failedToFetch typeError), contacted call)
      | Rejected message =>
          (FetchError (failedToFetch message), contacted call)
      end
  end.
End FetchPage.

End Fetch.

Module Insights.
Import JS Schema Storage Trend.

Section Service.
Variable generateKeyInsights :
  list PerformanceHistory -> TimePeriod -> list TrendInsight.
Variable generateRecommendations :
  list PerformanceHistory -> list SignificantChange ->
  list SignificantChange -> list HistoricalRecommendation.
Variable cal : Calendar.

(** The store after the analyses of [periods] were generated one after
    the other; [uuid p] and [now p] are what [randomUUID()] and the
    clock give during the analysis of period [p]. *)
Definition analysesInOrder (periods : list TimePeriod) (trackingId : string)
    (uuid : TimePeriod -> string) (now : TimePeriod -> Z) (st : MemStorage)
    : MemStorage :=
  fold_left
    (fun st p =>
       snd (generateTrendAnalysis generateKeyInsights generateRecommendations
              cal trackingId p (uuid p) (now p) st))
    periods st.

(** [onNewAuditRecorded]: the four analyses are started in the order of
    [timePeriods]; none of them throws. *)
Definition onNewAuditRecorded (trackingId : string)
    (uuid : TimePeriod -> string) (now : TimePeriod -> Z) (st : MemStorage)
    : MemStorage :=
  analysesInOrder [P7d; P30d; P90d; P1y] trackingId uuid now st.
End Service.

End Insights.

(** ** Tracked sites and their history ([MemStorage]) *)

Module Tracking.
Import JS Schema Storage Trend.

Record HistoricalTracking := mkTracking {
  trackId : string;
  trackUrl : string;
  domain : string;
  trackingStartDate : Z;
  lastAuditDate : Z;
  totalAudits : Z;
  isActive : bool;
  retentionDays : Z;
  trackingFrequency : string
}.

(** A [Map] with string keys: entries in insertion order; [set] on a
    present key replaces the value where it stands. *)
Definition JsMap (V : Type) : Type := list (string * V).

Fixpoint mapGet {V} (m : JsMap V) (k : string) : option V :=
  match m with
  | [] => None
  | (k', v) :: m' => if String.eqb k' k then Some v else mapGet m' k
  end.

Fixpoint mapSet {V} (k : string) (v : V) (m : JsMap V) : JsMap V :=
  match m with
  | [] => [(k, v)]
  | (k', v') :: m' =>
      if String.eqb k' k then (k, v) :: m' else (k', v') :: mapSet k v m'
  end.

Definition mapValues {V} (m : JsMap V) : list V := List.map snd m.

(** The three maps of [MemStorage] that the history feature uses.  The
    values of [historicalTracking] are objects that the methods hand out
    and update in place; a caller that holds one sees what the map holds
    under its id. *)
Record Store := mkStore {
  historicalTracking : JsMap HistoricalTracking;
  records : MemStorage
}.

Definition noTracking : Store := mkStore [] Storage.empty.

Record AuditReport := mkReport {
  reportId : string;
  reportUrl : string;
  reportScore : Q;
  reportDate : Z
}.

Section Urls.
(** [canonicalizeUrl], which rests on the URL parser, and
    [new URL(canonical).hostname]; [None] when the constructor throws. *)
Variable canonicalizeUrl : string -> string.
Variable hostnameOf : string -> option string.

Definition byUrl (canonical : string) (t : HistoricalTracking) : bool :=
  String.eqb (trackUrl t) canonical.

(** [None] is the rejected promise of [new URL(canonical)] throwing;
    [uuid] and [now] are what [randomUUID()] and the clock give. *)
Definition createOrUpdateHistoricalTracking (url : string)
    (domainArg : option string) (uuid : string) (now : Z) (st : Store)
    : option (HistoricalTracking * Store) :=
  let canonical := canonicalizeUrl url in
  match List.find (byUrl canonical) (mapValues (historicalTracking st)) with
  | Some existing => Some (existing, st)
  | None =>
      let domainOrHostname :=
        match domainArg with
        | Some d => if Scoring.nonEmpty d then Some d else hostnameOf canonical
        | None => hostnameOf canonical
        end in
      match domainOrHostname with
      | None => None
      | Some d =>
          let tracking :=
            mkTracking uuid canonical d now now 0 true 365 "manual" in
          Some (tracking,
                mkStore (mapSet uuid tracking (historicalTracking st))
                        (records st))
      end
  end.

Definition getHistoricalTracking (st : Store) (id : string)
    : option HistoricalTracking :=
  mapGet (historicalTracking st) id.

Definition getHistoricalTrackingByUrl (st : Store) (url : string)
    : option HistoricalTracking :=
  List.find (byUrl (canonicalizeUrl url)) (mapValues (historicalTracking st)).

Definition getActiveTrackings (st : Store) : list HistoricalTracking :=
  List.filter isActive (mapValues (historicalTracking st)).

Definition updateTrackingStats (trackingId : string) (auditDate : Z)
    (st : Store) : Store :=
  match mapGet (historicalTracking st) trackingId with
  | Some tracking =>
      let tracking :=
        mkTracking (trackId tracking) (trackUrl tracking) (domain tracking)
          (trackingStartDate tracking) auditDate (totalAudits tracking + 1)
          (isActive tracking) (retentionDays tracking)
          (trackingFrequency tracking) in
      mkStore (mapSet trackingId tracking (historicalTracking st)) (records st)
  | None => st
  end.

Definition deactivateTracking (id : string) (st : Store) : bool * Store :=
  match mapGet (historicalTracking st) id with
  | Some tracking =>
      let tracking :=
        mkTracking (trackId tracking) (trackUrl tracking) (domain tracking)
          (trackingStartDate tracking) (lastAuditDate tracking)
          (totalAudits tracking) false (retentionDays tracking)
          (trackingFrequency tracking) in
      (true, mkStore (mapSet id tracking (historicalTracking st)) (records st))
  | None => (false, st)
  end.

(** [recordAuditInHistory] up to its return.  The [tracking] it returns
    is the object that [updateTrackingStats] has just updated.  The
    insight generation it starts is not awaited and writes trend
    analyses only. *)
Definition recordAuditInHistory (auditReport : AuditReport)
    (uuid : string) (now : Z) (st : Store)
    : option ((HistoricalTracking * PerformanceHistory) * Store) :=
  match createOrUpdateHistoricalTracking (reportUrl auditReport) None
          uuid now st with
  | None => None
  | Some (tracking, st) =>
      let st := updateTrackingStats (trackId tracking)
                  (reportDate auditReport) st in
      let tracking :=
        default tracking (mapGet (historicalTracking st) (trackId tracking)) in
      let score := Some (reportScore auditReport) in
      let '(history, recs) :=
        createPerformanceHistory
          (mkHistory (trackId tracking) (reportId auditReport) 0
             (reportScore auditReport) score score score score)
          now (records st) in
      Some ((tracking, history), mkStore (historicalTracking st) recs)
  end.
End Urls.

(** *** Reading the history *)

Definition newestFirst (histories : list PerformanceHistory)
    : list PerformanceHistory :=
  sortBy (fun h => (- recordedAt h)%Z) histories.

(** [getPerformanceHistoryByTracking]: the stored array is sorted in
    place; [limit] is an optional number, and 0 is falsy. *)
Definition getPerformanceHistoryByTracking (trackingId : string)
    (limit : option Z) (st : MemStorage)
    : list PerformanceHistory * MemStorage :=
  let sorted := newestFirst (historiesOf st trackingId) in
  let st :=
    match performanceHistory st !! trackingId with
    | Some _ =>
        mkStorage (<[trackingId := sorted]> (performanceHistory st))
                  (trendAnalyses st)
    | None => st
    end in
  (match limit with
   | Some n => if (n =? 0)%Z then sorted else slice sorted 0 (Some n)
   | None => sorted
   end, st).

Definition getLatestPerformanceHistory (trackingId : string) (st : MemStorage)
    : option PerformanceHistory * MemStorage :=
  let '(histories, st) :=
    getPerformanceHistoryByTracking trackingId (Some 1%Z) st in
  (List.head histories, st).

(** The counter [deleted] of [cleanupExpiredData]. *)
Definition cleanupDeleted (cutoffDate : Z) (st : MemStorage) : Z :=
  fold_left
    (fun deleted entry =>
       (deleted + (len (snd entry)
                   - len (List.filter (fun h => cutoffDate <? recordedAt h)
                                      (snd entry))))%Z)
    (map_to_list (performanceHistory st)) 0%Z.

End Tracking.

(** ** Competitive rankings ([CompetitiveAnalysisService]) *)

Module Competitive.
Import JS Trend.

Record Competitor := mkCompetitor {
  competitorId : string;
  competitorUrl : string;
  competitorName : option string
}.

Record CompetitorRanking := mkRanking {
  rankingCompetitorId : option string;
  rankingUrl : string;
  rankingName : option string;
  score : Z;
  rank : Z;
  isPrimary : bool
}.

(** [name || undefined] *)
Definition orUndefined (name : option string) : option string :=
  match name with
  | Some s => if Scoring.nonEmpty s then Some s else None
  | None => None
  end.

Definition withRank (index : nat) (item : CompetitorRanking) : CompetitorRanking :=
  mkRanking (rankingCompetitorId item) (rankingUrl item) (rankingName item)
    (score item) (Z.of_nat index + 1) (isPrimary item).

Section Audits.
Variable AuditReport : Type.
Variable auditUrl : AuditReport -> string.

(** [calculateCategoryRankings] inside [calculateRankings]: the primary
    site first, the competitors in their order, sorted by descending
    score and numbered from 1. *)
Definition calculateCategoryRankings (primaryAudit : AuditReport)
    (competitorAudits : list (Competitor * AuditReport))
    (scoreExtractor : AuditReport -> Z) : list CompetitorRanking :=
  let allAudits :=
    mkRanking None (auditUrl primaryAudit) None
      (scoreExtractor primaryAudit) 0 true
    :: List.map
         (fun ca =>
            mkRanking (Some (competitorId (fst ca))) (competitorUrl (fst ca))
              (orUndefined (competitorName (fst ca)))
              (scoreExtractor (snd ca)) 0 false)
         competitorAudits in
  imap withRank (sortBy (fun item => (- score item)%Z) allAudits).

Definition getTopPerformer (scoreExtractor : AuditReport -> Z)
    (primaryAudit : AuditReport)
    (competitorAudits : list (Competitor * AuditReport))
    : CompetitorRanking :=
  let topScore := (-1)%Z in
  let topPerformer :=
    mkRanking None (auditUrl primaryAudit) None
      (scoreExtractor primaryAudit) 1 true in
  let primaryScore := scoreExtractor primaryAudit in
  let checked :=
    if (topScore <? primaryScore)%Z
    then (primaryScore,
          mkRanking None (auditUrl primaryAudit) None primaryScore 1 true)
    else (topScore, topPerformer) in
  snd (fold_left
         (fun (top : Z * CompetitorRanking) ca =>
            let score := scoreExtractor (snd ca) in
            if (fst top <? score)%Z
            then (score,
                  mkRanking (Some (competitorId (fst ca)))
                    (competitorUrl (fst ca))
                    (orUndefined (competitorName (fst ca))) score 1 false)
            else top)
         competitorAudits checked).
End Audits.

End Competitive.

(* ===================================================================== *)
(** * Notions used in the statements, and sample data *)
(* ===================================================================== *)

Module GateNotions.
Import JS SafetyGate DocumentedRanges.

Definition schemeAllowed (urlObj : URL) : bool :=
  arrayIncludes ["http:"; "https:"] (protocol urlObj).

Definition loopbackName (urlObj : URL) : bool :=
  arrayIncludes ["localhost"; "127.0.0.1"; "::1"] (toLowerCase (hostname urlObj)).

Definition privateLiteral (urlObj : URL) : bool :=
  privateHostPattern (toLowerCase (hostname urlObj)).

(** The URL passes the scheme check and both literal-hostname checks. *)
Definition passesLiteralChecks (urlObj : URL) : bool :=
  schemeAllowed urlObj && negb (loopbackName urlObj) && negb (privateLiteral urlObj).


(** The character occurs in the string. *)
Fixpoint mentions (c : ascii) (s : string) : bool :=
  match s with
  | EmptyString => false
  | String a s' => Ascii.eqb a c || mentions c s'
  end.

(** What is needed of the text of one octet. *)
Definition octetChecked (n : Z) : bool :=
  match Number (octetText n) with Some v => v =? n | None => false end
  && negb (mentions "." (octetText n)) && negb (mentions ":" (octetText n))
  && negb (String.eqb (octetText n) "").

End GateNotions.

Module ScoringNotions.
Import Binary64(number, exactly).
Import PrimFloat.PrimFloatNotations.

(** A score is a whole number between 0 and 100. *)
Definition isScore (x : Z) : Prop := 0 <= x <= 100.

(** *** The weighted sums that scores can produce

    A weighted sum of scores is a multiple of 1/20.  The lists below hold
    every binary64 value that such a sum can take, each tagged with the
    number of twentieths that the sum of the real numbers has: first the
    products of the 101 scores with a weight, then the sums with the
    products of the next weight. *)
Definition Tagged : Type := Z * PrimFloat.float.

(** Buckets of values by tag; a value enters its bucket once. *)
Definition addTagged (m : Pmap (list PrimFloat.float)) (p : Tagged)
    : Pmap (list PrimFloat.float) :=
  let k := Z.to_pos (fst p + 1) in
  match m !! k with
  | Some b => if existsb (PrimFloat.Leibniz.eqb (snd p)) b then m
              else <[k := snd p :: b]> m
  | None => <[k := [snd p]]> m
  end.

Definition distinct (l : list Tagged) : list Tagged :=
  flat_map (fun kb => List.map (pair (Zpos (fst kb) - 1)) (snd kb))
           (map_to_list (fold_left addTagged l ∅)).

Definition scores : list Z := List.map Z.of_nat (seq 0 101).

Definition products (twentieths : Z) (weight : PrimFloat.float) : list Tagged :=
  List.map (fun k => (twentieths * k, (number k * weight)%float)) scores.

Definition sums (twentieths : Z) (weight : PrimFloat.float)
    (partial : list Tagged) : list Tagged :=
  let terms := products twentieths weight in
  distinct
    (flat_map (fun p => List.map (fun t => (fst p + fst t,
                                            (snd p + snd t)%float)) terms)
              partial).

Definition seoSums : list Tagged :=
  sums 2 Scoring.weights.userExperience
    (sums 3 Scoring.weights.performance
       (sums 4 Scoring.weights.technicalSEO
          (sums 5 Scoring.weights.contentStructure
             (products 6 Scoring.weights.metaTags)))).

Definition mobileSums : list Tagged :=
  sums 3 Scoring.mobileWeights.mobileSEO
    (sums 4 Scoring.mobileWeights.mobilePerformance
       (sums 4 Scoring.mobileWeights.textReadability
          (sums 5 Scoring.mobileWeights.touchTargets
             [(0, number 0); (200, number 10); (400, number 20)]))).

(** The rounding error of a weighted sum stays far below the distance
    1/20 between two sums. *)
Definition tolerance : Q := 1 # 1000000000.

Definition close (p : Tagged) : bool :=
  Qle_bool (Qabs (exactly (snd p) - (fst p # 20))) tolerance.

End ScoringNotions.

Module LinksNotions.
Import JS Links.
Local Open Scope list_scope.

(** The status with which a finished probe is recorded, if it is. *)
Definition recordedStatus (answer : Result Z) : option Z :=
  match answer with
  | Val status => if 400 <=? status then Some status else None
  | Exn (AxiosError (Some status)) => Some status
  | Exn _ => None
  end.

Definition recordedEntries (env : Env) (link : Anchor) (absoluteUrl : string)
    (isInternal : bool) : list BrokenLink :=
  match recordedStatus (finalAnswer env absoluteUrl) with
  | Some status => [entry link absoluteUrl status isInternal]
  | None => []
  end.

Definition headTarget (r : Request) : option string :=
  match r with HEAD u => Some u | GET _ => None end.

(** The HTTP status that an answer carries, if any. *)
Definition statusObtained (answer : Result Z) : option Z :=
  match answer with
  | Val status => Some status
  | Exn (AxiosError response) => response
  | Exn (OtherError _) => None
  end.

Section Run.
Variable env : Env.

(** What one iteration does to the locals. *)
Inductive step (link : Anchor) (s : St) : St -> Prop :=
| step_skip : step link s s
| step_rejected absoluteUrl :
    absoluteUrl ∉ checkedUrls s ->
    gate env absoluteUrl <> SafetyGate.Ok ->
    step link s (mkSt (brokenLinks s) ({[absoluteUrl]} ∪ checkedUrls s)
                      (checkedCount s + 1) (requests s))
| step_probed absoluteUrl isInternal reqs :
    absoluteUrl ∉ checkedUrls s ->
    omap headTarget reqs = [absoluteUrl] ->
    step link s
      (mkSt (brokenLinks s ++ recordedEntries env link absoluteUrl isInternal)
            ({[absoluteUrl]} ∪ checkedUrls s)
            (checkedCount s + 1) (requests s ++ reqs)).

(** The facts about the locals that hold throughout the loop. *)
Record invariant (s : St) : Prop := mkInvariant {
  count_bounded : 0 <= checkedCount s <= maxLinksToCheck;
  probes_counted : Z.of_nat (List.length (probed s)) <= checkedCount s;
  probes_checked : forall u, u ∈ probed s -> u ∈ checkedUrls s;
  probes_distinct : NoDup (probed s);
  entries_probed :
    forall b, b ∈ brokenLinks s ->
      url b ∈ probed s
      /\ recordedStatus (finalAnswer env (url b)) = Some (httpStatus b);
  probes_recorded :
    forall u status, u ∈ probed s ->
      recordedStatus (finalAnswer env u) = Some status ->
      exists b, b ∈ brokenLinks s /\ url b = u /\ httpStatus b = status
}.
End Run.

(** The claim as worded: an entry exists for a probed link exactly when
    the status obtained for it is at least 400. *)
Definition recordedIffAtLeast400 (env : Env) (links : list Anchor) : Prop :=
  let s := snd (run env links) in
  forall u, u ∈ probed s ->
    (exists b, b ∈ brokenLinks s /\ url b = u)
    <-> (exists status, statusObtained (finalAnswer env u) = Some status
                        /\ 400 <= status).



(** A site whose HEAD requests fail with a 304 response. *)
Definition notModified : Env :=
  mkEnv (fun href => Some ("https://site.example" ++ href)%string)
        (fun _ => Some false)
        (fun _ => SafetyGate.Ok)
        (fun _ => Exn (AxiosError (Some 304)))
        (fun _ => Val 200).

(** A site on which every request is answered 200. *)
Definition reachableSite : Env :=
  mkEnv (fun href => Some ("https://site.example" ++ href)%string)
        (fun _ => Some false)
        (fun _ => SafetyGate.Ok)
        (fun _ => Val 200)
        (fun _ => Val 200).

(** [/p], [/px], [/pxx], ...: pairwise distinct paths. *)
Fixpoint pagePath (k : nat) : string :=
  match k with
  | O => "/p"
  | S k' => (pagePath k' ++ "x")%string
  end.

Definition sixtyAnchors : list Anchor :=
  List.map (fun k => mkAnchor (pagePath k) "nav") (seq 0 60).

End LinksNotions.

Module StorageNotions.
Import Schema Storage.

(** Every stored analysis sits under the key of its own pair. *)
Definition keyed (st : MemStorage) : Prop :=
  forall k a, trendAnalyses st !! k = Some a ->
              k = key (trackingId a) (timePeriod a).

Definition firstAnalysis : InsertTrendAnalysis :=
  mkInsert "t1" P30d stable weak [] [] [] [] 10.
Definition secondAnalysis : InsertTrendAnalysis :=
  mkInsert "t1" P30d improving strong [] [] [] [] 80.

(** The store after two analyses of the same pair. *)
Definition analysedTwice : MemStorage :=
  snd (createOrUpdateTrendAnalysis secondAnalysis "u2" 200
         (snd (createOrUpdateTrendAnalysis firstAnalysis "u1" 100 Storage.empty))).

End StorageNotions.

Module TrendNotions.
Import JS Schema Storage Trend.

(** Records in the order of their time stamps. *)
Fixpoint timeOrdered (l : list PerformanceHistory) : Prop :=
  match l with
  | a :: (b :: _) as l' => recordedAt a <= recordedAt b /\ timeOrdered l'
  | _ => True
  end.

(** The mean of a non-empty list of scores. *)
Definition mean (l : list Q) : Q := (sumQ l / inject_Z (len l))%Q.

Definition sample (time : Z) (score : Q) : PerformanceHistory :=
  mkHistory "t1" "r" time score None None None None.

(** Ten audits: five at 50, then five at 80. *)
Definition fiftyThenEighty : list PerformanceHistory :=
  [ sample 1 50; sample 2 50; sample 3 50; sample 4 50; sample 5 50;
    sample 6 80; sample 7 80; sample 8 80; sample 9 80; sample 10 80 ].

Definition threeAudits : list PerformanceHistory :=
  [ sample 1 40; sample 2 90; sample 3 65 ].

(** A calendar without time zones: a day is 86 400 000 ms, a year 365
    days. *)
Definition plainCalendar : Calendar :=
  mkCalendar (fun now n => now - n * day) (fun now n => now - n * 365 * day).

(** A store with two records of tracking id [t1]. *)
Definition twoRecords : MemStorage :=
  snd (createPerformanceHistory (sample 0 70) 1000
         (snd (createPerformanceHistory (sample 0 60) 500 Storage.empty))).

(** A store with three records of tracking id [t1] and close scores. *)
Definition steadyWeek : MemStorage :=
  snd (createPerformanceHistory (sample 0 71) 3000
         (snd (createPerformanceHistory (sample 0 72) 2000
                 (snd (createPerformanceHistory (sample 0 70) 1000
                         Storage.empty))))).

End TrendNotions.

Module ScoringSamples.
Import Scoring.

(** A page that holds nothing but anchors with the given hrefs. *)
Definition anchorsOnly (hrefs : list string) : Page :=
  {| titleText := ""; descriptionContent := ""; ogImageContent := "";
     ogTitleContent := ""; ogDescriptionContent := ""; twitterCardContent := "";
     twitterTitleContent := ""; twitterDescriptionContent := "";
     h1Count := 0; headings := []; hasMain := false; hasHeader := false;
     hasNav := false; hasFooter := false; wordCount := 1; images := [];
     canonicalLinks := 0; robotsMeta := 0; sitemapLinks := 0; htmlLang := "";
     schemaMarkup := 0; viewportMeta := 0; viewportContent := "";
     forms := 0; formInputsWithoutLabels := 0; interactiveElements := [];
     textElements := []; hasWebP := false; appleTouchIcon := false;
     screenStylesheet := false; styleTextMentionsMedia := false;
     ldJsonScripts := []; requestElements := 0; anchorHrefs := hrefs;
     inputsWithoutLabels := 0; imagesWithEmptyAlt := 0;
     lowContrastElements := 0; skipLinks := 0; duplicateIds := 0 |}.

(** A page on which every selector comes back empty. *)
Definition emptyPage : Page := anchorsOnly [].

Definition someLink (n : nat) : BrokenLink :=
  mkBrokenLink "https://site.example/gone" 404 "nav" true.

End ScoringSamples.

Module LinksTrace.
Import JS Links LinksNotions.
Local Open Scope list_scope.

Section Trace.
Variable env : Env.

(** The absolute URL and the internal flag that [checkLinks] computes
    for an [href]; [None] when [new URL] throws. *)
Definition target (href : string) : option (string * bool) :=
  if startsWith href "/" then
    option_map (fun absoluteUrl => (absoluteUrl, true)) (resolve env href)
  else if startsWith href "http" then
    option_map (fun isInternal => (href, isInternal)) (sameOrigin env href)
  else
    option_map (fun absoluteUrl => (absoluteUrl, true)) (resolve env href).

(** The calls of axios in one probe. *)
Definition exchange (absoluteUrl : string) : list Request :=
  match head env absoluteUrl with
  | Val _ => [HEAD absoluteUrl]
  | Exn headError =>
      if methodNotAllowed headError
      then [HEAD absoluteUrl; GET absoluteUrl]
      else [HEAD absoluteUrl]
  end.

Definition admitted (absoluteUrl : string) (isInternal : bool) : bool :=
  isInternal ||
  match gate env absoluteUrl with
  | SafetyGate.Ok => true
  | SafetyGate.Throw _ => false
  end.

(** The locals after one iteration of the loop. *)
Definition visit (link : Anchor) (s : St) : St :=
  if skippedHref (href link) then s
  else
    match target (href link) with
    | None => s
    | Some (absoluteUrl, isInternal) =>
        if decide (absoluteUrl ∈ checkedUrls s) then s
        else if admitted absoluteUrl isInternal then
          mkSt (brokenLinks s
                  ++ recordedEntries env link absoluteUrl isInternal)
               ({[absoluteUrl]} ∪ checkedUrls s) (checkedCount s + 1)
               (requests s ++ exchange absoluteUrl)
        else
          mkSt (brokenLinks s) ({[absoluteUrl]} ∪ checkedUrls s)
               (checkedCount s + 1) (requests s)
    end.

Fixpoint visitAll (links : list Anchor) (s : St) : St :=
  match links with
  | [] => s
  | link :: rest =>
      if checkedCount s <? maxLinksToCheck
      then visitAll rest (visit link s)
      else s
  end.

(** The anchor behind a probed or recorded URL. *)
Definition leadsTo (links : list Anchor) (absoluteUrl : string)
    (isInternal : bool) (link : Anchor) : Prop :=
  link ∈ links /\ skippedHref (href link) = false
  /\ target (href link) = Some (absoluteUrl, isInternal).

Record orderly (links : list Anchor) (s : St) : Prop := mkOrderly {
  counted : checkedCount s = Z.of_nat (size (checkedUrls s));
  count_capped : 0 <= checkedCount s <= maxLinksToCheck;
  exchanged : requests s = flat_map exchange (probed s);
  probes_admitted :
    forall u, u ∈ probed s ->
      exists link isInternal,
        leadsTo links u isInternal link /\ admitted u isInternal = true;
  checked_probed_or_rejected :
    forall u, u ∈ checkedUrls s ->
      u ∈ probed s
      \/ exists link, leadsTo links u false link
                      /\ gate env u <> SafetyGate.Ok;
  entries_anchored :
    forall b, b ∈ brokenLinks s ->
      exists link,
        leadsTo links (url b) (isInternalLink b) link
        /\ foundIn b = context link;
  entries_ordered : List.map url (brokenLinks s) `sublist_of` probed s;
  probed_checked : forall u, u ∈ probed s -> u ∈ checkedUrls s;
  probed_once : NoDup (probed s)
}.
End Trace.

Definition followed (link : Anchor) : bool := negb (skippedHref (href link)).

(** A page served from [https://site.example/] with two anchors that lead
    off the site without an href that starts with [http]: a
    protocol-relative one and one whose scheme is in capitals.  The URL
    parser resolves them as below, and the Gate is the real one. *)
Definition offSiteAnchors : list Anchor :=
  [mkAnchor "//169.254.169.254/latest/meta-data/" "main";
   mkAnchor "HTTP://10.0.0.7/admin" "footer"].

Definition unguarded : Env :=
  mkEnv (fun href =>
           if String.eqb href "//169.254.169.254/latest/meta-data/"
           then Some "https://169.254.169.254/latest/meta-data/"
           else if String.eqb href "HTTP://10.0.0.7/admin"
           then Some "http://10.0.0.7/admin"
           else None)
        (fun _ => Some false)
        (SafetyGate.validateUrlSafety
           (fun url =>
              if String.eqb url "https://169.254.169.254/latest/meta-data/"
              then Some (SafetyGate.mkURL "https:" "169.254.169.254")
              else if String.eqb url "http://10.0.0.7/admin"
              then Some (SafetyGate.mkURL "http:" "10.0.0.7")
              else None)
           (fun _ => SafetyGate.LookupError "getaddrinfo ENOTFOUND"))
        (fun _ => Val 200)
        (fun _ => Val 200).

(** Every call contacts its URL and nothing else. *)
Definition noRedirects : Wire :=
  mkWire (fun r => match r with HEAD u => [u] | GET u => [u] end).

(** A page with a link to another site, [https://partner.example/], which
    resolves to a public address; the Gate is the real one. *)
Definition partnerLink : Env :=
  mkEnv (fun href => Some href)
        (fun _ => Some false)
        (SafetyGate.validateUrlSafety
           (fun url =>
              if String.eqb url "https://partner.example/"
              then Some (SafetyGate.mkURL "https:" "partner.example")
              else if String.eqb url "http://10.0.0.7/"
              then Some (SafetyGate.mkURL "http:" "10.0.0.7")
              else None)
           (fun _ => SafetyGate.Resolved "93.184.216.34" 4))
        (fun _ => Val 200)
        (fun _ => Val 200).

(** The HEAD of [https://partner.example/] is redirected to
    [http://10.0.0.7/]. *)
Definition redirectedInside : Wire :=
  mkWire (fun r => match r with
                   | HEAD u => if String.eqb u "https://partner.example/"
                               then [u; "http://10.0.0.7/"] else [u]
                   | GET u => [u]
                   end).

End LinksTrace.

Module TrendTrace.
Import JS Schema Storage Trend TrendNotions.

(** Three audits, each better than the one before. *)
Definition threeRising : list PerformanceHistory :=
  [ sample 3 72; sample 1 60; sample 2 66 ].

(** The order in which [sortBy key] leaves an array. *)
Definition byKey {A : Type} (key : A -> Z) (a b : A) : Prop := key a <= key b.

(** The categories of the five metrics, in the order of the [metrics]
    array. *)
Definition categories : list Category :=
  [overall; seo; accessibility; mobile; performance].

Section Service.
Variable generateKeyInsights :
  list PerformanceHistory -> TimePeriod -> list TrendInsight.
Variable generateRecommendations :
  list PerformanceHistory -> list SignificantChange ->
  list SignificantChange -> list HistoricalRecommendation.
Variable cal : Calendar.

(** What [generateTrendAnalysis] hands to the store. *)
Definition analysisData (trackingId : string) (p : TimePeriod) (now : Z)
    (st : MemStorage) : InsertTrendAnalysis :=
  let h := historyInRange cal trackingId p now st in
  if len h <? minimumDataPoints (TREND_PARAMS p)
  then insufficientData trackingId p
  else
    let improvements :=
      identifyImprovements h (significanceThreshold (TREND_PARAMS p)) in
    let regressions :=
      identifyRegressions h (significanceThreshold (TREND_PARAMS p)) in
    mkInsert trackingId p (detectOverallTrend h)
      (calculateTrendStrength h (detectOverallTrend h))
      (generateKeyInsights h p) improvements regressions
      (generateRecommendations h improvements regressions)
      (calculateConfidenceScore h p now).
End Service.

End TrendTrace.

Module StorageTrace.
Import JS Schema Storage Trend Tracking.

(** A score that [x || null] turns into [null]. *)
Definition falsy (x : option Q) : Prop :=
  match x with
  | Some v => (v == 0)%Q
  | None => True
  end.

(** The order in which [getPerformanceHistoryByTracking] leaves the rows. *)
Definition notOlder (a b : PerformanceHistory) : Prop :=
  recordedAt b <= recordedAt a.

Definition newerThan (cutoffDate : Z) (h : PerformanceHistory) : bool :=
  cutoffDate <? recordedAt h.

End StorageTrace.

Module TrackingTrace.
Import JS Schema Storage Trend Tracking.

(** What holds of the tracking map: ids are keys, and no two trackings
    share a URL. *)
Record consistent (m : JsMap HistoricalTracking) : Prop := mkConsistent {
  keys_distinct : NoDup (List.map fst m);
  keyed_by_id : forall k t, In (k, t) m -> trackId t = k;
  urls_distinct : NoDup (List.map trackUrl (mapValues m))
}.

(** What holds of a store: rows are only kept for trackings, and no
    tracking has more rows than it counts audits; [exact] says that it
    has as many. *)
Record audited (exact : bool) (st : Store) : Prop := mkAudited {
  map_consistent : consistent (historicalTracking st);
  rows_have_tracking :
    forall k, historiesOf (records st) k <> [] ->
              mapGet (historicalTracking st) k <> None;
  rows_counted :
    forall k t, In (k, t) (historicalTracking st) ->
                len (historiesOf (records st) k) <= totalAudits t;
  rows_counted_exactly :
    exact = true ->
    forall k t, In (k, t) (historicalTracking st) ->
                len (historiesOf (records st) k) = totalAudits t
}.

Section Urls.
Variable canonicalizeUrl : string -> string.
Variable hostnameOf : string -> option string.

(** Stores that the methods produce from the empty store, when
    [randomUUID()] never repeats an id.  The flag tells whether rows
    may have been cleaned up. *)
Inductive tracked : bool -> Store -> Prop :=
| tracked_none : tracked false noTracking
| tracked_create b st url domainArg uuid now t st' :
    tracked b st ->
    mapGet (historicalTracking st) uuid = None ->
    createOrUpdateHistoricalTracking canonicalizeUrl hostnameOf
      url domainArg uuid now st = Some (t, st') ->
    tracked b st'
| tracked_record b st auditReport uuid now r st' :
    tracked b st ->
    mapGet (historicalTracking st) uuid = None ->
    recordAuditInHistory canonicalizeUrl hostnameOf auditReport uuid now st
      = Some (r, st') ->
    tracked b st'
| tracked_deactivate b st id :
    tracked b st -> tracked b (snd (deactivateTracking id st))
| tracked_read b st trackingId limit :
    tracked b st ->
    tracked b
      (mkStore (historicalTracking st)
         (snd (getPerformanceHistoryByTracking trackingId limit (records st))))
| tracked_analysis b st insertAnalysis uuid now :
    tracked b st ->
    tracked b
      (mkStore (historicalTracking st)
         (snd (createOrUpdateTrendAnalysis insertAnalysis uuid now
                 (records st))))
| tracked_cleanup b st cutoffDate :
    tracked b st ->
    tracked true
      (mkStore (historicalTracking st)
         (cleanupExpiredData cutoffDate (records st))).
End Urls.

(** A parser that accepts every address and takes it for its own host. *)
Definition lowerCase (url : string) : string := toLowerCase url.
Definition wholeHost (url : string) : option string := Some url.

Definition firstReport : AuditReport :=
  mkReport "r1" "https://Site.example" 72 1000.

(** The store after the first audit was recorded. *)
Definition afterFirstAudit : Store :=
  match recordAuditInHistory lowerCase wholeHost firstReport "u1" 5
          noTracking with
  | Some (_, st) => st
  | None => noTracking
  end.

End TrackingTrace.

Module CompetitiveTrace.
Import JS Trend Competitive.

(** The first element with the least key, from the left. *)
Definition leader {A : Type} (key : A -> Z) (x : A) (l : list A) : A :=
  fold_left (fun top y => if key y <? key top then y else top) l x.

(** The ranking entry of a competitor before it is numbered. *)
Definition entry {AuditReport : Type} (scoreExtractor : AuditReport -> Z)
    (ca : Competitor * AuditReport) : CompetitorRanking :=
  mkRanking (Some (competitorId (fst ca))) (competitorUrl (fst ca))
    (orUndefined (competitorName (fst ca))) (scoreExtractor (snd ca)) 0 false.

(** The order of a ranking. *)
Definition notBelow (a b : CompetitorRanking) : Prop := score b <= score a.

(** Two competitors of one site; an audit is taken for its score. *)
Definition rivals : list (Competitor * Z) :=
  [ (mkCompetitor "c1" "https://one.example" (Some "One"), 81);
    (mkCompetitor "c2" "https://two.example" None, 64) ].

End CompetitiveTrace.

(* ===================================================================== *)
(** * Properties *)
(* ===================================================================== *)

(** ** URL Safety Gate *)

Module SafetyGateFacts.
Import JS SafetyGate DocumentedRanges GateNotions.

Lemma validateParsed_unfold dnsLookup urlObj :
  validateParsed dnsLookup urlObj =
  if negb (schemeAllowed urlObj) then Throw msgProtocol
  else if loopbackName urlObj then Throw msgLoopback
  else if privateLiteral urlObj then Throw msgPrivate
  else catchLookup (resolveAndCheck dnsLookup urlObj).
Proof. reflexivity. Qed.

Lemma msgPrivate_marked : includes msgPrivate "Cannot audit" = true.
Proof. reflexivity. Qed.

(** A string without the letter C cannot contain the marker. *)
Lemma unmarked_without_C s :
  mentions "C" s = false -> includes s "Cannot audit" = false.
Proof.
  induction s as [|a s IH]; [reflexivity|].
  cbn [mentions]. intros H. apply orb_false_iff in H as [Ha Hs].
  cbn [includes startsWith]. rewrite Ha, (IH Hs). reflexivity.
Qed.

(** The messages of Node's resolver errors, [getaddrinfo CODE host], are
    not mistaken for the Gate's own error when the host name carries no
    capital C, as is the case for the lower-cased host of a parsed URL. *)
Lemma resolver_message_unmarked code host :
  In code ["ENOTFOUND"; "EAI_AGAIN"; "ESERVFAIL"; "ETIMEOUT"; "ECONNREFUSED";
           "ENODATA"; "EAI_FAIL"] ->
  mentions "C" host = false ->
  includes ("getaddrinfo " ++ code ++ " " ++ host) "Cannot audit" = false.
Proof.
  intros Hcode Hhost. pose proof (unmarked_without_C host Hhost) as Hinc.
  cbn [In] in Hcode.
  repeat (destruct Hcode as [<- | Hcode]; [cbn; exact Hinc|]).
  contradiction.
Qed.

(** *** The IPv4 half of the classifier is the documented partition *)

Lemma includes_char s c : includes s (String c "") = mentions c s.
Proof.
  induction s as [|a s IH]; [reflexivity|].
  cbn [includes startsWith mentions]. rewrite IH.
  destruct (Ascii.eqb a c), s; reflexivity.
Qed.

Lemma mentions_app c s1 s2 :
  mentions c (s1 ++ s2) = mentions c s1 || mentions c s2.
Proof.
  induction s1 as [|a s1 IH]; [reflexivity|].
  simpl. rewrite IH. apply orb_assoc.
Qed.

Lemma split_whole sep s : mentions sep s = false -> split sep s = [s].
Proof.
  induction s as [|a s IH]; [reflexivity|].
  cbn [mentions split]. intros H. apply orb_false_iff in H as [Ha Hs].
  rewrite Ha, (IH Hs). reflexivity.
Qed.

Lemma split_app sep s1 s2 :
  mentions sep s1 = false ->
  split sep (s1 ++ String sep s2) = s1 :: split sep s2.
Proof.
  induction s1 as [|a s1 IH]; intros H.
  - simpl. rewrite Ascii.eqb_refl. reflexivity.
  - cbn [mentions] in H. apply orb_false_iff in H as [Ha Hs].
    simpl. rewrite Ha, (IH Hs). reflexivity.
Qed.

Lemma octets_checked :
  forallb (fun k => octetChecked (Z.of_nat k)) (seq 0 256) = true.
Proof. vm_compute. reflexivity. Qed.

Lemma octetText_spec n :
  0 <= n <= 255 ->
  Number (octetText n) = Some n
  /\ mentions "." (octetText n) = false /\ mentions ":" (octetText n) = false
  /\ octetText n <> "".
Proof.
  intros Hn. pose proof octets_checked as H.
  rewrite forallb_forall in H. specialize (H (Z.to_nat n)).
  rewrite Z2Nat.id in H by lia.
  assert (Hin : In (Z.to_nat n) (seq 0 256)) by (apply in_seq; lia).
  apply H in Hin. unfold octetChecked in Hin.
  apply andb_true_iff in Hin as [Hin Hne].
  apply negb_true_iff, String.eqb_neq in Hne.
  apply andb_true_iff in Hin as [Hin Hcolon].
  apply andb_true_iff in Hin as [Hnum Hdot].
  apply negb_true_iff in Hcolon, Hdot.
  destruct (Number (octetText n)) as [v|]; [|discriminate].
  apply Z.eqb_eq in Hnum as ->. repeat split; assumption.
Qed.

Lemma shifted_a a b c d :
  0 <= b <= 255 -> 0 <= c <= 255 -> 0 <= d <= 255 ->
  Z.shiftr (v4value a b c d) 24 = a
  /\ Z.shiftr (v4value a b c d) 16 = a * 256 + b
  /\ Z.shiftr (v4value a b c d) 20 = a * 16 + b / 16
  /\ Z.shiftr (v4value a b c d) 28 = a / 16.
Proof.
  intros Hb Hc Hd. unfold v4value. rewrite !Z.shiftr_div_pow2 by lia.
  change (2 ^ 24) with 16777216. change (2 ^ 16) with 65536.
  change (2 ^ 8) with 256. change (2 ^ 20) with 1048576.
  change (2 ^ 28) with 268435456.
  repeat split; Z.to_euclidean_division_equations; lia.
Qed.

Ltac compare_all :=
  repeat match goal with
         | |- context [?x =? ?y] => destruct (Z.eqb_spec x y)
         | |- context [?x <=? ?y] => destruct (Z.leb_spec x y)
         end;
  cbn; try reflexivity; exfalso; Z.to_euclidean_division_equations; lia.

Lemma block_172 a b :
  0 <= b <= 255 ->
  (a * 16 + b / 16 =? 2753) = (a =? 172) && (16 <=? b) && (b <=? 31).
Proof. intros Hb. compare_all. Qed.

Lemma block_192 a b :
  0 <= b <= 255 -> (a * 256 + b =? 49320) = (a =? 192) && (b =? 168).
Proof. intros Hb. compare_all. Qed.

Lemma block_169 a b :
  0 <= b <= 255 -> (a * 256 + b =? 43518) = (a =? 169) && (b =? 254).
Proof. intros Hb. compare_all. Qed.

Lemma block_224 a : (a / 16 =? 14) = (224 <=? a) && (a <=? 239).
Proof. compare_all. Qed.

(** On every dotted-decimal IPv4 address the classifier answers as the
    documented ranges do. *)
Lemma ipv4_classifier_is_documented a b c d :
  0 <= a <= 255 -> 0 <= b <= 255 -> 0 <= c <= 255 -> 0 <= d <= 255 ->
  parseIP (dotted a b c d) = Some (IPv4 a b c d)
  /\ isPrivateIP (dotted a b c d) = documented (IPv4 a b c d).
Proof.
  intros Ha Hb Hc Hd.
  destruct (octetText_spec a Ha) as (Na & Da & Ca & Ea).
  destruct (octetText_spec b Hb) as (Nb & Db & Cb & Eb).
  destruct (octetText_spec c Hc) as (Nc & Dc & Cc & Ec).
  destruct (octetText_spec d Hd) as (Nd & Dd & Cd & Ed).
  assert (Hcolon : includes (dotted a b c d) ":" = false).
  { rewrite includes_char. unfold dotted. rewrite !mentions_app.
    rewrite Ca, Cb, Cc, Cd. reflexivity. }
  assert (Hsplit : split "." (dotted a b c d)
                   = [octetText a; octetText b; octetText c; octetText d]).
  { unfold dotted.
    assert (Hdot : forall s, ("." ++ s)%string = String "." s) by reflexivity.
    rewrite !Hdot.
    rewrite (split_app "." (octetText a)) by exact Da.
    rewrite (split_app "." (octetText b)) by exact Db.
    rewrite (split_app "." (octetText c)) by exact Dc.
    rewrite (split_whole "." (octetText d)) by exact Dd.
    reflexivity. }
  split.
  - unfold parseIP, parseIPv4. rewrite Hcolon, Hsplit. cbn [List.map].
    unfold parseOctet. rewrite Na, Nb, Nc, Nd.
    replace (a <=? 255) with true by (symmetry; apply Z.leb_le; lia).
    replace (b <=? 255) with true by (symmetry; apply Z.leb_le; lia).
    replace (c <=? 255) with true by (symmetry; apply Z.leb_le; lia).
    replace (d <=? 255) with true by (symmetry; apply Z.leb_le; lia).
    destruct (octetText a); [contradiction|].
    destruct (octetText b); [contradiction|].
    destruct (octetText c); [contradiction|].
    destruct (octetText d); [contradiction|].
    reflexivity.
  - unfold isPrivateIP. rewrite Hcolon, Hsplit. cbn [List.map List.length].
    rewrite Na, Nb. cbn [Nat.eqb negb part nth_error numEq numGe numLe].
    unfold documented, documentedV4, inPrefix.
    change (32 - 8) with 24. change (32 - 12) with 20.
    change (32 - 16) with 16. change (32 - 4) with 28.
    destruct (shifted_a a b c d Hb Hc Hd) as (-> & -> & -> & ->).
    repeat match goal with
           | |- context [Z.shiftr (v4value ?x ?y 0 0) ?k] =>
               let v := eval vm_compute in (Z.shiftr (v4value x y 0 0) k) in
               change (Z.shiftr (v4value x y 0 0) k) with v
           end.
    rewrite (block_172 a b Hb), (block_192 a b Hb), (block_169 a b Hb),
      (block_224 a).
    rewrite <- !orb_assoc.
    repeat (match goal with |- (if ?t then true else _) = _ => destruct t end;
            [reflexivity|cbn [orb]]).
    reflexivity.
Qed.

(** C1.  The classifier is not the documented partition: [fe90::1] lies in
    the link-local block fe80::/10, which the Gate is documented to
    reject, yet [isPrivateIP] answers [false] for it and [validateUrlSafety]
    lets a URL resolving to it through.  Only the group [fe80] itself is
    recognised. *)
Theorem link_local_fe90_passes_the_gate :
  parseIP "fe90::1" = Some (IPv6 [0xfe90; 0; 0; 0; 0; 0; 0; 1])
  /\ documented (IPv6 [0xfe90; 0; 0; 0; 0; 0; 0; 1]) = true
  /\ isPrivateIP "fe90::1" = false
  /\ validateUrlSafety
       (fun _ => Some (mkURL "http:" "printer.example"))
       (fun _ => Resolved "fe90::1" 6)
       "http://printer.example/" = Ok.
Proof. repeat split; reflexivity. Qed.

(** The classifier also answers [true] outside the documented ranges:
    the first non-empty group is compared as text. *)
Lemma public_addresses_rejected :
  Forall (fun ip => isPrivateIP ip = true
                    /\ option_map documented (parseIP ip) = Some false)
         ["fc::1"; "ff::1"; "::fc00:1"; "::"].
Proof. repeat constructor. Qed.




End SafetyGateFacts.

(** ** Category scorers *)

Module ScoringFacts.
Import JS Scoring ScoringNotions.
Import Binary64(number, exactly).
Import PrimFloat.PrimFloatNotations.

Lemma len_nonneg {A} (l : list A) : 0 <= len l.
Proof. unfold len. lia. Qed.

Lemma count_nonneg {A} (f : A -> bool) (l : list A) : 0 <= count f l.
Proof. apply len_nonneg. Qed.

Lemma count_le_len {A} (f : A -> bool) (l : list A) : count f l <= len l.
Proof.
  unfold count, len. apply inj_le.
  induction l as [|a l IH]; cbn; [lia|]. destruct (f a); cbn; lia.
Qed.

Lemma penalty_nonneg b n : 0 <= n -> 0 <= penalty b n.
Proof. destruct b; cbn; lia. Qed.

(** [Math.round] keeps a number of [0, 100] in [0, 100]. *)
Lemma round_score (x : Q) : (0 <= x)%Q -> (x <= 100)%Q -> isScore (round x).
Proof.
  intros H0 H100. unfold isScore, round. split.
  - change 0 with (Qfloor 0). apply Qfloor_resp_le. lra.
  - assert (H : (inject_Z (Qfloor (x + (1 # 2))) < inject_Z 101)%Q).
    { eapply Qle_lt_trans; [apply Qfloor_le|].
      change (inject_Z 101) with 101%Q. lra. }
    rewrite <- Zlt_Qlt in H. lia.
Qed.

Lemma round_inject (z : Z) : round (inject_Z z) = z.
Proof.
  unfold round.
  assert (Hlo : (inject_Z z <= inject_Z z + (1 # 2))%Q) by lra.
  apply Qfloor_resp_le in Hlo. rewrite Qfloor_Z in Hlo.
  assert (Hhi : (inject_Z (Qfloor (inject_Z z + (1 # 2))) < inject_Z (z + 1))%Q).
  { eapply Qle_lt_trans; [apply Qfloor_le|]. rewrite inject_Z_plus.
    change (inject_Z 1) with 1%Q. lra. }
  rewrite <- Zlt_Qlt in Hhi. lia.
Qed.

Lemma inject_score (x : Z) : isScore x -> (0 <= inject_Z x <= 100)%Q.
Proof.
  intros [H0 H100]. split.
  - change 0%Q with (inject_Z 0). rewrite <- Zle_Qle. exact H0.
  - change 100%Q with (inject_Z 100). rewrite <- Zle_Qle. exact H100.
Qed.

(** A non-negative share of a non-negative total, as a percentage. *)
Lemma share_nonneg (a b : Z) :
  0 <= a -> 0 <= b -> (0 <= inject_Z a / inject_Z b * 100)%Q.
Proof.
  intros Ha Hb. apply Qmult_le_0_compat; [|lra].
  apply Qmult_le_0_compat.
  - change 0%Q with (inject_Z 0). rewrite <- Zle_Qle. exact Ha.
  - apply Qinv_le_0_compat. change 0%Q with (inject_Z 0).
    rewrite <- Zle_Qle. exact Hb.
Qed.

Lemma floored_is_score (s : Z) : s <= 100 -> isScore (Z.max 0 s).
Proof. unfold isScore. lia. Qed.

(** *** SEO sub-scores *)

Ltac penalties :=
  repeat match goal with
         | |- context [penalty ?b ?n] =>
             let H := fresh "Hpen" in
             pose proof (penalty_nonneg b n ltac:(lia)) as H;
             generalize dependent (penalty b n); intros
         end.

Ltac branches :=
  repeat match goal with
         | |- context [if ?b then _ else _] => destruct b
         | H : context [if ?b then _ else _] |- _ => destruct b
         end.

Lemma analyzeMetaTagsScore_range m : isScore (analyzeMetaTagsScore m).
Proof.
  unfold analyzeMetaTagsScore. apply floored_is_score. penalties.
  branches; lia.
Qed.

Lemma headingWalk_le hs previousLevel score :
  headingWalk hs previousLevel score <= score.
Proof.
  revert previousLevel score.
  induction hs as [|h hs IH]; intros previousLevel score; cbn; [lia|].
  destruct (previousLevel + 1 <? h).
  - specialize (IH previousLevel (score - 5)). lia.
  - apply IH.
Qed.

Lemma analyzeContentStructure_range p : isScore (analyzeContentStructure p).
Proof.
  unfold analyzeContentStructure. apply floored_is_score.
  match goal with |- context [headingWalk ?hs ?a ?b] =>
    pose proof (headingWalk_le hs a b) as Hwalk;
    generalize dependent (headingWalk hs a b) end.
  intros walked Hwalk.
  pose proof (count_le_len hasAlt (images p)) as Hcount.
  penalties. branches; lia.
Qed.

Lemma analyzeTechnicalSEO_range p brokenLinks statistics :
  isScore (analyzeTechnicalSEO p brokenLinks statistics).
Proof.
  unfold analyzeTechnicalSEO. apply floored_is_score.
  pose proof (len_nonneg brokenLinks) as Hlen.
  penalties.
  branches; lia.
Qed.

Lemma analyzePerformanceScore_range m : isScore (analyzePerformanceScore m).
Proof.
  unfold analyzePerformanceScore. apply floored_is_score. penalties.
  branches; lia.
Qed.

Lemma analyzeUserExperience_range p issues :
  isScore (analyzeUserExperience p issues).
Proof.
  unfold analyzeUserExperience. apply floored_is_score.
  pose proof (count_nonneg isCritical issues).
  pose proof (count_nonneg isWarning issues).
  penalties.
  branches; lia.
Qed.

(** *** The weighted sums in binary64 *)

Lemma addTagged_same p m :
  exists b, addTagged m p !! Z.to_pos (fst p + 1) = Some b /\ In (snd p) b.
Proof.
  unfold addTagged. cbv zeta.
  destruct (m !! Z.to_pos (fst p + 1)) as [b|] eqn:Hb.
  - destruct (existsb (PrimFloat.Leibniz.eqb (snd p)) b) eqn:Hex.
    + apply existsb_exists in Hex as (y & Hy & Heq).
      apply FloatAxioms.Leibniz.eqb_spec in Heq. subst y.
      exists b. split; assumption.
    + exists (snd p :: b). rewrite lookup_insert_eq.
      split; [reflexivity|left; reflexivity].
  - exists [snd p]. rewrite lookup_insert_eq.
    split; [reflexivity|left; reflexivity].
Qed.

Lemma addTagged_other p k x m :
  (exists b, m !! k = Some b /\ In x b) ->
  exists b, addTagged m p !! k = Some b /\ In x b.
Proof.
  intros (b & Hb & Hin). unfold addTagged. cbv zeta.
  destruct (m !! Z.to_pos (fst p + 1)) as [b'|] eqn:Hb'.
  - destruct (existsb (PrimFloat.Leibniz.eqb (snd p)) b').
    + exists b. split; assumption.
    + destruct (decide (Z.to_pos (fst p + 1) = k)) as [<-|Hne].
      * rewrite lookup_insert_eq. exists (snd p :: b').
        split; [reflexivity|]. right. congruence.
      * rewrite lookup_insert_ne by assumption. exists b. split; assumption.
  - destruct (decide (Z.to_pos (fst p + 1) = k)) as [<-|Hne]; [congruence|].
    rewrite lookup_insert_ne by assumption. exists b. split; assumption.
Qed.

Lemma fold_addTagged l : forall m p,
  In p l \/ (exists b, m !! Z.to_pos (fst p + 1) = Some b /\ In (snd p) b) ->
  exists b, fold_left addTagged l m !! Z.to_pos (fst p + 1) = Some b
            /\ In (snd p) b.
Proof.
  induction l as [|q l IH]; intros m p H; cbn [fold_left].
  - destruct H as [[]|H]. exact H.
  - apply IH. destruct H as [[->|Hin]|H].
    + right. apply addTagged_same.
    + left. exact Hin.
    + right. apply addTagged_other, H.
Qed.

(** Nothing is lost when equal values are merged. *)
Lemma distinct_In l p : 0 <= fst p -> In p l -> In p (distinct l).
Proof.
  intros Hp Hin. unfold distinct.
  destruct (fold_addTagged l ∅ p (or_introl Hin)) as (b & Hb & Hx).
  apply in_flat_map. exists (Z.to_pos (fst p + 1), b). split.
  - apply list_elem_of_In, elem_of_map_to_list, Hb.
  - cbn [fst snd]. apply in_map_iff. exists (snd p). split; [|exact Hx].
    destruct p as [n x]. cbn [fst snd] in *. f_equal. lia.
Qed.

Lemma products_In twentieths weight k :
  isScore k ->
  In (twentieths * k, (number k * weight)%float) (products twentieths weight).
Proof.
  intros Hk. unfold isScore in Hk. unfold products, scores.
  apply in_map_iff. exists k. split; [reflexivity|].
  apply in_map_iff. exists (Z.to_nat k). split; [lia|]. apply in_seq. lia.
Qed.

Lemma sums_In twentieths weight partial n x k :
  0 <= twentieths -> 0 <= n -> isScore k -> In (n, x) partial ->
  In (n + twentieths * k, (x + number k * weight)%float)
     (sums twentieths weight partial).
Proof.
  intros Hu Hn Hk Hin. unfold sums. cbv zeta.
  apply distinct_In; [unfold isScore in Hk; cbn [fst]; nia|].
  apply in_flat_map. exists (n, x). split; [exact Hin|].
  apply in_map_iff. exists (twentieths * k, (number k * weight)%float).
  split; [reflexivity|]. apply products_In, Hk.
Qed.

Lemma seoSums_reached a b c d e :
  isScore a -> isScore b -> isScore c -> isScore d -> isScore e ->
  In (6 * a + 5 * b + 4 * c + 3 * d + 2 * e,
      (number a * weights.metaTags + number b * weights.contentStructure
       + number c * weights.technicalSEO + number d * weights.performance
       + number e * weights.userExperience)%float) seoSums.
Proof.
  intros Ha Hb Hc Hd He. unfold seoSums.
  repeat (apply sums_In; [lia|unfold isScore in *; lia|assumption|]).
  apply products_In, Ha.
Qed.

Lemma mobileSums_reached v a b c d :
  isScore a -> isScore b -> isScore c -> isScore d ->
  In (match v with good => 400 | warning => 200 | error => 0 end
      + 5 * a + 4 * b + 4 * c + 3 * d,
      (number (match v with good => 20 | warning => 10 | error => 0 end)
       + number a * mobileWeights.touchTargets
       + number b * mobileWeights.textReadability
       + number c * mobileWeights.mobilePerformance
       + number d * mobileWeights.mobileSEO)%float) mobileSums.
Proof.
  intros Ha Hb Hc Hd. unfold mobileSums.
  repeat (apply sums_In;
          [lia|unfold isScore in *; destruct v; lia|assumption|]).
  destruct v; cbn; auto.
Qed.

(** Every value that a weighted sum can take is within [tolerance] of the
    sum of the real numbers. *)
Lemma seoSums_close : forallb close seoSums = true.
Proof. vm_compute. reflexivity. Qed.

Lemma mobileSums_close : forallb close mobileSums = true.
Proof. vm_compute. reflexivity. Qed.

Lemma close_within (p : Tagged) (q : Q) :
  close p = true -> ((fst p # 20) == q)%Q ->
  (q - tolerance <= exactly (snd p) <= q + tolerance)%Q.
Proof.
  unfold close. intros H Hq. apply Qle_bool_iff in H.
  apply Qabs_Qle_condition in H. rewrite Hq in H. lra.
Qed.

Lemma weighted_seo_close a b c d e :
  isScore a -> isScore b -> isScore c -> isScore d -> isScore e ->
  let q := (inject_Z a * (30 # 100) + inject_Z b * (25 # 100)
            + inject_Z c * (20 # 100) + inject_Z d * (15 # 100)
            + inject_Z e * (10 # 100))%Q in
  (q - tolerance
   <= exactly (number a * weights.metaTags + number b * weights.contentStructure
               + number c * weights.technicalSEO + number d * weights.performance
               + number e * weights.userExperience)%float
   <= q + tolerance)%Q.
Proof.
  intros Ha Hb Hc Hd He q.
  apply (close_within _ q
           (proj1 (forallb_forall _ _) seoSums_close _
              (seoSums_reached a b c d e Ha Hb Hc Hd He))).
  subst q. cbn [fst]. unfold Qeq, Qplus, Qmult, inject_Z.
    cbn [Qnum Qden]. lia.
Qed.

Lemma weighted_mobile_close v a b c d :
  isScore a -> isScore b -> isScore c -> isScore d ->
  let q := ((match v with good => 20 | warning => 10 | error => 0 end)
            + inject_Z a * (25 # 100) + inject_Z b * (20 # 100)
            + inject_Z c * (20 # 100) + inject_Z d * (15 # 100))%Q in
  (q - tolerance
   <= exactly (number (match v with good => 20 | warning => 10 | error => 0 end)
               + number a * mobileWeights.touchTargets
               + number b * mobileWeights.textReadability
               + number c * mobileWeights.mobilePerformance
               + number d * mobileWeights.mobileSEO)%float
   <= q + tolerance)%Q.
Proof.
  intros Ha Hb Hc Hd q.
  apply (close_within _ q
           (proj1 (forallb_forall _ _) mobileSums_close _
              (mobileSums_reached v a b c d Ha Hb Hc Hd))).
  subst q. cbn [fst]. destruct v; unfold Qeq, Qplus, Qmult, inject_Z;
      cbn [Qnum Qden]; lia.
Qed.

(** [Math.round] also keeps a number that misses [0, 100] by less than a
    half in [0, 100]. *)
Lemma round_near_score (x : Q) :
  (- (1 # 4) <= x)%Q -> (x <= 100 + (1 # 4))%Q -> isScore (round x).
Proof.
  intros H0 H100. unfold isScore, round. split.
  - change 0 with (Qfloor 0). apply Qfloor_resp_le. lra.
  - assert (H : (inject_Z (Qfloor (x + (1 # 2))) < inject_Z 101)%Q).
    { eapply Qle_lt_trans; [apply Qfloor_le|].
      change (inject_Z 101) with 101%Q. lra. }
    rewrite <- Zlt_Qlt in H. lia.
Qed.

Lemma weighted_seo_range a b c d e :
  isScore a -> isScore b -> isScore c -> isScore d -> isScore e ->
  isScore (Binary64.round
             (number a * weights.metaTags + number b * weights.contentStructure
              + number c * weights.technicalSEO + number d * weights.performance
              + number e * weights.userExperience)%float).
Proof.
  intros Ha Hb Hc Hd He.
  pose proof (weighted_seo_close a b c d e Ha Hb Hc Hd He) as H.
  cbv zeta in H. unfold tolerance in H.
  apply inject_score in Ha, Hb, Hc, Hd, He.
  apply round_near_score; lra.
Qed.

(** *** Accessibility *)

Lemma calculateCategoryScore_range issues types :
  isScore (calculateCategoryScore issues types).
Proof.
  unfold calculateCategoryScore. apply floored_is_score.
  match goal with |- context [count isCritical ?l] =>
    pose proof (count_nonneg isCritical l); pose proof (count_nonneg isWarning l) end.
  lia.
Qed.

Lemma calculateAccessibilityScoring_range issues :
  let a := calculateAccessibilityScoring issues in
  isScore (a11yOverallScore a)
  /\ isScore (perceivable (a11yCategoryScores a))
  /\ isScore (operable (a11yCategoryScores a))
  /\ isScore (understandable (a11yCategoryScores a))
  /\ isScore (robust (a11yCategoryScores a)).
Proof.
  cbv zeta. unfold calculateAccessibilityScoring.
  cbn [a11yOverallScore a11yCategoryScores perceivable operable
       understandable robust].
  repeat match goal with |- _ /\ _ => split end;
    try apply calculateCategoryScore_range.
  apply floored_is_score.
  pose proof (count_nonneg isCritical issues).
  pose proof (count_nonneg isWarning issues). lia.
Qed.

(** *** Mobile *)

Lemma touchStep_nonneg l acc :
  0 <= fst acc -> 0 <= snd acc ->
  0 <= fst (fold_left touchStep l acc) /\ 0 <= snd (fold_left touchStep l acc).
Proof.
  revert acc. induction l as [|e l IH]; intros [a t] Ha Ht; cbn [fold_left].
  - split; assumption.
  - cbn in Ha, Ht. apply IH; unfold touchStep;
      repeat match goal with |- context [match ?b with _ => _ end] => destruct b end;
      cbn; lia.
Qed.

Lemma analyzeTouchTargets_range p : isScore (analyzeTouchTargets p).
Proof.
  unfold analyzeTouchTargets.
  pose proof (touchStep_nonneg (interactiveElements p) (0, 0)) as H.
  destruct (fold_left touchStep (interactiveElements p) (0, 0))
    as [adequateSize tooSmall].
  cbn in H. destruct H as [Ha Ht]; [lia|lia|].
  pose proof (share_nonneg tooSmall (adequateSize + tooSmall) Ht ltac:(lia)) as Hs.
  destruct (adequateSize + tooSmall =? 0).
  { apply round_score; lra. }
  destruct (0 <? tooSmall).
  - apply round_score; [apply Q.le_max_l|]. apply Q.max_lub; lra.
  - apply round_score; lra.
Qed.

Lemma textStep_nonneg l acc :
  0 <= snd acc -> 0 <= snd (fold_left textStep l acc).
Proof.
  revert acc. induction l as [|e l IH]; intros [f s] Hs; cbn [fold_left].
  - assumption.
  - cbn in Hs. apply IH. unfold textStep.
    repeat match goal with |- context [match ?b with _ => _ end] => destruct b end;
      cbn; lia.
Qed.

Lemma analyzeTextReadability_range p : isScore (analyzeTextReadability p).
Proof.
  unfold analyzeTextReadability.
  pose proof (textStep_nonneg (textElements p) ([], 0)) as H.
  destruct (fold_left textStep (textElements p) ([], 0))
    as [fontSizes smallTextElements].
  cbn in H. specialize (H ltac:(lia)).
  pose proof (share_nonneg smallTextElements (len (textElements p)) H
                (len_nonneg _)) as Hs.
  set (first :=
         if 0 <? smallTextElements
         then Qmax 0 (100 - inject_Z smallTextElements
                            / inject_Z (len (textElements p)) * 100)
         else 100%Q).
  assert (Hfirst : (0 <= first <= 100)%Q).
  { unfold first. destruct (0 <? smallTextElements).
    - split; [apply Q.le_max_l|]. apply Q.max_lub; lra.
    - lra. }
  match goal with |- context [if negb ?b then _ else _] => destruct b end;
    cbn [negb].
  - apply round_score; lra.
  - apply round_score; [apply Q.le_max_r|]. apply Q.max_lub; lra.
Qed.

Lemma analyzeMobilePerformance_range p m : isScore (analyzeMobilePerformance p m).
Proof.
  unfold analyzeMobilePerformance. rewrite round_inject.
  apply floored_is_score. penalties.
  branches; lia.
Qed.

Lemma analyzeMobileSEO_range p : isScore (analyzeMobileSEO p).
Proof.
  unfold analyzeMobileSEO. rewrite round_inject.
  apply floored_is_score. penalties.
  branches; lia.
Qed.

Lemma weighted_mobile_range v a b c d :
  isScore a -> isScore b -> isScore c -> isScore d ->
  isScore (Binary64.round
             (number (match v with good => 20 | warning => 10 | error => 0 end)
              + number a * mobileWeights.touchTargets
              + number b * mobileWeights.textReadability
              + number c * mobileWeights.mobilePerformance
              + number d * mobileWeights.mobileSEO)%float).
Proof.
  intros Ha Hb Hc Hd.
  pose proof (weighted_mobile_close v a b c d Ha Hb Hc Hd) as H.
  cbv zeta in H. unfold tolerance in H.
  apply inject_score in Ha, Hb, Hc, Hd.
  apply round_near_score; destruct v; lra.
Qed.

(** C3.  Whatever the page, the timing and the broken links, the overall
    score, the SEO score and its five sub-scores, the accessibility score
    and its four WCAG sub-scores, and the mobile score and its four
    sub-scores all lie in [0, 100]. *)
Theorem every_score_within_0_100
    (p : Page) (loadTime contentSize : Z) (brokenLinks : list BrokenLink) :
  let r := auditWebsite p loadTime contentSize brokenLinks in
  let s := seoCategoryScores (seoScoring r) in
  let a := a11yCategoryScores (accessibilityScoring r) in
  let m := mobileAnalysis r in
  isScore (overallScore r)
  /\ (isScore (seoOverallScore (seoScoring r))
      /\ isScore (metaTagsScore s) /\ isScore (contentStructureScore s)
      /\ isScore (technicalSEOScore s) /\ isScore (performanceScore s)
      /\ isScore (userExperienceScore s))
  /\ (isScore (a11yOverallScore (accessibilityScoring r))
      /\ isScore (perceivable a) /\ isScore (operable a)
      /\ isScore (understandable a) /\ isScore (robust a))
  /\ (isScore (mobileOverallScore m)
      /\ isScore (touchTargetsScore m) /\ isScore (textReadabilityScore m)
      /\ isScore (mobilePerformanceScore m) /\ isScore (mobileSEOScore m)).
Proof.
  cbv zeta.
  unfold auditWebsite, calculateAdvancedSEOScoring, analyzeMobileFriendliness,
    analyzeAccessibility.
  cbn [fst snd overallScore seoScoring accessibilityScoring mobileAnalysis
       seoOverallScore seoCategoryScores metaTagsScore contentStructureScore
       technicalSEOScore performanceScore userExperienceScore
       mobileOverallScore touchTargetsScore
       textReadabilityScore mobilePerformanceScore mobileSEOScore].
  cbv zeta.
  repeat match goal with |- _ /\ _ => split end;
    lazymatch goal with
    | |- isScore (Binary64.round (number (analyzeMetaTagsScore _) * _ + _ + _
                                  + _ + _)) =>
        apply weighted_seo_range
    | |- isScore (Binary64.round _) => apply weighted_mobile_range
    | |- _ => idtac
    end;
    lazymatch goal with
    | |- isScore (analyzeMetaTagsScore _) => apply analyzeMetaTagsScore_range
    | |- isScore (analyzeContentStructure _) => apply analyzeContentStructure_range
    | |- isScore (analyzeTechnicalSEO _ _ _) => apply analyzeTechnicalSEO_range
    | |- isScore (analyzePerformanceScore _) => apply analyzePerformanceScore_range
    | |- isScore (analyzeUserExperience _ _) => apply analyzeUserExperience_range
    | |- isScore (analyzeTouchTargets _) => apply analyzeTouchTargets_range
    | |- isScore (analyzeTextReadability _) => apply analyzeTextReadability_range
    | |- isScore (analyzeMobilePerformance _ _) => apply analyzeMobilePerformance_range
    | |- isScore (analyzeMobileSEO _) => apply analyzeMobileSEO_range
    | |- isScore (_ (calculateAccessibilityScoring ?i)) =>
        apply (calculateAccessibilityScoring_range i)
    | |- isScore (_ (_ (calculateAccessibilityScoring ?i))) =>
        apply (calculateAccessibilityScoring_range i)
    end.
Qed.

End ScoringFacts.

(** ** Link integrity checker *)

Module LinksFacts.
Import JS Links LinksNotions LinksTrace.
Local Open Scope list_scope.

Lemma probed_eq s : probed s = omap headTarget (requests s).
Proof. reflexivity. Qed.

Section Run.
Variable env : Env.

(** A probe sends HEAD, possibly GET, to its target, records what
    [recordedStatus] says, and never throws. *)
Lemma probe_spec link absoluteUrl isInternal s :
  exists reqs,
    probe env link absoluteUrl isInternal s =
      (Val tt,
       mkSt (brokenLinks s ++ recordedEntries env link absoluteUrl isInternal)
            (checkedUrls s) (checkedCount s) (requests s ++ reqs))
    /\ omap headTarget reqs = [absoluteUrl].
Proof.
  unfold probe, request, tryCatch, bind, send, recordedEntries, finalAnswer,
    pushBroken, modify, ret, throw.
  destruct s as [bl cu cc rq]. cbn [brokenLinks checkedUrls checkedCount requests].
  destruct (head env absoluteUrl) as [status|headError] eqn:Hhead.
  - exists [HEAD absoluteUrl]. cbn [recordedStatus].
    destruct (400 <=? status); cbn; rewrite ?app_nil_r; split; reflexivity.
  - destruct (methodNotAllowed headError) eqn:Hm.
    + exists [HEAD absoluteUrl; GET absoluteUrl].
      cbn [brokenLinks checkedUrls checkedCount requests].
      rewrite <- app_assoc. cbn [app].
      destruct (get env absoluteUrl) as [status|[[status|]|message]];
        cbn [recordedStatus]; [destruct (400 <=? status)|..];
        cbn; rewrite ?app_nil_r; split; reflexivity.
    + exists [HEAD absoluteUrl].
      destruct headError as [[status|]|message];
        cbn; rewrite ?app_nil_r; split; reflexivity.
Qed.

Lemma after_absolutize link absoluteUrl isInternal s :
  exists s',
    (checked <- get_ checkedUrls ;;
     if decide (absoluteUrl ∈ checked) then ret tt
     else
       markChecked absoluteUrl ;;;
       allowed <- tryCatch
                    (if negb isInternal
                     then validate env absoluteUrl ;;; ret true
                     else ret true)
                    (fun _ => ret false) ;;
       if allowed then probe env link absoluteUrl isInternal else ret tt)%links
      s = (Val tt, s')
    /\ step env link s s'.
Proof.
  unfold bind at 1. unfold get_ at 1.
  destruct (decide (absoluteUrl ∈ checkedUrls s)) as [Hin|Hnotin].
  { exists s. split; [reflexivity|constructor]. }
  unfold bind at 1. unfold markChecked, modify.
  set (s1 := mkSt (brokenLinks s) ({[absoluteUrl]} ∪ checkedUrls s)
                  (checkedCount s + 1) (requests s)).
  unfold bind at 1. unfold tryCatch at 1.
  destruct isInternal; cbn [negb].
  - unfold ret at 1.
    destruct (probe_spec link absoluteUrl true s1) as (reqs & Hp & Hreqs).
    eexists. split; [exact Hp|].
    subst s1. cbn [brokenLinks checkedUrls checkedCount requests].
    apply step_probed; assumption.
  - unfold validate, bind. destruct (gate env absoluteUrl) eqn:Hgate.
    + unfold ret at 1 2.
      destruct (probe_spec link absoluteUrl false s1) as (reqs & Hp & Hreqs).
      eexists. split; [exact Hp|].
      subst s1. cbn [brokenLinks checkedUrls checkedCount requests].
      apply step_probed; assumption.
    + unfold throw, ret. exists s1. split; [reflexivity|].
      subst s1. apply step_rejected; [assumption|]. rewrite Hgate. discriminate.
Qed.

(** An iteration completes normally, whatever the link. *)
Lemma iteration_spec link s :
  exists s', iteration env link s = (Val tt, s') /\ step env link s s'.
Proof.
  unfold iteration.
  destruct (skippedHref (href link)).
  { exists s. split; [reflexivity|constructor]. }
  unfold tryCatch at 1. unfold bind at 1.
  assert (Hlift : forall (o : option string) (k : string -> string * bool),
             (exists v, o = Some v /\
               (x <- liftOption o ;; ret (k x))%links s = (Val (k v), s))
             \/ (exists e, (x <- liftOption o ;; ret (k x))%links s = (Exn e, s))).
  { intros [v|] k; [left; exists v; split; reflexivity|right; eexists; reflexivity]. }
  assert (Habs : (exists target, absolutize env (href link) s = (Val target, s))
                 \/ (exists e, absolutize env (href link) s = (Exn e, s))).
  { unfold absolutize.
    destruct (startsWith (href link) "/");
      [|destruct (startsWith (href link) "http")].
    - destruct (resolve env (href link)); [left|right]; eexists; reflexivity.
    - destruct (sameOrigin env (href link)); [left|right]; eexists; reflexivity.
    - destruct (resolve env (href link)); [left|right]; eexists; reflexivity. }
  destruct Habs as [[[absoluteUrl isInternal] Ha] | [e Ha]];
    rewrite Ha; cbv beta iota.
  - destruct (after_absolutize link absoluteUrl isInternal s) as (s' & Hs & Hstep).
    rewrite Hs. exists s'. split; [reflexivity|assumption].
  - exists s. split; [reflexivity|constructor].
Qed.

Lemma invariant_initial : invariant env initial.
Proof.
  split; cbn.
  - unfold maxLinksToCheck. lia.
  - lia.
  - intros u Hu. inversion Hu.
  - constructor.
  - intros b Hb. inversion Hb.
  - intros u status Hu. inversion Hu.
Qed.

Lemma invariant_step link s s' :
  invariant env s -> checkedCount s < maxLinksToCheck -> step env link s s' ->
  invariant env s'.
Proof.
  intros [Hc Hp Hin Hnd Hent Hrec] Hlt Hstep.
  destruct Hstep as [|u Hfresh _|u isInternal reqs Hfresh Hreqs].
  - split; assumption.
  - split; cbn [brokenLinks checkedUrls checkedCount];
      change (probed (mkSt (brokenLinks s) ({[u]} ∪ checkedUrls s)
                           (checkedCount s + 1) (requests s)))
        with (probed s); try assumption.
    + lia.
    + lia.
    + intros v Hv. apply elem_of_union_r. auto.
  - assert (Hprobed : probed (mkSt (brokenLinks s ++ recordedEntries env link u isInternal)
                                   ({[u]} ∪ checkedUrls s) (checkedCount s + 1)
                                   (requests s ++ reqs))
                      = probed s ++ [u]).
    { rewrite !probed_eq. cbn [requests]. rewrite omap_app, Hreqs. reflexivity. }
    split; rewrite ?Hprobed; cbn [brokenLinks checkedUrls checkedCount].
    + lia.
    + rewrite length_app. cbn. lia.
    + intros v Hv. apply elem_of_app in Hv as [Hv|Hv].
      * apply elem_of_union_r. auto.
      * apply list_elem_of_singleton in Hv as ->.
        apply elem_of_union_l, elem_of_singleton. reflexivity.
    + apply NoDup_app. repeat split.
      * assumption.
      * intros v Hv Hv'. apply list_elem_of_singleton in Hv' as ->. auto.
      * apply NoDup_singleton.
    + intros b Hb. apply elem_of_app in Hb as [Hb|Hb].
      * destruct (Hent b Hb) as [H1 H2]. split; [|assumption].
        apply elem_of_app. left. assumption.
      * unfold recordedEntries in Hb.
        destruct (recordedStatus (finalAnswer env u)) as [status|] eqn:Hst;
          [|inversion Hb].
        apply list_elem_of_singleton in Hb as ->. cbn [entry url httpStatus].
        split; [|assumption]. apply elem_of_app. right. constructor.
    + intros v status Hv Hst. apply elem_of_app in Hv as [Hv|Hv].
      * destruct (Hrec v status Hv Hst) as (b & Hb & Hu & Hs).
        exists b. split; [|split; assumption]. apply elem_of_app. left. assumption.
      * apply list_elem_of_singleton in Hv as ->.
        exists (entry link u status isInternal).
        split; [|split; reflexivity].
        apply elem_of_app. right. unfold recordedEntries. rewrite Hst. constructor.
Qed.

(** The loop completes normally and keeps the invariant. *)
Lemma loop_spec links s :
  invariant env s ->
  exists s', loop env links s = (Val tt, s') /\ invariant env s'.
Proof.
  revert s. induction links as [|link rest IH]; intros s Hinv.
  - exists s. split; [reflexivity|assumption].
  - cbn [loop]. unfold bind at 1. unfold get_ at 1.
    destruct (checkedCount s <? maxLinksToCheck) eqn:Hlt.
    + apply Z.ltb_lt in Hlt.
      destruct (iteration_spec link s) as (s1 & Hit & Hstep).
      unfold bind. rewrite Hit.
      apply IH. eapply invariant_step; eassumption.
    + exists s. split; [reflexivity|assumption].
Qed.

Lemma run_spec links :
  exists s, run env links = (Val (brokenLinks s), s) /\ invariant env s.
Proof.
  unfold run, checkLinksM.
  destruct (loop_spec links initial invariant_initial) as (s & Hloop & Hinv).
  exists s. unfold bind. rewrite Hloop. split; [reflexivity|assumption].
Qed.
End Run.

(** *** The run, anchor by anchor *)

Section Trace.
Variable env : Env.

Lemma absolutize_target href s :
  absolutize env href s =
    match target env href with
    | Some t => (Val t, s)
    | None => (Exn (OtherError "Invalid URL"), s)
    end.
Proof.
  unfold absolutize, target.
  destruct (startsWith href "/"); [| destruct (startsWith href "http")].
  - destruct (resolve env href); reflexivity.
  - destruct (sameOrigin env href); reflexivity.
  - destruct (resolve env href); reflexivity.
Qed.

Lemma probe_exchange link absoluteUrl isInternal s :
  probe env link absoluteUrl isInternal s =
    (Val tt,
     mkSt (brokenLinks s ++ recordedEntries env link absoluteUrl isInternal)
          (checkedUrls s) (checkedCount s)
          (requests s ++ exchange env absoluteUrl)).
Proof.
  unfold probe, request, tryCatch, bind, send, recordedEntries, finalAnswer,
    exchange, pushBroken, modify, ret, throw.
  destruct s as [bl cu cc rq].
  cbn [brokenLinks checkedUrls checkedCount requests].
  destruct (head env absoluteUrl) as [status|headError] eqn:Hhead.
  - cbn [recordedStatus].
    destruct (400 <=? status); cbn; rewrite ?app_nil_r; reflexivity.
  - destruct (methodNotAllowed headError) eqn:Hm.
    + cbn [brokenLinks checkedUrls checkedCount requests].
      rewrite <- app_assoc. cbn [app].
      destruct (get env absoluteUrl) as [status|[[status|]|message]];
        cbn [recordedStatus]; [destruct (400 <=? status)|..];
        cbn; rewrite ?app_nil_r; reflexivity.
    + destruct headError as [[status|]|message];
        cbn; rewrite ?app_nil_r; reflexivity.
Qed.

(** An iteration never throws; its effect on the locals is [visit]. *)
Lemma iteration_visit link s :
  iteration env link s = (Val tt, visit env link s).
Proof.
  unfold iteration, visit.
  destruct (skippedHref (href link)); [reflexivity |].
  unfold tryCatch at 1. unfold bind at 1.
  rewrite absolutize_target.
  destruct (target env (href link)) as [[absoluteUrl isInternal]|];
    [| reflexivity].
  cbv beta iota.
  unfold bind at 1. unfold get_ at 1.
  destruct (decide (absoluteUrl ∈ checkedUrls s)); [reflexivity |].
  unfold bind at 1. unfold markChecked, modify.
  unfold bind at 1. unfold tryCatch at 1. unfold admitted.
  destruct isInternal; cbn [negb orb].
  - unfold ret at 1. rewrite probe_exchange. reflexivity.
  - unfold validate, bind. destruct (gate env absoluteUrl).
    + unfold ret at 1 2. rewrite probe_exchange. reflexivity.
    + reflexivity.
Qed.

Lemma loop_visitAll links s :
  loop env links s = (Val tt, visitAll env links s).
Proof.
  revert s. induction links as [|link rest IH]; intros s; [reflexivity |].
  cbn [loop visitAll]. unfold bind at 1. unfold get_ at 1.
  destruct (checkedCount s <? maxLinksToCheck); [| reflexivity].
  unfold bind. rewrite iteration_visit. apply IH.
Qed.

Lemma run_visitAll links :
  run env links =
    (Val (brokenLinks (visitAll env links initial)),
     visitAll env links initial).
Proof.
  unfold run, checkLinksM, bind. rewrite loop_visitAll. reflexivity.
Qed.

(** *** What holds of the locals throughout *)

Lemma probed_app bl cu cc rq reqs :
  probed (mkSt bl cu cc (rq ++ reqs)) = omap headTarget rq ++ omap headTarget reqs.
Proof. rewrite probed_eq. cbn [requests]. apply omap_app. Qed.

Lemma exchange_head u : omap headTarget (exchange env u) = [u].
Proof.
  unfold exchange. destruct (head env u) as [|e]; [reflexivity |].
  destruct (methodNotAllowed e); reflexivity.
Qed.

Lemma leadsTo_mono links links' u i link :
  links ⊆ links' -> leadsTo env links u i link -> leadsTo env links' u i link.
Proof. intros Hsub (Hin & Hs & Ht). split; [apply Hsub, Hin | auto]. Qed.

Lemma orderly_mono links links' s :
  links ⊆ links' -> orderly env links s -> orderly env links' s.
Proof.
  intros Hsub [H1 H2 H3 H4 H5 H6 H7 H8 H9]. split; try assumption.
  - intros u Hu. destruct (H4 u Hu) as (link & i & Hl & Ha).
    exists link, i. split; [eapply leadsTo_mono; eassumption | assumption].
  - intros u Hu. destruct (H5 u Hu) as [Hp | (link & Hl & Hg)]; [left; assumption |].
    right. exists link. split; [eapply leadsTo_mono; eassumption | assumption].
  - intros b Hb. destruct (H6 b Hb) as (link & Hl & Hc).
    exists link. split; [eapply leadsTo_mono; eassumption | assumption].
Qed.

Lemma orderly_initial : orderly env [] initial.
Proof.
  split; cbn.
  - reflexivity.
  - unfold maxLinksToCheck. lia.
  - reflexivity.
  - intros u Hu. inversion Hu.
  - intros u Hu. apply elem_of_empty in Hu as [].
  - intros b Hb. inversion Hb.
  - constructor.
  - intros u Hu. inversion Hu.
  - constructor.
Qed.

Lemma orderly_visit links link s :
  orderly env links s -> checkedCount s < maxLinksToCheck ->
  orderly env (links ++ [link]) (visit env link s).
Proof.
  intros Hord Hlt.
  assert (Hsub : links ⊆ links ++ [link]).
  { intros x Hx. apply elem_of_app. left. exact Hx. }
  assert (Hlast : link ∈ links ++ [link]).
  { apply elem_of_app. right. constructor. }
  pose proof (orderly_mono _ _ _ Hsub Hord) as Hord'.
  unfold visit.
  destruct (skippedHref (href link)) eqn:Hskip; [exact Hord' |].
  destruct (target env (href link)) as [[u i]|] eqn:Ht; [| exact Hord'].
  destruct (decide (u ∈ checkedUrls s)) as [Hin|Hfresh]; [exact Hord' |].
  assert (Hlead : leadsTo env (links ++ [link]) u i link).
  { split; [exact Hlast | split; assumption]. }
  destruct Hord' as [H1 H2 H3 H4 H5 H6 H7 H8 H9].
  assert (Hsize : Z.of_nat (size ({[u]} ∪ checkedUrls s))
                  = checkedCount s + 1).
  { rewrite size_union; [| apply disjoint_singleton_l; exact Hfresh].
    rewrite size_singleton. lia. }
  destruct (admitted env u i) eqn:Hadm.
  - assert (Hp : probed (mkSt (brokenLinks s ++ recordedEntries env link u i)
                          ({[u]} ∪ checkedUrls s) (checkedCount s + 1)
                          (requests s ++ exchange env u))
                 = probed s ++ [u]).
    { rewrite probed_app, exchange_head. reflexivity. }
    split; rewrite ?Hp; cbn [brokenLinks checkedUrls checkedCount requests].
    + symmetry. exact Hsize.
    + lia.
    + rewrite flat_map_app. cbn [flat_map]. rewrite app_nil_r, <- H3.
      reflexivity.
    + intros v Hv. apply elem_of_app in Hv as [Hv|Hv]; [apply H4, Hv |].
      apply list_elem_of_singleton in Hv as ->. exists link, i. auto.
    + intros v Hv. apply elem_of_union in Hv as [Hv|Hv].
      * apply elem_of_singleton in Hv as ->. left.
        apply elem_of_app. right. constructor.
      * destruct (H5 v Hv) as [Hpv|Hrej]; [left | right; exact Hrej].
        apply elem_of_app. left. exact Hpv.
    + intros b Hb. apply elem_of_app in Hb as [Hb|Hb]; [apply H6, Hb |].
      unfold recordedEntries in Hb.
      destruct (recordedStatus (finalAnswer env u)); [| inversion Hb].
      apply list_elem_of_singleton in Hb as ->.
      exists link. cbn [entry url isInternalLink foundIn]. auto.
    + rewrite map_app. apply sublist_app; [exact H7 |].
      unfold recordedEntries.
      destruct (recordedStatus (finalAnswer env u)); cbn.
      * reflexivity.
      * apply sublist_nil_l.
    + intros v Hv. apply elem_of_app in Hv as [Hv|Hv].
      * apply elem_of_union_r. auto.
      * apply list_elem_of_singleton in Hv as ->.
        apply elem_of_union_l, elem_of_singleton. reflexivity.
    + apply NoDup_app. repeat split.
      * assumption.
      * intros v Hv Hv'. apply list_elem_of_singleton in Hv' as ->. auto.
      * apply NoDup_singleton.
  - change (probed (mkSt (brokenLinks s) ({[u]} ∪ checkedUrls s)
                         (checkedCount s + 1) (requests s)))
      with (probed s) in *.
    unfold admitted in Hadm. destruct i; [discriminate Hadm |].
    cbn [orb] in Hadm.
    split; cbn [brokenLinks checkedUrls checkedCount requests];
      change (probed (mkSt (brokenLinks s) ({[u]} ∪ checkedUrls s)
                           (checkedCount s + 1) (requests s)))
        with (probed s); try assumption.
    + symmetry. exact Hsize.
    + lia.
    + intros v Hv. apply elem_of_union in Hv as [Hv|Hv]; [| apply H5, Hv].
      apply elem_of_singleton in Hv as ->. right. exists link.
      split; [exact Hlead |].
      destruct (gate env u); [discriminate Hadm | discriminate].
    + intros v Hv. apply elem_of_union_r. auto.
Qed.

Lemma orderly_visitAll links seen s :
  orderly env seen s -> orderly env (seen ++ links) (visitAll env links s).
Proof.
  revert seen s. induction links as [|link rest IH]; intros seen s Hord.
  - rewrite app_nil_r. exact Hord.
  - cbn [visitAll].
    destruct (Z.ltb_spec (checkedCount s) maxLinksToCheck) as [Hlt|Hge].
    + replace (seen ++ link :: rest) with ((seen ++ [link]) ++ rest)
        by (rewrite <- app_assoc; reflexivity).
      apply IH. apply orderly_visit; assumption.
    + eapply orderly_mono; [| exact Hord].
      intros x Hx. apply elem_of_app. left. exact Hx.
Qed.

Lemma run_orderly links : orderly env links (snd (run env links)).
Proof.
  rewrite run_visitAll. cbn [snd].
  apply (orderly_visitAll links [] initial orderly_initial).
Qed.

Lemma probed_bound links s :
  (List.length (probed (visitAll env links s))
   <= List.length (probed s) + List.length (List.filter followed links))%nat.
Proof.
  revert s. induction links as [|link rest IH]; intros s; cbn [visitAll].
  - cbn. lia.
  - cbn [List.filter]. specialize (IH (visit env link s)).
    assert (Hv : (List.length (probed (visit env link s))
                  <= List.length (probed s)
                     + (if followed link then 1 else 0))%nat).
    { unfold visit, followed.
      destruct (skippedHref (href link)); cbn [negb]; [lia |].
      destruct (target env (href link)) as [[u i]|]; [| lia].
      destruct (decide (u ∈ checkedUrls s)); [lia |].
      destruct (admitted env u i).
      - rewrite probed_app, exchange_head, length_app, <- probed_eq.
        cbn. lia.
      - change (probed (mkSt (brokenLinks s) ({[u]} ∪ checkedUrls s)
                             (checkedCount s + 1) (requests s)))
          with (probed s). lia. }
    destruct (checkedCount s <? maxLinksToCheck), (followed link);
      cbn [List.length]; lia.
Qed.

Lemma visitAll_skipped links s :
  visitAll env links s = visitAll env (List.filter followed links) s.
Proof.
  revert s. induction links as [|link rest IH]; intros s; [reflexivity |].
  cbn [visitAll List.filter].
  assert (Hv : followed link = false -> visit env link s = s).
  { unfold followed, visit. destruct (skippedHref (href link));
      [reflexivity | discriminate]. }
  destruct (followed link); cbn [visitAll].
  - destruct (checkedCount s <? maxLinksToCheck); [apply IH | reflexivity].
  - rewrite Hv by reflexivity.
    destruct (checkedCount s <? maxLinksToCheck) eqn:Hlt; [apply IH |].
    destruct (List.filter followed rest); cbn [visitAll];
      [reflexivity | rewrite Hlt; reflexivity].
Qed.

Lemma visit_count link s :
  checkedCount s <= checkedCount (visit env link s).
Proof.
  unfold visit. destruct (skippedHref (href link)); [lia |].
  destruct (target env (href link)) as [[u i]|]; [| lia].
  destruct (decide (u ∈ checkedUrls s)); [lia |].
  destruct (admitted env u i); cbn; lia.
Qed.

Lemma visitAll_full links s :
  maxLinksToCheck <= checkedCount s -> visitAll env links s = s.
Proof.
  intros H. destruct links; [reflexivity |]. cbn [visitAll].
  destruct (Z.ltb_spec (checkedCount s) maxLinksToCheck); [lia | reflexivity].
Qed.

Lemma visitAll_app l1 l2 s :
  visitAll env (l1 ++ l2) s = visitAll env l2 (visitAll env l1 s).
Proof.
  revert s. induction l1 as [|link rest IH]; intros s; [reflexivity |].
  cbn [app visitAll].
  destruct (Z.ltb_spec (checkedCount s) maxLinksToCheck); [apply IH |].
  symmetry. apply visitAll_full. assumption.
Qed.
Lemma probed_capped links :
  (List.length (probed (snd (run env links))) <= 50)%nat.
Proof.
  destruct (run_spec env links) as (s & -> & Hinv). cbn [snd].
  pose proof (count_bounded _ _ Hinv). pose proof (probes_counted _ _ Hinv).
  unfold maxLinksToCheck in *. lia.
Qed.
End Trace.

Lemma slash_is_not_http href :
  startsWith href "/" = true -> startsWith href "http" = false.
Proof.
  destruct href as [|c rest]; [discriminate|].
  cbn [startsWith]. rewrite andb_true_r. intros H.
  apply Ascii.eqb_eq in H. subst c. reflexivity.
Qed.




Lemma notModified_run :
  run notModified [mkAnchor "/cached" "nav"] =
    (Val [mkBrokenLink "https://site.example/cached" 304 "nav" true],
     mkSt [mkBrokenLink "https://site.example/cached" 304 "nav" true]
          ({["https://site.example/cached"]} ∪ ∅) 1
          [HEAD "https://site.example/cached"]).
Proof.
  unfold run, checkLinksM, bind. cbn [loop]. unfold bind, get_.
  cbn [checkedCount initial]. cbn [Z.ltb Z.compare maxLinksToCheck Pos.compare
                                   Pos.compare_cont].
  unfold iteration. cbn [href skippedHref]. 
  change (skippedHref "/cached") with false. cbv iota.
  unfold tryCatch at 1. unfold bind at 1.
  change (absolutize notModified "/cached" initial)
    with (Val ("https://site.example/cached"%string, true), initial).
  cbv beta iota. unfold bind at 1. unfold get_ at 1.
  destruct (decide ("https://site.example/cached" ∈ checkedUrls initial))
    as [Hin|_].
  { cbn in Hin. apply not_elem_of_empty in Hin. contradiction. }
  reflexivity.
Qed.

(** Sixty distinct anchors: fifty probes. *)
Example sixty_anchors_fifty_probes :
  List.length (probed (snd (run reachableSite sixtyAnchors))) = 50%nat
  /\ checkLinks reachableSite sixtyAnchors = Val [].
Proof. vm_compute. split; reflexivity. Qed.

(** The same target twice: one probe. *)
Example repeated_anchor_probed_once :
  probed (snd (run reachableSite
                 [mkAnchor "/a" "nav"; mkAnchor "/a" "footer"; mkAnchor "/b" "main"]))
  = ["https://site.example/a"; "https://site.example/b"]%string.
Proof. vm_compute. reflexivity. Qed.

(** C7, as worded, fails: an axios error that carries a 304 response is
    recorded as a broken link although no status of 400 or more was
    obtained. *)
Lemma entry_recorded_for_status_304 :
  ~ recordedIffAtLeast400 notModified [mkAnchor "/cached" "nav"].
Proof.
  unfold recordedIffAtLeast400. rewrite notModified_run. cbn [snd].
  intros H.
  destruct (H "https://site.example/cached") as [Hto _].
  { constructor. }
  destruct Hto as (status & Hst & Hge).
  - eexists. split; [constructor|reflexivity].
  - cbn in Hst. injection Hst as <-. lia.
Qed.

(** C7, amended.  [checkLinks] always returns its list.  For a probed
    link, an entry exists exactly when the final answer of the probe (the
    HEAD answer, or the GET answer after a 405 or 501) is a response with
    status 400 or more, or an axios error carrying a response of any
    status; the entry has that status.  An error without a response
    leaves no entry, and every entry belongs to a probed link. *)
Theorem entries_follow_the_final_answer (env : Env) (links : list Anchor) :
  let s := snd (run env links) in
  checkLinks env links = Val (brokenLinks s)
  /\ (forall u, u ∈ probed s ->
        forall status,
          (exists b, b ∈ brokenLinks s /\ url b = u /\ httpStatus b = status)
          <-> (finalAnswer env u = Val status /\ 400 <= status
               \/ finalAnswer env u = Exn (AxiosError (Some status))))
  /\ (forall u, u ∈ probed s ->
        statusObtained (finalAnswer env u) = None ->
        ~ exists b, b ∈ brokenLinks s /\ url b = u)
  /\ (forall b, b ∈ brokenLinks s -> url b ∈ probed s).
Proof.
  cbv zeta. unfold checkLinks.
  destruct (run_spec env links) as (s & -> & Hinv). cbn [fst snd].
  destruct Hinv as [_ _ _ _ Hent Hrec].
  assert (Hstatus : forall answer status,
             recordedStatus answer = Some status <->
             (answer = Val status /\ 400 <= status
              \/ answer = Exn (AxiosError (Some status)))).
  { intros [st|[[st|]|m]] status; cbn [recordedStatus].
    - destruct (400 <=? st) eqn:Hge.
      + apply Z.leb_le in Hge. split.
        * intros [= <-]. left. split; [reflexivity|assumption].
        * intros [[[= <-] _]|[=]]. reflexivity.
      + apply Z.leb_gt in Hge. split; [discriminate|].
        intros [[[= <-] ?]|[=]]. lia.
    - split.
      + intros [= <-]. right. reflexivity.
      + intros [[[=] _]|[= <-]]. reflexivity.
    - split; [discriminate|]. intros [[[=] _]|[=]].
    - split; [discriminate|]. intros [[[=] _]|[=]]. }
  split; [reflexivity|]. split; [|split].
  - intros u Hu status. rewrite <- Hstatus. split.
    + intros (b & Hb & <- & <-). apply (Hent b Hb).
    + intros Hst. apply (Hrec u status Hu Hst).
  - intros u Hu Hnone (b & Hb & <-).
    destruct (Hent b Hb) as [_ Hst].
    apply Hstatus in Hst as [[Hval _]|Herr].
    + rewrite Hval in Hnone. discriminate.
    + rewrite Herr in Hnone. discriminate.
  - intros b Hb. apply (Hent b Hb).
Qed.

End LinksFacts.

(** ** Trend store *)

Module StorageFacts.
Import Schema Storage StorageNotions.
Local Open Scope list_scope.

(** The returned analysis carries the fields of the inserted one. *)
Lemma createOrUpdate_fields ins uuid now st :
  let a := fst (createOrUpdateTrendAnalysis ins uuid now st) in
  trackingId a = insTrackingId ins /\ timePeriod a = insTimePeriod ins
  /\ overallTrend a = insOverallTrend ins
  /\ trendStrength a = insTrendStrength ins
  /\ keyInsights a = insKeyInsights ins
  /\ improvements a = insImprovements ins
  /\ regressions a = insRegressions ins
  /\ recommendations a = insRecommendations ins
  /\ confidenceScore a = insConfidenceScore ins
  /\ analysisDate a = now.
Proof.
  unfold createOrUpdateTrendAnalysis.
  destruct (trendAnalyses st !! _); cbn; repeat split; reflexivity.
Qed.

Lemma keyed_createOrUpdate ins uuid now st :
  keyed st -> keyed (snd (createOrUpdateTrendAnalysis ins uuid now st)).
Proof.
  intros Hk k a. unfold createOrUpdateTrendAnalysis.
  destruct (trendAnalyses st !! key (insTrackingId ins) (insTimePeriod ins));
    cbn [snd trendAnalyses]; rewrite lookup_insert;
    (case_decide as Heq; [intros [= <-]; rewrite <- Heq; reflexivity|apply Hk]).
Qed.

Lemma keyed_reachable st : reachable st -> keyed st.
Proof.
  induction 1 as [|st ins uuid now _ IH|st h now _ IH|st cutoffDate _ IH].
  - intros k a H. cbn in H. rewrite lookup_empty in H. discriminate.
  - apply keyed_createOrUpdate, IH.
  - exact IH.
  - exact IH.
Qed.

Section Unique.
Context {A : Type} (P : A -> Prop) `{forall a, Decision (P a)} (k0 : string).

Lemma filter_absent (l : list (string * A)) :
  k0 ∉ l.*1 ->
  (forall k a, (k, a) ∈ l -> P a -> k = k0) ->
  filter P (l.*2) = [].
Proof.
  induction l as [|[k a] l IH]; intros Hnot Hkey; [reflexivity|].
  cbn [fmap list_fmap snd]. rewrite filter_cons.
  destruct (decide (P a)) as [Hp|_].
  - exfalso. apply Hnot. rewrite (Hkey k a); [constructor|constructor|exact Hp].
  - apply IH.
    + intros Hin. apply Hnot. cbn. right. exact Hin.
    + intros k' a' Hin. apply Hkey. right. exact Hin.
Qed.

Lemma filter_unique (l : list (string * A)) :
  NoDup (l.*1) ->
  (forall k a, (k, a) ∈ l -> P a -> k = k0) ->
  (List.length (filter P (l.*2)) <= 1)%nat.
Proof.
  induction l as [|[k a] l IH]; intros Hnd Hkey; [cbn; lia|].
  cbn [fmap list_fmap fst snd] in *. apply NoDup_cons in Hnd as [Hk Hnd].
  rewrite filter_cons. destruct (decide (P a)) as [Hp|_].
  - rewrite filter_absent; [cbn; lia| |].
    + rewrite <- (Hkey k a); [exact Hk|constructor|exact Hp].
    + intros k' a' Hin. apply Hkey. right. exact Hin.
  - apply IH; [exact Hnd|].
    intros k' a' Hin. apply Hkey. right. exact Hin.
Qed.
End Unique.

Lemma at_most_one st trackingId p :
  keyed st -> (List.length (analysesFor st trackingId p) <= 1)%nat.
Proof.
  intros Hk. unfold analysesFor, values.
  apply (filter_unique _ (key trackingId p)).
  - apply NoDup_fst_map_to_list.
  - intros k a Hin [<- <-]. apply elem_of_map_to_list in Hin. apply Hk, Hin.
Qed.

Lemma stored_after_createOrUpdate ins uuid now st :
  let r := createOrUpdateTrendAnalysis ins uuid now st in
  trendAnalyses (snd r) !! key (insTrackingId ins) (insTimePeriod ins)
    = Some (fst r)
  /\ isFor (insTrackingId ins) (insTimePeriod ins) (fst r).
Proof.
  cbv zeta. unfold createOrUpdateTrendAnalysis.
  destruct (trendAnalyses st !! key (insTrackingId ins) (insTimePeriod ins));
    cbn [fst snd trendAnalyses]; rewrite lookup_insert_eq;
    (split; [reflexivity|split; reflexivity]).
Qed.

(** C8.  In every reachable state of the store there is at most one trend
    analysis per pair of tracking id and period.  Storing an analysis
    makes it the one analysis of its pair, with the inserted fields; when
    the pair already had an analysis the number of stored analyses does
    not grow and the identifier is kept. *)
Theorem one_analysis_per_pair (st : MemStorage) :
  reachable st ->
  (forall trackingId p, (List.length (analysesFor st trackingId p) <= 1)%nat)
  /\ (forall ins uuid now,
        let r := createOrUpdateTrendAnalysis ins uuid now st in
        getTrendAnalysis (snd r) (insTrackingId ins) (insTimePeriod ins)
          = Some (fst r)
        /\ analysesFor (snd r) (insTrackingId ins) (insTimePeriod ins) = [fst r]
        /\ overallTrend (fst r) = insOverallTrend ins
        /\ trendStrength (fst r) = insTrendStrength ins
        /\ confidenceScore (fst r) = insConfidenceScore ins
        /\ analysisDate (fst r) = now
        /\ (forall existing,
              getTrendAnalysis st (insTrackingId ins) (insTimePeriod ins)
                = Some existing ->
              List.length (values (snd r)) = List.length (values st)
              /\ id (fst r) = id existing)).
Proof.
  intros Hreach. split.
  - intros trackingId p. apply at_most_one, keyed_reachable, Hreach.
  - intros ins uuid now. cbv zeta.
    destruct (stored_after_createOrUpdate ins uuid now st) as [Hstored Hfor].
    cbv zeta in Hstored, Hfor.
    split; [exact Hstored|]. split; [|split; [|split; [|split; [|split]]]].
    + pose proof (at_most_one (snd (createOrUpdateTrendAnalysis ins uuid now st))
                    (insTrackingId ins) (insTimePeriod ins)
                    (keyed_createOrUpdate ins uuid now st
                       (keyed_reachable st Hreach))) as Hone.
      assert (Hin : fst (createOrUpdateTrendAnalysis ins uuid now st)
                    ∈ analysesFor (snd (createOrUpdateTrendAnalysis ins uuid now st))
                        (insTrackingId ins) (insTimePeriod ins)).
      { unfold analysesFor. apply list_elem_of_filter. split; [exact Hfor|].
        unfold values. apply list_elem_of_fmap.
        exists (key (insTrackingId ins) (insTimePeriod ins),
                fst (createOrUpdateTrendAnalysis ins uuid now st)).
        split; [reflexivity|]. apply elem_of_map_to_list. exact Hstored. }
      destruct (analysesFor _ _ _) as [|x [|y l]].
      * inversion Hin.
      * apply list_elem_of_singleton in Hin as ->. reflexivity.
      * cbn in Hone. lia.
    + apply (createOrUpdate_fields ins uuid now st).
    + apply (createOrUpdate_fields ins uuid now st).
    + apply (createOrUpdate_fields ins uuid now st).
    + apply (createOrUpdate_fields ins uuid now st).
    + intros existing Hex. unfold getTrendAnalysis in Hex.
      unfold createOrUpdateTrendAnalysis. rewrite Hex. cbn [fst snd id].
      split; [|reflexivity].
      unfold values. cbn [trendAnalyses]. rewrite !length_fmap, !length_map_to_list.
      apply map_size_insert_Some. rewrite Hex. eexists. reflexivity.
Qed.

(** The theorem at [analysedTwice]. *)
Lemma one_analysis_per_pair_witness :
  (List.length (analysesFor analysedTwice "t1" P30d) <= 1)%nat.
Proof.
  refine (proj1 (one_analysis_per_pair analysedTwice _) "t1" P30d).
  apply reach_trend, reach_trend, reach_empty.
Defined.

(** The second analysis took the place of the first. *)
Example second_replaces_first :
  analysesFor analysedTwice "t1" P30d
  = [mkAnalysis "u1" "t1" P30d improving strong [] [] [] [] 80 200].
Proof. vm_compute. reflexivity. Qed.

End StorageFacts.

(** ** Trend analysis engine *)

Module TrendFacts.
Import JS Schema Storage Trend StorageFacts TrendNotions.
Local Open Scope list_scope.

(** *** Sorting and slicing *)

Lemma sorted_timeOrdered l : timeOrdered l -> sorted l = l.
Proof.
  unfold sorted, sortBy.
  induction l as [|a l IH]; [reflexivity|].
  intros Hord. cbn [fold_right].
  destruct l as [|b l]; [reflexivity|].
  destruct Hord as [Hab Hord]. rewrite (IH Hord). cbn [insertBy].
  apply Z.leb_le in Hab. rewrite Hab. reflexivity.
Qed.

Lemma insertBy_length {A} (key : A -> Z) x l :
  List.length (insertBy key x l) = S (List.length l).
Proof.
  induction l as [|y l IH]; [reflexivity|].
  cbn [insertBy]. destruct (key x <=? key y); cbn; [reflexivity|].
  rewrite IH. reflexivity.
Qed.

Lemma sortBy_length {A} (key : A -> Z) l :
  List.length (sortBy key l) = List.length l.
Proof.
  induction l as [|x l IH]; [reflexivity|].
  unfold sortBy in *. cbn [fold_right]. rewrite insertBy_length, IH. reflexivity.
Qed.

(** Up to five elements: the last five and the first five are the whole
    array. *)
Lemma slice_last_five {A} (l : list A) :
  (List.length l <= 5)%nat -> slice l (-5) None = l.
Proof.
  intros Hlen. unfold slice, sliceIndex, len.
  change (-5 <? 0) with true. cbv iota.
  replace (Z.max (Z.of_nat (List.length l) + -5) 0) with 0 by lia.
  rewrite Z.sub_0_r, Nat2Z.id. cbn [Z.to_nat skipn].
  apply firstn_all.
Qed.

Lemma slice_first_five {A} (l : list A) :
  (List.length l <= 5)%nat -> slice l 0 (Some 5) = l.
Proof.
  intros Hlen. unfold slice, sliceIndex, len.
  change (0 <? 0) with false. change (5 <? 0) with false. cbv iota.
  replace (Z.min 0 (Z.of_nat (List.length l))) with 0 by lia.
  replace (Z.min 5 (Z.of_nat (List.length l)))
    with (Z.of_nat (List.length l)) by lia.
  rewrite Z.sub_0_r, Nat2Z.id. cbn [Z.to_nat skipn].
  apply firstn_all.
Qed.

(** *** No change is flagged when both windows coincide *)

Lemma Qle_bool_false x y : (y < x)%Q -> Qle_bool x y = false.
Proof.
  intros Hlt. destruct (Qle_bool x y) eqn:H; [|reflexivity].
  apply Qle_bool_iff in H. lra.
Qed.

Lemma changeOf_same_window t threshold n x :
  (0 < threshold)%Q -> changeOf t threshold (mkMetric n x x) = None.
Proof.
  intros Hpos. unfold changeOf. cbn [recent baseline].
  destruct x as [r|]; [|reflexivity].
  destruct t.
  - rewrite Qle_bool_false; [reflexivity|]. lra.
  - rewrite Qle_bool_false; [reflexivity|]. lra.
Qed.

Lemma metricsOf_short history :
  (List.length history <= 5)%nat ->
  metricsOf history =
    let a := calculateAverageScores (sorted history) in
    [ mkMetric "Overall" (Some (avgOverall a)) (Some (avgOverall a));
      mkMetric "SEO" (avgSeo a) (avgSeo a);
      mkMetric "Accessibility" (avgAccessibility a) (avgAccessibility a);
      mkMetric "Mobile" (avgMobile a) (avgMobile a);
      mkMetric "Performance" (avgPerformance a) (avgPerformance a) ].
Proof.
  intros Hlen. unfold metricsOf.
  assert (Hs : (List.length (sorted history) <= 5)%nat).
  { unfold sorted. rewrite sortBy_length. exact Hlen. }
  rewrite (slice_last_five _ Hs), (slice_first_five _ Hs). reflexivity.
Qed.

Lemma omap_cons {A B} (f : A -> option B) x l :
  omap f (x :: l) =
  match f x with Some y => y :: omap f l | None => omap f l end.
Proof. reflexivity. Qed.

Lemma no_change_flagged t threshold history :
  (List.length history <= 5)%nat -> (0 < threshold)%Q ->
  omap (changeOf t threshold) (metricsOf history) = [].
Proof.
  intros Hlen Hpos. rewrite (metricsOf_short _ Hlen). cbv zeta.
  rewrite !omap_cons, !changeOf_same_window by exact Hpos. reflexivity.
Qed.

Lemma thresholds_positive p : (0 < significanceThreshold (TREND_PARAMS p))%Q.
Proof. destruct p; reflexivity. Qed.

(** *** What [generateTrendAnalysis] returns *)

Section Service.
Variable generateKeyInsights :
  list PerformanceHistory -> TimePeriod -> list TrendInsight.
Variable generateRecommendations :
  list PerformanceHistory -> list SignificantChange ->
  list SignificantChange -> list HistoricalRecommendation.
Variable cal : Calendar.


Lemma generate_insufficient trackingId p uuid now st :
  len (historyInRange cal trackingId p now st) < minimumDataPoints (TREND_PARAMS p) ->
  generateTrendAnalysis generateKeyInsights generateRecommendations cal
      trackingId p uuid now st =
    createOrUpdateTrendAnalysis (insufficientData trackingId p) uuid now st.
Proof.
  intros Hlt. unfold generateTrendAnalysis.
  apply Z.ltb_lt in Hlt. rewrite Hlt. reflexivity.
Qed.

Lemma generate_analyzed trackingId p uuid now st :
  minimumDataPoints (TREND_PARAMS p) <= len (historyInRange cal trackingId p now st) ->
  let h := historyInRange cal trackingId p now st in
  let a := fst (generateTrendAnalysis generateKeyInsights generateRecommendations cal
      trackingId p uuid now st) in
  overallTrend a = detectOverallTrend h
  /\ trendStrength a = calculateTrendStrength h (detectOverallTrend h)
  /\ improvements a = identifyImprovements h (significanceThreshold (TREND_PARAMS p))
  /\ regressions a = identifyRegressions h (significanceThreshold (TREND_PARAMS p)).
Proof.
  intros Hge. cbv zeta. unfold generateTrendAnalysis.
  apply Z.ltb_ge in Hge. rewrite Hge.
  match goal with |- context [createOrUpdateTrendAnalysis ?i uuid now st] =>
    pose proof (createOrUpdate_fields i uuid now st) as H end.
  cbv zeta in H. cbn [insOverallTrend insTrendStrength insImprovements
                      insRegressions] in H.
  destruct H as (_ & _ & H1 & H2 & _ & H3 & H4 & _).
  repeat split; assumption.
Qed.
End Service.

(** *** The worked example of the specification *)

Lemma avgOverall_cons x l :
  avgOverall (calculateAverageScores (x :: l))
  = mean (List.map overallScore (x :: l)).
Proof.
  unfold calculateAverageScores, mean.
  destruct (Z.eqb_spec (len (x :: l)) 0) as [H|_].
  - unfold len in H. cbn [List.length] in H. lia.
  - cbn [avgOverall]. unfold len. rewrite length_map. reflexivity.
Qed.

Lemma changeOf_improvement_major threshold n r b :
  (0 <= threshold)%Q -> (threshold * (25 # 10) <= r - b)%Q ->
  exists c,
    changeOf improvement threshold (mkMetric n (Some r) (Some b)) = Some c
    /\ category c = metricNameToCategory n
    /\ changeType c = improvement /\ magnitude c = major.
Proof.
  intros Hpos Hbig. unfold changeOf. cbn [recent baseline name].
  assert (Hflag : Qle_bool threshold (r - b) = true).
  { apply Qle_bool_iff. lra. }
  rewrite Hflag. eexists. split; [reflexivity|].
  cbn [category changeType magnitude]. repeat split.
  unfold classifyMagnitude.
  assert (Hmajor : Qle_bool (threshold * (25 # 10)) (Qabs (r - b)) = true).
  { apply Qle_bool_iff. rewrite Qabs_pos; lra. }
  rewrite Hmajor. reflexivity.
Qed.

(** C4.  Ten records in time order, the first five with mean overall
    score 50 and the last five with mean 80: the trend is improving, and
    against the 30d threshold the Overall metric is flagged as a major
    improvement. *)
Theorem ten_points_improving_major (history : list PerformanceHistory) :
  List.length history = 10%nat ->
  timeOrdered history ->
  (mean (List.map overallScore (firstn 5 history)) == 50)%Q ->
  (mean (List.map overallScore (skipn 5 history)) == 80)%Q ->
  detectOverallTrend history = improving
  /\ significanceThreshold (TREND_PARAMS P30d) = 8%Q
  /\ exists c,
       c ∈ identifyImprovements history (significanceThreshold (TREND_PARAMS P30d))
       /\ category c = overall /\ changeType c = improvement
       /\ magnitude c = major.
Proof.
  intros Hlen Hord H50 H80.
  do 10 (destruct history as [|? history]; [discriminate Hlen|]).
  destruct history; [|discriminate Hlen]. clear Hlen.
  cbn [firstn skipn] in H50, H80.
  split; [|split; [reflexivity|]].
  - unfold detectOverallTrend. cbv zeta.
    rewrite (sorted_timeOrdered _ Hord).
    match goal with |- context [slice ?l ?a None] =>
      change (slice l a None) with (skipn 5 l) end.
    match goal with |- context [slice ?l 0 (Some ?a)] =>
      change (slice l 0 (Some a)) with (firstn 5 l) end.
    cbn [firstn skipn]. rewrite !avgOverall_cons.
    match goal with |- context [len ?l <? 2] =>
      change (len l <? 2) with false end.
    cbv iota.
    match goal with |- context [Qle_bool 5 ?x] =>
      assert (Hx : Qle_bool 5 x = true)
        by (apply Qle_bool_iff; rewrite H50, H80; lra) end.
    rewrite Hx. reflexivity.
  - unfold identifyImprovements, metricsOf. cbv zeta.
    rewrite (sorted_timeOrdered _ Hord).
    match goal with |- context [slice ?l (-5) None] =>
      change (slice l (-5) None) with (skipn 5 l) end.
    match goal with |- context [slice ?l 0 (Some 5)] =>
      change (slice l 0 (Some 5)) with (firstn 5 l) end.
    cbn [firstn skipn]. rewrite !avgOverall_cons.
    match goal with |- context [len ?l <? 2] =>
      change (len l <? 2) with false end.
    cbv iota. rewrite omap_cons.
    match goal with |- context [changeOf improvement ?t (mkMetric ?n (Some ?r) (Some ?b))] =>
      destruct (changeOf_improvement_major t n r b) as (c & Hc & Hcat & Hty & Hmag);
        [ cbn; lra
        | cbn [significanceThreshold TREND_PARAMS]; rewrite H50, H80; lra
        | rewrite Hc ]
    end.
    exists c. split; [constructor|]. repeat split; assumption.
Qed.

(** The theorem at [fiftyThenEighty]. *)
Lemma ten_points_improving_major_witness :
  detectOverallTrend fiftyThenEighty = improving
  /\ significanceThreshold (TREND_PARAMS P30d) = 8%Q
  /\ exists c,
       c ∈ identifyImprovements fiftyThenEighty
             (significanceThreshold (TREND_PARAMS P30d))
       /\ category c = overall /\ changeType c = improvement
       /\ magnitude c = major.
Proof.
  apply (ten_points_improving_major fiftyThenEighty).
  - reflexivity.
  - cbn. lia.
  - reflexivity.
  - reflexivity.
Defined.

(** C9.  With at most five records and a positive threshold, neither
    [identifyImprovements] nor [identifyRegressions] flags anything: the
    two windows are the same records.  So an analysis over a history of
    at most five records, as a 7d analysis at its minimum of three or a
    30d analysis at its minimum of five, reports no significant change. *)
Theorem short_history_flags_nothing
    (history : list PerformanceHistory) (threshold : Q) :
  (List.length history <= 5)%nat -> (0 < threshold)%Q ->
  (identifyImprovements history threshold = []
   /\ identifyRegressions history threshold = [])
  /\ (forall generateKeyInsights generateRecommendations cal trackingId p uuid
             now st,
        historyInRange cal trackingId p now st = history ->
        let a := fst (generateTrendAnalysis generateKeyInsights
                        generateRecommendations cal trackingId p uuid now st) in
        improvements a = [] /\ regressions a = []).
Proof.
  intros Hlen Hpos.
  assert (Hnone : forall thr, (0 < thr)%Q ->
             identifyImprovements history thr = []
             /\ identifyRegressions history thr = []).
  { intros thr Hthr. unfold identifyImprovements, identifyRegressions.
    destruct (len history <? 2); [split; reflexivity|].
    rewrite !no_change_flagged by assumption. split; reflexivity. }
  split; [apply Hnone, Hpos|].
  intros gki grec cal trackingId p uuid now st Hhist. cbv zeta.
  destruct (Z.lt_ge_cases (len (historyInRange cal trackingId p now st))
              (minimumDataPoints (TREND_PARAMS p))) as [Hlt|Hge].
  - rewrite (generate_insufficient gki grec cal _ _ _ _ _ Hlt).
    destruct (createOrUpdate_fields (insufficientData trackingId p) uuid now st)
      as (_ & _ & _ & _ & _ & -> & -> & _).
    split; reflexivity.
  - destruct (generate_analyzed gki grec cal _ _ uuid _ _ Hge)
      as (_ & _ & -> & ->).
    rewrite Hhist. apply Hnone, thresholds_positive.
Qed.

(** The theorem at three records and the 7d threshold. *)
Lemma short_history_flags_nothing_witness :
  identifyImprovements threeAudits 5 = []
  /\ identifyRegressions threeAudits 5 = [].
Proof.
  refine (proj1 (short_history_flags_nothing threeAudits 5 _ _)).
  - cbn. lia.
  - reflexivity.
Defined.

(** C5.  With fewer records in the range than the minimum of the period
    (3, 5, 8 and 12 for 7d, 30d, 90d and 1y), [generateTrendAnalysis]
    returns the fixed analysis: stable, weak, no improvements, no
    regressions, confidence 10, and the two fixed texts. *)
Theorem insufficient_data_is_fixed
    (generateKeyInsights : list PerformanceHistory -> TimePeriod -> list TrendInsight)
    (generateRecommendations :
       list PerformanceHistory -> list SignificantChange ->
       list SignificantChange -> list HistoricalRecommendation)
    (cal : Calendar) (trackingId : string) (p : TimePeriod)
    (uuid : string) (now : Z) (st : MemStorage) :
  len (historyInRange cal trackingId p now st)
    < minimumDataPoints (TREND_PARAMS p) ->
  let a := fst (generateTrendAnalysis generateKeyInsights
                  generateRecommendations cal trackingId p uuid now st) in
  List.map (fun q => minimumDataPoints (TREND_PARAMS q)) [P7d; P30d; P90d; P1y]
    = [3; 5; 8; 12]
  /\ Schema.trackingId a = trackingId /\ timePeriod a = p
  /\ overallTrend a = stable /\ trendStrength a = weak
  /\ improvements a = [] /\ regressions a = []
  /\ confidenceScore a = 10
  /\ keyInsights a = insKeyInsights (insufficientData trackingId p)
  /\ recommendations a = insRecommendations (insufficientData trackingId p).
Proof.
  intros Hlt. cbv zeta.
  rewrite (generate_insufficient _ _ _ _ _ _ _ _ Hlt).
  destruct (createOrUpdate_fields (insufficientData trackingId p) uuid now st)
    as (H1 & H2 & H3 & H4 & H5 & H6 & H7 & H8 & H9 & _).
  rewrite H1, H2, H3, H4, H5, H6, H7, H8, H9.
  repeat split; reflexivity.
Qed.

(** The theorem for a 30d analysis over two records. *)
Lemma insufficient_data_is_fixed_witness :
  confidenceScore
    (fst (generateTrendAnalysis (fun _ _ => []) (fun _ _ _ => []) plainCalendar
            "t1" P30d "a1" 2000 twoRecords)) = 10.
Proof.
  refine (proj1 (proj2 (proj2 (proj2 (proj2 (proj2 (proj2 (proj2
    (insufficient_data_is_fixed (fun _ _ => []) (fun _ _ _ => [])
       plainCalendar "t1" P30d "a1" 2000 twoRecords _))))))))).
  vm_compute. reflexivity.
Defined.

(** C10.  [calculateTrendStrength] answers weak for a stable trend, and
    no analysis returned by [generateTrendAnalysis] is stable with a
    moderate or strong strength. *)
Theorem stable_trend_is_weak :
  (forall history, calculateTrendStrength history stable = weak)
  /\ (forall generateKeyInsights generateRecommendations cal trackingId p
             uuid now st,
        let a := fst (generateTrendAnalysis generateKeyInsights
                        generateRecommendations cal trackingId p uuid now st) in
        overallTrend a = stable -> trendStrength a = weak).
Proof.
  split; [reflexivity|].
  intros gki grec cal trackingId p uuid now st. cbv zeta.
  destruct (Z.lt_ge_cases (len (historyInRange cal trackingId p now st))
              (minimumDataPoints (TREND_PARAMS p))) as [Hlt|Hge].
  - rewrite (generate_insufficient gki grec cal _ _ _ _ _ Hlt).
    destruct (createOrUpdate_fields (insufficientData trackingId p) uuid now st)
      as (_ & _ & _ & -> & _). reflexivity.
  - destruct (generate_analyzed gki grec cal _ _ uuid _ _ Hge)
      as (H1 & H2 & _).
    rewrite H1, H2. intros ->. reflexivity.
Qed.

(** An analysis past the minimum that is stable, and weak. *)
Example steady_week_is_stable_and_weak :
  let a := fst (generateTrendAnalysis (fun _ _ => []) (fun _ _ _ => [])
                  plainCalendar "t1" P7d "a1" 4000 steadyWeek) in
  len (historyInRange plainCalendar "t1" P7d 4000 steadyWeek) = 3
  /\ overallTrend a = stable /\ trendStrength a = weak.
Proof. vm_compute. repeat split; reflexivity. Qed.

End TrendFacts.

(* ===================================================================== *)
(** * Further properties *)
(* ===================================================================== *)

(** ** The Gate in front of the fetch *)

Module GateMore.
Import JS SafetyGate DocumentedRanges GateNotions SafetyGateFacts Fetch.

(** X1.  On a dotted-decimal IPv4 address the classifier looks at the first
    two octets only, and answers [true] exactly in the blocks 127/8, 10/8,
    172.16/12, 192.168/16, 169.254/16, 0/8 and 224/4. *)
Theorem private_ipv4_blocks_by_octet (a b c d : Z) :
  0 <= a <= 255 -> 0 <= b <= 255 -> 0 <= c <= 255 -> 0 <= d <= 255 ->
  isPrivateIP (dotted a b c d)
  = (a =? 127) || (a =? 10) || ((a =? 172) && (16 <=? b) && (b <=? 31))
    || ((a =? 192) && (b =? 168)) || ((a =? 169) && (b =? 254))
    || (a =? 0) || ((224 <=? a) && (a <=? 239)).
Proof.
  intros Ha Hb Hc Hd.
  destruct (ipv4_classifier_is_documented a b c d Ha Hb Hc Hd) as [_ ->].
  unfold documented, documentedV4, inPrefix.
  change (32 - 8) with 24. change (32 - 12) with 20.
  change (32 - 16) with 16. change (32 - 4) with 28.
  destruct (shifted_a a b c d Hb Hc Hd) as (-> & -> & -> & ->).
  repeat match goal with
         | |- context [Z.shiftr (v4value ?x ?y 0 0) ?k] =>
             let v := eval vm_compute in (Z.shiftr (v4value x y 0 0) k) in
             change (Z.shiftr (v4value x y 0 0) k) with v
         end.
  rewrite (block_172 a b Hb), (block_192 a b Hb), (block_169 a b Hb),
    (block_224 a).
  reflexivity.
Qed.

(** The theorem at 172.20.1.1. *)
Lemma private_ipv4_blocks_by_octet_witness :
  isPrivateIP (dotted 172 20 1 1)
  = (172 =? 127) || (172 =? 10) || ((172 =? 172) && (16 <=? 20) && (20 <=? 31))
    || ((172 =? 192) && (20 =? 168)) || ((172 =? 169) && (20 =? 254))
    || (172 =? 0) || ((224 <=? 172) && (172 <=? 239)).
Proof.
  apply (private_ipv4_blocks_by_octet 172 20 1 1); lia.
Defined.

(** X2.  A URL whose host resolves to a dotted-decimal IPv4 address.  When
    the address lies in a documented range, [axios.get] is not called:
    nothing is contacted and the fetch fails with one of the Gate's three
    messages.  When it does not, and the scheme and literal host pass,
    [axios.get] is called on the URL: exactly what that call contacts is
    contacted -- the URL and, if axios keeps to [maxRedirects: 3], at most
    three redirect targets, which do not go through the Gate -- and the
    page is delivered exactly when the call ends with a response whose
    data is a string. *)
Theorem fetch_respects_ipv4_ranges
    (parseURL : string -> option URL) (dnsLookup : string -> LookupResult)
    (axiosGet : string -> GetCall) (url : string) (urlObj : URL)
    (a b c d family startTime endTime : Z) :
  parseURL url = Some urlObj ->
  dnsLookup (hostname urlObj) = Resolved (dotted a b c d) family ->
  0 <= a <= 255 -> 0 <= b <= 255 -> 0 <= c <= 255 -> 0 <= d <= 255 ->
  let r := fetchPage parseURL dnsLookup axiosGet url startTime endTime in
  (documented (IPv4 a b c d) = true ->
   snd r = []
   /\ exists message,
        fst r = FetchError (failedToFetch message)
        /\ In message [msgProtocol; msgLoopback; msgPrivate])
  /\ (documented (IPv4 a b c d) = false ->
      passesLiteralChecks urlObj = true ->
      snd r = contacted (axiosGet url)
      /\ (honoursMaxRedirects axiosGet ->
          (List.length (snd r) <= 4)%nat
          /\ (snd r = [] \/ exists redirects, snd r = url :: redirects))
      /\ (forall html,
            (exists loadTime contentSize,
               fst r = Fetched html loadTime contentSize)
            <-> ending (axiosGet url) = Response (Text html))).
Proof.
  intros Hparse Hdns Ha Hb Hc Hd. cbv zeta.
  destruct (ipv4_classifier_is_documented a b c d Ha Hb Hc Hd) as [_ Hclass].
  unfold fetchPage, validateUrlSafety. rewrite Hparse, validateParsed_unfold.
  unfold passesLiteralChecks, resolveAndCheck. rewrite Hdns, Hclass.
  split.
  - intros ->. cbn [catchLookup]. rewrite msgPrivate_marked.
    destruct (schemeAllowed urlObj); cbn [negb];
      [destruct (loopbackName urlObj); [|destruct (privateLiteral urlObj)]|];
      (split; [reflexivity|]); eexists; (split; [reflexivity|]); cbn; auto.
  - intros -> Hpass.
    apply andb_true_iff in Hpass as [Hpass Hlit].
    apply andb_true_iff in Hpass as [Hscheme Hloop].
    apply negb_true_iff in Hloop, Hlit.
    rewrite Hscheme, Hloop, Hlit. cbn [negb catchLookup]. cbv zeta.
    assert (Hsnd : snd (match ending (axiosGet url) with
                        | Response (Text data) =>
                            (Fetched data (endTime - startTime)
                               (Z.of_nat (String.length data)),
                             contacted (axiosGet url))
                        | Response (Parsed typeError) =>
                            (FetchError (failedToFetch typeError),
                             contacted (axiosGet url))
                        | Rejected message =>
                            (FetchError (failedToFetch message),
                             contacted (axiosGet url))
                        end) = contacted (axiosGet url)).
    { destruct (ending (axiosGet url)) as [[data|typeError]|message];
        reflexivity. }
    rewrite Hsnd. split; [reflexivity|]. split.
    + intros Hmax. destruct (Hmax url) as [Hlen Hfirst].
      split; [exact Hlen | exact Hfirst].
    + intros html.
      destruct (ending (axiosGet url)) as [[data|typeError]|message];
        cbn [fst]; split;
        try (intros (loadTime & contentSize & [= <-]); reflexivity);
        try (intros [= <-]; eexists _, _; reflexivity);
        try discriminate;
        intros (loadTime & contentSize & Habs); discriminate Habs.
Qed.

(** The theorem at a host that resolves to 10.0.0.7. *)
Lemma fetch_respects_ipv4_ranges_witness :
  snd (fetchPage (fun _ => Some (mkURL "https:" "intranet.example"))
         (fun _ => Resolved (dotted 10 0 0 7) 4)
         (fun url => mkGetCall [url] (Response (Text "<html></html>")))
         "https://intranet.example/" 0 120) = [].
Proof.
  refine (proj1 (proj1 (fetch_respects_ipv4_ranges
            (fun _ => Some (mkURL "https:" "intranet.example"))
            (fun _ => Resolved (dotted 10 0 0 7) 4)
            (fun url => mkGetCall [url] (Response (Text "<html></html>")))
            "https://intranet.example/" (mkURL "https:" "intranet.example")
            10 0 0 7 4 0 120 eq_refl eq_refl _ _ _ _) eq_refl)); lia.
Defined.

(** A page that redirects once and then answers with JSON: two URLs are
    contacted, the second without the Gate, and the fetch fails. *)
Example redirect_then_json (typeError : string) :
  fetchPage (fun _ => Some (mkURL "https:" "site.example"))
    (fun _ => Resolved (dotted 93 184 216 34) 4)
    (fun url => mkGetCall [url; "http://10.0.0.7/status"]
                  (Response (Parsed typeError)))
    "https://site.example/" 0 120
  = (FetchError (failedToFetch typeError),
     ["https://site.example/"; "http://10.0.0.7/status"]).
Proof. reflexivity. Qed.

End GateMore.

(** ** Category scorers *)

Module ScoringMore.
Import JS Scoring ScoringNotions ScoringFacts ScoringSamples.
Import Binary64(number, exactly).
Import PrimFloat.PrimFloatNotations.

Lemma penalty_bounds b n : 0 <= n -> 0 <= penalty b n <= n.
Proof. destruct b; cbn; lia. Qed.

Ltac bounded_penalties :=
  repeat match goal with
         | |- context [penalty ?b ?n] =>
             let H := fresh "Hpen" in
             pose proof (penalty_bounds b n ltac:(lia)) as H;
             generalize dependent (penalty b n); intros
         end.

Ltac cases :=
  repeat match goal with
         | |- context [if ?b then _ else _] => destruct b
         | H : context [if ?b then _ else _] |- _ => destruct b
         end.

Lemma round_at_least (k : Z) (x : Q) :
  (inject_Z k <= x + (1 # 2))%Q -> k <= round x.
Proof.
  intros H. unfold round. apply Qfloor_resp_le in H.
  rewrite Qfloor_Z in H. exact H.
Qed.

Lemma round_monotone (x y : Q) : (x <= y)%Q -> round x <= round y.
Proof. intros H. unfold round. apply Qfloor_resp_le. lra. Qed.

Lemma round_shift (x : Q) (k : Z) : round x - k <= round (x - inject_Z k).
Proof.
  unfold round. rewrite <- (Qfloor_Z (Qfloor (x + (1 # 2)) - k)).
  apply Qfloor_resp_le. unfold Z.sub. rewrite inject_Z_plus, inject_Z_opp.
  pose proof (Qfloor_le (x + (1 # 2))). lra.
Qed.

Lemma analyzeMetaTagsScore_floor m : 10 <= analyzeMetaTagsScore m.
Proof. unfold analyzeMetaTagsScore. bounded_penalties. cases; lia. Qed.

Lemma analyzeTechnicalSEO_floor p bl st : 12 <= analyzeTechnicalSEO p bl st.
Proof. unfold analyzeTechnicalSEO. bounded_penalties. cases; lia. Qed.

Lemma analyzePerformanceScore_floor m : 25 <= analyzePerformanceScore m.
Proof. unfold analyzePerformanceScore. bounded_penalties. cases; lia. Qed.

Lemma analyzeMobilePerformance_floor p m : 15 <= analyzeMobilePerformance p m.
Proof.
  unfold analyzeMobilePerformance. rewrite round_inject.
  bounded_penalties. cases; lia.
Qed.

Lemma analyzeMobileSEO_floor p : 20 <= analyzeMobileSEO p.
Proof.
  unfold analyzeMobileSEO. rewrite round_inject. bounded_penalties. cases; lia.
Qed.

Lemma inject_at_least (k x : Z) : k <= x -> (inject_Z k <= inject_Z x)%Q.
Proof. intros H. rewrite <- Zle_Qle. exact H. Qed.

Lemma weighted_seo_floor a b c d e :
  isScore a -> isScore b -> isScore c -> isScore d -> isScore e ->
  10 <= a -> 12 <= c -> 25 <= d ->
  9 <= Binary64.round
         (number a * weights.metaTags + number b * weights.contentStructure
          + number c * weights.technicalSEO + number d * weights.performance
          + number e * weights.userExperience)%float.
Proof.
  intros Ha Hb Hc Hd He Ha' Hc' Hd'.
  pose proof (weighted_seo_close a b c d e Ha Hb Hc Hd He) as H.
  cbv zeta in H. unfold tolerance in H.
  apply round_at_least.
  apply inject_at_least in Ha', Hc', Hd'.
  apply inject_score in Hb, He.
  change (inject_Z 9) with 9%Q. change (inject_Z 10) with 10%Q in *.
  change (inject_Z 12) with 12%Q in *. change (inject_Z 25) with 25%Q in *.
  lra.
Qed.

Lemma weighted_mobile_floor v a b c d :
  isScore a -> isScore b -> isScore c -> isScore d ->
  15 <= c -> 20 <= d ->
  6 <= Binary64.round
         (number (match v with good => 20 | warning => 10 | error => 0 end)
          + number a * mobileWeights.touchTargets
          + number b * mobileWeights.textReadability
          + number c * mobileWeights.mobilePerformance
          + number d * mobileWeights.mobileSEO)%float.
Proof.
  intros Ha Hb Hc Hd Hc' Hd'.
  pose proof (weighted_mobile_close v a b c d Ha Hb Hc Hd) as H.
  cbv zeta in H. unfold tolerance in H.
  apply round_at_least.
  apply inject_at_least in Hc', Hd'.
  apply inject_score in Ha, Hb.
  change (inject_Z 6) with 6%Q. change (inject_Z 15) with 15%Q in *.
  change (inject_Z 20) with 20%Q in *.
  destruct v; lra.
Qed.

(** X3.  Five sub-scores cannot reach 0, and neither can the SEO score, the
    overall score or the mobile score: the penalties of the meta-tag,
    technical, performance, mobile-performance and mobile-SEO scorers
    add up to less than 100. *)
Theorem floor_never_reached
    (p : Page) (loadTime contentSize : Z) (brokenLinks : list BrokenLink) :
  let r := auditWebsite p loadTime contentSize brokenLinks in
  let s := seoCategoryScores (seoScoring r) in
  let m := mobileAnalysis r in
  10 <= metaTagsScore s /\ 12 <= technicalSEOScore s
  /\ 25 <= performanceScore s /\ 9 <= overallScore r
  /\ 15 <= mobilePerformanceScore m /\ 20 <= mobileSEOScore m
  /\ 6 <= mobileOverallScore m.
Proof.
  cbv zeta.
  unfold auditWebsite, calculateAdvancedSEOScoring, analyzeMobileFriendliness.
  cbn [overallScore seoScoring mobileAnalysis seoOverallScore seoCategoryScores
       metaTagsScore technicalSEOScore performanceScore
       mobileOverallScore mobilePerformanceScore mobileSEOScore].
  cbv zeta.
  repeat match goal with |- _ /\ _ => split end;
    lazymatch goal with
    | |- _ <= Binary64.round (number (analyzeMetaTagsScore _) * _ + _ + _
                              + _ + _) =>
        apply weighted_seo_floor
    | |- _ <= Binary64.round _ => apply weighted_mobile_floor
    | |- _ => idtac
    end;
    lazymatch goal with
    | |- isScore (analyzeMetaTagsScore _) => apply analyzeMetaTagsScore_range
    | |- isScore (analyzeTechnicalSEO _ _ _) => apply analyzeTechnicalSEO_range
    | |- isScore (analyzePerformanceScore _) => apply analyzePerformanceScore_range
    | |- isScore (analyzeMobilePerformance _ _) =>
        apply analyzeMobilePerformance_range
    | |- isScore (analyzeMobileSEO _) => apply analyzeMobileSEO_range
    | |- _ <= analyzeMetaTagsScore _ => apply analyzeMetaTagsScore_floor
    | |- _ <= analyzeTechnicalSEO _ _ _ => apply analyzeTechnicalSEO_floor
    | |- _ <= analyzePerformanceScore _ => apply analyzePerformanceScore_floor
    | |- _ <= analyzeMobilePerformance _ _ => apply analyzeMobilePerformance_floor
    | |- _ <= analyzeMobileSEO _ => apply analyzeMobileSEO_floor
    | |- isScore (analyzeContentStructure _) => apply analyzeContentStructure_range
    | |- isScore (analyzeUserExperience _ _) => apply analyzeUserExperience_range
    | |- isScore (analyzeTouchTargets _) => apply analyzeTouchTargets_range
    | |- isScore (analyzeTextReadability _) => apply analyzeTextReadability_range
    end.
Qed.

(** The bounds of the meta-tag and technical sub-scores are met by the empty page
    fetched slowly: they are the best possible. *)
Example floor_bounds_are_met :
  let r := auditWebsite emptyPage 6000 3000000 (List.map someLink (seq 0 6)) in
  metaTagsScore (seoCategoryScores (seoScoring r)) = 10
  /\ technicalSEOScore (seoCategoryScores (seoScoring r)) = 12.
Proof. vm_compute. repeat split; reflexivity. Qed.

(** *** Meta tags *)

Lemma ltb_as_leb (a b : Z) : (a <? b) = negb (b <=? a).
Proof. apply Z.ltb_antisym. Qed.

(** X4.  The meta-tag score of a page is 100 exactly when [analyzeMetaTags]
    rates title and description good and finds og:title, og:description,
    og:image and twitter:card; the two Twitter texts do not count. *)
Theorem full_meta_score_iff (p : Page) :
  let m := analyzeMetaTags p in
  analyzeMetaTagsScore m = 100 <->
  status (title m) = good /\ status (description m) = good
  /\ present (ogTitle m) = true /\ present (ogDescription m) = true
  /\ present (ogImage m) = true /\ present (twitterCard m) = true.
Proof.
  cbv zeta.
  unfold analyzeMetaTagsScore, analyzeMetaTags, bandTag, plainTag, penalty.
  cbn [title description ogTitle ogDescription ogImage twitterCard
       present content status].
  rewrite !ltb_as_leb.
  destruct (nonEmpty (titleText p)), (strlen (titleText p) <=? 60),
    (30 <=? strlen (titleText p)); cbn [negb andb];
    (destruct (nonEmpty (descriptionContent p)),
       (strlen (descriptionContent p) <=? 160),
       (120 <=? strlen (descriptionContent p)); cbn [negb andb];
     destruct (nonEmpty (ogTitleContent p)), (nonEmpty (ogDescriptionContent p)),
       (nonEmpty (ogImageContent p)), (nonEmpty (twitterCardContent p));
     cbn [negb];
     (split;
      [ intros H; first [ discriminate H | repeat split ]
      | intros (H1 & H2 & H3 & H4 & H5 & H6);
        first [ reflexivity | discriminate ] ])).
Qed.

(** *** Accessibility *)

Ltac issue_cases :=
  unfold pushIf; cbv iota;
  repeat match goal with
         | |- context [if ?b then _ else _] => destruct b
         end.

Lemma compliance_level (p : Page) :
  wcagComplianceLevel (snd (analyzeAccessibility p)) =
    if Nat.eqb (imagesWithEmptyAlt p) 0 && Nat.eqb (duplicateIds p) 0
    then complianceAA else complianceNone.
Proof.
  unfold analyzeAccessibility, performWCAGChecks. cbn [snd].
  destruct (imagesWithEmptyAlt p), (duplicateIds p);
    unfold Nat.ltb; cbn [Nat.eqb Nat.leb andb];
    issue_cases; reflexivity.
Qed.

Lemma count_app {A} (f : A -> bool) (l1 l2 : list A) :
  count f (l1 ++ l2)%list = count f l1 + count f l2.
Proof.
  unfold count, len. rewrite List.filter_app, List.length_app. lia.
Qed.

Lemma len_app {A} (l1 l2 : list A) : len (l1 ++ l2)%list = len l1 + len l2.
Proof. unfold len. rewrite List.length_app. lia. Qed.

Lemma count_pushIf f b i : count f (pushIf b i) = penalty (b && f i) 1.
Proof. unfold count. destruct b; cbn; [destruct (f i) |]; reflexivity. Qed.

Lemma len_pushIf b i : len (pushIf b i) = penalty b 1.
Proof. destruct b; reflexivity. Qed.

Lemma count_single {A} (f : A -> bool) (x : A) : count f [x] = penalty (f x) 1.
Proof. unfold count. cbn. destruct (f x); reflexivity. Qed.

Lemma issue_counts (p : Page) :
  let issues := fst (analyzeAccessibility p) in
  0 <= count isCritical issues <= 4 /\ 0 <= count isWarning issues <= 5
  /\ 1 <= len issues <= 9
  /\ count isCritical issues + count isWarning issues + count isGood issues
     = len issues.
Proof.
  cbv zeta. unfold analyzeAccessibility, performWCAGChecks. cbn [fst].
  rewrite !count_app, !len_app, !count_pushIf, !len_pushIf, !count_single.
  change (len [?x]) with 1.
  destruct (hasHeader p && hasNav p && hasMain p && hasFooter p);
    cbn [isCritical isWarning isGood severity];
    rewrite ?andb_true_r, ?andb_false_r;
    change (penalty false 1) with 0; change (penalty true 1) with 1;
    bounded_penalties; lia.
Qed.

Lemma round_percentage (k : Z) :
  round (inject_Z (10 - k) / inject_Z 10 * 100) = 100 - 10 * k.
Proof.
  transitivity (round (inject_Z (100 - 10 * k))); [| apply round_inject].
  unfold round. apply Qfloor_comp.
  replace (100 - 10 * k) with ((10 - k) * 10) by lia.
  rewrite inject_Z_mult. change (inject_Z 10) with 10%Q. field.
Qed.

(** X5.  The accessibility scoring of an audit never needs its floor: the
    nine checks raise at most four critical issues and five warnings, so
    the score is 100 - 15 critical - 5 warnings >= 15, the compliance
    percentage is 100 - 10 per issue >= 10, and between one and nine
    checks are listed.  The WCAG level is AA when the page has no image
    with an empty alt text and no duplicated id, and None otherwise:
    levels A and AAA are never reported. *)
Theorem accessibility_never_floored (p : Page) :
  let a := snd (analyzeAccessibility p) in
  a11yOverallScore a = 100 - 15 * criticalIssues a - 5 * warningIssues a
  /\ 15 <= a11yOverallScore a
  /\ compliancePercentage a = 100 - 10 * (criticalIssues a + warningIssues a)
  /\ 10 <= compliancePercentage a
  /\ criticalIssues a <= 4 /\ warningIssues a <= 5
  /\ 1 <= totalChecks a <= 9
  /\ criticalIssues a + warningIssues a + passedChecks a = totalChecks a
  /\ wcagComplianceLevel a =
       if Nat.eqb (imagesWithEmptyAlt p) 0 && Nat.eqb (duplicateIds p) 0
       then complianceAA else complianceNone.
Proof.
  cbv zeta. pose proof (issue_counts p) as H. cbv zeta in H.
  pose proof (compliance_level p) as Hlevel. revert Hlevel.
  change (snd (analyzeAccessibility p))
    with (calculateAccessibilityScoring (fst (analyzeAccessibility p))).
  set (issues := fst (analyzeAccessibility p)) in *.
  intros Hlevel. rewrite Hlevel. clear Hlevel.
  unfold calculateAccessibilityScoring.
  cbn [a11yOverallScore compliancePercentage criticalIssues warningIssues
       passedChecks totalChecks].
  rewrite round_percentage.
  repeat match goal with |- _ /\ _ => split end; try lia. reflexivity.
Qed.

(** X6.  The user-experience sub-score starts from the accessibility score
    and only subtracts, so it never exceeds it. *)
Theorem user_experience_below_accessibility
    (p : Page) (issues : list AccessibilityIssue) :
  analyzeUserExperience p issues
    <= a11yOverallScore (calculateAccessibilityScoring issues).
Proof.
  unfold analyzeUserExperience, calculateAccessibilityScoring.
  cbn [a11yOverallScore]. bounded_penalties. cases; lia.
Qed.

(** *** Statistics *)

Lemma statStep_fold hrefs i e :
  let r := fold_left statStep hrefs (i, e) in
  i <= fst r /\ e <= snd r
  /\ (fst r - i) + (snd r - e)
     = count (fun h => negb (skippedHref h)) hrefs.
Proof.
  revert i e. induction hrefs as [|h hs IH]; intros i e; cbv zeta.
  - cbn. unfold count, len. cbn. lia.
  - cbn [fold_left]. unfold count, len in *. cbn [List.filter].
    assert (Hstep : statStep (i, e) h = (i, e) /\ skippedHref h = true
                    \/ skippedHref h = false
                       /\ (statStep (i, e) h = (i + 1, e)
                           \/ statStep (i, e) h = (i, e + 1))).
    { unfold statStep. destruct (skippedHref h); [left; auto | right].
      split; [reflexivity |].
      destruct (startsWith h "/" || startsWith h "."); [left; reflexivity |].
      destruct (startsWith h "http"); [right | left]; reflexivity. }
    destruct Hstep as [[-> ->] | [-> [-> | ->]]]; cbn [negb List.length];
      [apply IH | ..]; rewrite Nat2Z.inj_succ;
      match goal with
      | |- context [fold_left statStep hs (?a, ?b)] =>
          specialize (IH a b); cbv zeta in IH
      end; lia.
Qed.

(** X7.  The statistics add up: working and broken links make the anchors,
    images with and without alt text make the images, and internal plus
    external links are the anchors that are no fragment, mailto:, tel:
    or empty reference, hence at most all anchors. *)
Theorem statistics_add_up (p : Page) (brokenLinks : list BrokenLink) :
  let s := calculateStatistics p brokenLinks in
  workingLinks s + brokenLinkCount s = totalLinks s
  /\ imagesWithAlt s + imagesWithoutAlt s = totalImages s
  /\ 0 <= imagesWithAlt s
  /\ 0 <= internalLinks s /\ 0 <= externalLinks s
  /\ internalLinks s + externalLinks s
     = count (fun h => negb (skippedHref h)) (anchorHrefs p)
  /\ internalLinks s + externalLinks s <= totalLinks s.
Proof.
  cbv zeta. unfold calculateStatistics.
  pose proof (statStep_fold (anchorHrefs p) 0 0) as H. cbv zeta in H.
  destruct (fold_left statStep (anchorHrefs p) (0, 0)) as [i e].
  cbn [fst snd] in H.
  cbn [workingLinks brokenLinkCount totalLinks imagesWithAlt imagesWithoutAlt
       totalImages internalLinks externalLinks].
  pose proof (count_le_len (fun i => negb (altNonEmpty i)) (images p)).
  pose proof (count_le_len (fun h => negb (skippedHref h)) (anchorHrefs p)).
  lia.
Qed.

(** *** Broken links and the overall score *)

Lemma statistics_links p bl1 bl2 :
  totalLinks (calculateStatistics p bl1) = totalLinks (calculateStatistics p bl2)
  /\ internalLinks (calculateStatistics p bl1)
     = internalLinks (calculateStatistics p bl2).
Proof.
  unfold calculateStatistics.
  destruct (fold_left statStep (anchorHrefs p) (0, 0)) as [i e].
  split; reflexivity.
Qed.

Lemma analyzeTechnicalSEO_antitone p bl1 bl2 :
  len bl1 <= len bl2 ->
  analyzeTechnicalSEO p bl2 (calculateStatistics p bl2)
    <= analyzeTechnicalSEO p bl1 (calculateStatistics p bl1).
Proof.
  intros H. unfold analyzeTechnicalSEO.
  destruct (statistics_links p bl1 bl2) as [-> ->].
  bounded_penalties.
  destruct (Z.ltb_spec 0 (len bl1)), (Z.ltb_spec 0 (len bl2)); lia.
Qed.

Lemma analyzeTechnicalSEO_saturates p bl1 bl2 :
  6 <= len bl1 -> 6 <= len bl2 ->
  analyzeTechnicalSEO p bl2 (calculateStatistics p bl2)
    = analyzeTechnicalSEO p bl1 (calculateStatistics p bl1).
Proof.
  intros H1 H2. unfold analyzeTechnicalSEO.
  destruct (statistics_links p bl1 bl2) as [-> ->].
  bounded_penalties.
  destruct (Z.ltb_spec 0 (len bl1)), (Z.ltb_spec 0 (len bl2)); lia.
Qed.

(** Seven points are lost at the sub-scores 57, 80, 62, 100 and 50 when
    the technical score falls by 30: the sum 63.5 of the real numbers is
    63.49999999999999 in binary64. *)
Example seven_points_are_lost :
  Binary64.round
    (number 57 * weights.metaTags + number 80 * weights.contentStructure
     + number 62 * weights.technicalSEO + number 100 * weights.performance
     + number 50 * weights.userExperience)%float = 70
  /\ Binary64.round
       (number 57 * weights.metaTags + number 80 * weights.contentStructure
        + number 32 * weights.technicalSEO + number 100 * weights.performance
        + number 50 * weights.userExperience)%float = 63.
Proof. vm_compute. split; reflexivity. Qed.

(** X8.  More broken links never raise the overall score of an audit of the
    same page, they lower it by at most 7 points, and from the sixth
    broken link on the score no longer moves.  (The weighted sum loses at
    most 6; rounding the sum in binary64 can cost one more point.) *)
Theorem broken_links_cost_at_most_seven
    (p : Page) (loadTime contentSize : Z) (bl1 bl2 : list BrokenLink) :
  len bl1 <= len bl2 ->
  let s1 := overallScore (auditWebsite p loadTime contentSize bl1) in
  let s2 := overallScore (auditWebsite p loadTime contentSize bl2) in
  s1 - 7 <= s2 <= s1 /\ (6 <= len bl1 -> s2 = s1).
Proof.
  intros H. cbv zeta.
  unfold auditWebsite, calculateAdvancedSEOScoring.
  cbn [overallScore seoOverallScore].
  pose proof (analyzeTechnicalSEO_antitone p bl1 bl2 H) as Hle.
  pose proof (analyzeTechnicalSEO_antitone p [] bl1 ltac:(unfold len; cbn; lia)) as H1.
  assert (Hlow : analyzeTechnicalSEO p [] (calculateStatistics p []) - 30
                 <= analyzeTechnicalSEO p bl2 (calculateStatistics p bl2)).
  { unfold analyzeTechnicalSEO.
    destruct (statistics_links p [] bl2) as [-> ->].
    change (len (@nil BrokenLink)) with 0. cbn [Z.ltb Z.compare].
    bounded_penalties.
    destruct (Z.ltb_spec 0 (len bl2)); lia. }
  pose proof (analyzeTechnicalSEO_range p bl1 (calculateStatistics p bl1)) as Hr1.
  pose proof (analyzeTechnicalSEO_range p bl2 (calculateStatistics p bl2)) as Hr2.
  set (t1 := analyzeTechnicalSEO p bl1 _) in *.
  set (t2 := analyzeTechnicalSEO p bl2 _) in *.
  match goal with
  | |- context [(number ?a * _ + number ?b * _ + number t1 * _
                 + number ?d * _ + number ?e * _)%float] =>
      assert (Ha : isScore a) by apply analyzeMetaTagsScore_range;
      assert (Hb : isScore b) by apply analyzeContentStructure_range;
      assert (Hd : isScore d) by apply analyzePerformanceScore_range;
      assert (He : isScore e) by apply analyzeUserExperience_range;
      pose proof (weighted_seo_close a b t1 d e Ha Hb Hr1 Hd He) as Hc1;
      pose proof (weighted_seo_close a b t2 d e Ha Hb Hr2 Hd He) as Hc2;
      generalize dependent a; generalize dependent b;
      generalize dependent d; generalize dependent e; intros
  end.
  cbv zeta in Hc1, Hc2. unfold tolerance in Hc1, Hc2.
  split; [split |].
  - assert (Ht : t1 <= t2 + 30) by lia.
    apply inject_at_least in Ht. rewrite inject_Z_plus in Ht.
    change (inject_Z 30) with 30%Q in Ht.
    unfold Binary64.round.
    match goal with
    | |- round ?x - 7 <= round ?y =>
        assert (Hq : (x - inject_Z 7 <= y)%Q)
          by (change (inject_Z 7) with 7%Q; lra);
        apply round_monotone in Hq;
        pose proof (round_shift x 7)
    end.
    lia.
  - destruct (Z.eq_dec t2 t1) as [->|Hne]; [lia|].
    assert (Ht : t2 + 1 <= t1) by lia.
    apply inject_at_least in Ht. rewrite inject_Z_plus in Ht.
    change (inject_Z 1) with 1%Q in Ht.
    unfold Binary64.round. apply round_monotone. lra.
  - intros H6. subst t1 t2.
    rewrite (analyzeTechnicalSEO_saturates p bl1 bl2 H6 ltac:(lia)).
    reflexivity.
Qed.

Lemma broken_links_cost_at_most_seven_witness :
  overallScore (auditWebsite emptyPage 100 100 []) - 7
    <= overallScore (auditWebsite emptyPage 100 100 (List.map someLink (seq 0 3)))
    <= overallScore (auditWebsite emptyPage 100 100 [])
  /\ (6 <= len (@nil BrokenLink) ->
      overallScore (auditWebsite emptyPage 100 100 (List.map someLink (seq 0 3)))
      = overallScore (auditWebsite emptyPage 100 100 [])).
Proof.
  apply (broken_links_cost_at_most_seven emptyPage 100 100 []
           (List.map someLink (seq 0 3))).
  vm_compute. discriminate.
Defined.

(** *** The two heading walks *)

Lemma headingWalk_without_h1 hs score :
  Forall (fun l => 2 <= l) hs -> headingWalk hs 0 score = score - 5 * len hs.
Proof.
  intros H. revert score. induction H as [|l hs Hl _ IH]; intros score.
  - unfold len. cbn. lia.
  - cbn [headingWalk]. destruct (Z.ltb_spec (0 + 1) l); [| lia].
    rewrite IH. unfold len. cbn [List.length]. lia.
Qed.

Lemma hierarchyWalk_level hs prev l :
  Forall (fun x => x = l) hs -> (0 < prev -> prev = l) ->
  hierarchyWalk hs prev false = false.
Proof.
  intros H. revert prev. induction H as [|x hs -> _ IH]; intros prev Hp.
  - reflexivity.
  - cbn [hierarchyWalk].
    destruct (Z.ltb_spec 0 prev) as [Hpos|]; cbn [andb].
    + rewrite (Hp Hpos). destruct (Z.ltb_spec (l + 1) l); [lia |].
      apply IH. reflexivity.
    + apply IH. reflexivity.
Qed.

(** X9.  The content-structure walk compares every heading with the last
    accepted level, and its callback's [return false] does not end the
    loop: on a page whose headings all have one level from 2 to 6 (no h1)
    every heading costs 5 points, while the accessibility walk over the
    same headings reports no hierarchy issue. *)
Theorem headings_without_h1_cost_five_each (hs : list Z) (l score : Z) :
  2 <= l -> Forall (fun x => x = l) hs ->
  headingWalk hs 0 score = score - 5 * len hs
  /\ hierarchyWalk hs 0 false = false.
Proof.
  intros Hl H. split.
  - apply headingWalk_without_h1.
    eapply Forall_impl; [exact H |]. intros x ->. exact Hl.
  - apply (hierarchyWalk_level hs 0 l H). lia.
Qed.

Lemma headings_without_h1_cost_five_each_witness :
  headingWalk [2; 2; 2] 0 80 = 80 - 5 * len [2; 2; 2]
  /\ hierarchyWalk [2; 2; 2] 0 false = false.
Proof.
  apply (headings_without_h1_cost_five_each [2; 2; 2] 2 80).
  - lia.
  - repeat constructor.
Defined.

End ScoringMore.

(** ** The link checker, anchor by anchor *)

Module LinksMore.
Import JS Links LinksNotions LinksTrace LinksFacts.
Local Open Scope list_scope.

Lemma flat_map_flat_map {A B C} (f : A -> list B) (g : B -> list C) l :
  flat_map g (flat_map f l) = flat_map (fun a => flat_map g (f a)) l.
Proof.
  induction l as [|a l IH]; [reflexivity|].
  cbn [flat_map]. rewrite flat_map_app, IH. reflexivity.
Qed.

Lemma flat_map_length_le {A B} (f : A -> list B) (k : nat) l :
  (forall a, List.length (f a) <= k)%nat ->
  (List.length (flat_map f l) <= k * List.length l)%nat.
Proof.
  intros H. induction l as [|a l IH]; [cbn; lia|].
  cbn [flat_map]. rewrite length_app. cbn [List.length].
  specialize (H a). lia.
Qed.

Lemma exchange_length env u : (List.length (exchange env u) <= 2)%nat.
Proof.
  unfold exchange. destruct (head env u) as [|e]; [cbn; lia |].
  destruct (methodNotAllowed e); cbn; lia.
Qed.

(** X10.  [axios.head] is called only on the URL computed from an anchor of
    the page that is no fragment, mailto:, tel: or empty reference.  The
    Gate decides only where the code's flag [isInternal] is false, and the
    flag is false only for an href that starts with [http] and is not of
    the page's origin: such a URL is probed only if the Gate accepts it.
    Every other href is probed without the Gate: an anchor whose href does
    not start with [http] has its URL probed whatever the Gate says of
    it. *)
Theorem gate_decides_for_http_hrefs_only (env : Env) (links : list Anchor) :
  Forall
    (fun u =>
       exists link isInternal,
         link ∈ links /\ skippedHref (href link) = false
         /\ target env (href link) = Some (u, isInternal)
         /\ (isInternal = false -> gate env u = SafetyGate.Ok)
         /\ (isInternal = true <->
             startsWith (href link) "http" = false
             \/ sameOrigin env (href link) = Some true))
    (probed (snd (run env links)))
  /\ (forall link u,
        skippedHref (href link) = false ->
        startsWith (href link) "http" = false ->
        resolve env (href link) = Some u ->
        probed (snd (run env [link])) = [u]).
Proof.
  split.
  - apply Forall_forall. intros u Hu.
    destruct (probes_admitted _ _ _ (run_orderly env links) u Hu)
      as (link & i & (Hin & Hs & Ht) & Ha).
    exists link, i. repeat split; try assumption.
    + intros ->. unfold admitted in Ha. cbn [orb] in Ha.
      destruct (gate env u); [reflexivity | discriminate Ha].
    + intros ->. unfold target in Ht.
      destruct (startsWith (href link) "/") eqn:Hslash.
      { left. apply slash_is_not_http, Hslash. }
      destruct (startsWith (href link) "http"); [|left; reflexivity].
      right. destruct (sameOrigin env (href link)) as [[|]|];
        [reflexivity | discriminate Ht | discriminate Ht].
    + intros Hflag. unfold target in Ht.
      destruct (startsWith (href link) "/") eqn:Hslash.
      { destruct (resolve env (href link)); [|discriminate Ht].
        injection Ht as _ <-. reflexivity. }
      destruct (startsWith (href link) "http").
      * destruct Hflag as [Hflag | Hflag]; [discriminate Hflag|].
        rewrite Hflag in Ht. injection Ht as _ <-. reflexivity.
      * destruct (resolve env (href link)); [|discriminate Ht].
        injection Ht as _ <-. reflexivity.
  - intros link u Hs Hhttp Hres.
    rewrite run_visitAll. cbn [snd visitAll].
    change (checkedCount initial <? maxLinksToCheck) with true. cbv iota.
    unfold visit. rewrite Hs.
    assert (Ht : target env (href link) = Some (u, true)).
    { unfold target. rewrite Hhttp, Hres.
      destruct (startsWith (href link) "/"); reflexivity. }
    rewrite Ht.
    destruct (decide (u ∈ checkedUrls initial)) as [Hin|_].
    { cbn in Hin. apply not_elem_of_empty in Hin. contradiction. }
    cbn [admitted orb]. rewrite probed_app. cbn [requests initial omap].
    apply exchange_head.
Qed.

(** Two anchors that lead to a cloud metadata address and to a private
    address: the Gate rejects both URLs, and both are probed. *)
Example off_site_anchors_are_probed :
  Forall (fun u => gate unguarded u <> SafetyGate.Ok)
         (probed (snd (run unguarded offSiteAnchors)))
  /\ probed (snd (run unguarded offSiteAnchors))
     = ["https://169.254.169.254/latest/meta-data/"; "http://10.0.0.7/admin"]%string.
Proof.
  assert (H : probed (snd (run unguarded offSiteAnchors))
              = ["https://169.254.169.254/latest/meta-data/";
                 "http://10.0.0.7/admin"]%string)
    by (vm_compute; reflexivity).
  rewrite H. split; [|reflexivity].
  repeat constructor; vm_compute; discriminate.
Qed.

(** X11.  The calls of axios in a run are, probe after probe, one
    [axios.head], followed by one [axios.get] of the same URL exactly when
    the HEAD call failed with a 405 or 501 response: at most two calls per
    probe and 100 per run.  A call is made with [maxRedirects: 2]; if
    axios keeps to that, a call sends at most three requests and a run at
    most 300, which are those of the calls in their order. *)
Theorem calls_are_head_then_get
    (env : Env) (w : Wire) (links : list Anchor) :
  honoursMaxRedirects w ->
  let s := snd (run env links) in
  requests s = flat_map (exchange env) (probed s)
  /\ (List.length (requests s) <= 100)%nat
  /\ wireRequests w s
     = flat_map (fun u => flat_map (onWire w) (exchange env u)) (probed s)
  /\ (List.length (wireRequests w s) <= 300)%nat.
Proof.
  intros Hw. cbv zeta. pose proof (run_orderly env links) as Hord.
  pose proof (probed_capped env links) as Hlen.
  pose proof (exchanged _ _ _ Hord) as Hreq.
  assert (Hcalls : (List.length (requests (snd (run env links))) <= 100)%nat).
  { rewrite Hreq.
    pose proof (flat_map_length_le (exchange env) 2
                  (probed (snd (run env links))) (exchange_length env)).
    lia. }
  split; [exact Hreq|]. split; [exact Hcalls|]. split.
  - unfold wireRequests. rewrite Hreq at 1. apply flat_map_flat_map.
  - unfold wireRequests.
    assert (Hone : forall r, (List.length (onWire w r) <= 3)%nat).
    { intros r. unfold onWire. rewrite length_map. apply (Hw r). }
    pose proof (flat_map_length_le (onWire w) 3
                  (requests (snd (run env links))) Hone).
    lia.
Qed.

(** The theorem at fifty reachable pages that do not redirect. *)
Lemma calls_are_head_then_get_witness :
  (List.length (wireRequests noRedirects
                  (snd (run reachableSite sixtyAnchors))) <= 300)%nat.
Proof.
  refine (proj2 (proj2 (proj2 (calls_are_head_then_get reachableSite
                                 noRedirects sixtyAnchors _)))).
  intros [u|u]; cbn; lia.
Defined.

(** A redirect leads a probe to an address that the Gate rejects: the Gate
    is asked about the URL of the anchor only. *)
Example redirect_target_is_not_gated :
  gate partnerLink "https://partner.example/" = SafetyGate.Ok
  /\ gate partnerLink "http://10.0.0.7/" <> SafetyGate.Ok
  /\ wireRequests redirectedInside
       (snd (run partnerLink [mkAnchor "https://partner.example/" "nav"]))
     = [HEAD "https://partner.example/"; HEAD "http://10.0.0.7/"].
Proof.
  split; [vm_compute; reflexivity|].
  split; [vm_compute; discriminate|].
  vm_compute. reflexivity.
Qed.

(** X12.  The broken links of a run have pairwise distinct URLs, listed in the
    order in which they were probed; there are at most 50 of them, and
    no more than the page has anchors that are followed.  Each names an
    anchor of the page: its URL and its internal/external flag are those
    computed from the anchor's href, and [foundIn] is the context of that
    anchor. *)
Theorem broken_links_distinct_in_probe_order (env : Env) (links : list Anchor) :
  let s := snd (run env links) in
  checkLinks env links = Val (brokenLinks s)
  /\ List.map url (brokenLinks s) `sublist_of` probed s
  /\ NoDup (List.map url (brokenLinks s))
  /\ (List.length (brokenLinks s) <= 50)%nat
  /\ (List.length (brokenLinks s)
      <= List.length (List.filter followed links))%nat
  /\ (forall b, b ∈ brokenLinks s ->
        exists link,
          link ∈ links /\ skippedHref (href link) = false
          /\ target env (href link) = Some (url b, isInternalLink b)
          /\ foundIn b = context link).
Proof.
  cbv zeta. pose proof (run_orderly env links) as Hord.
  pose proof (entries_ordered _ _ _ Hord) as Hsub.
  pose proof (sublist_length _ _ Hsub) as Hlen.
  rewrite length_map in Hlen.
  pose proof (probed_capped env links) as Hcap.
  split; [| split; [exact Hsub | split; [| split; [| split]]]].
  - unfold checkLinks. rewrite run_visitAll. reflexivity.
  - eapply sublist_NoDup; [apply (probed_once _ _ _ Hord) | exact Hsub].
  - lia.
  - pose proof (probed_bound env links initial) as Hb.
    rewrite run_visitAll in Hlen. cbn [snd] in Hlen.
    rewrite run_visitAll. cbn [snd]. cbn in Hb. lia.
  - intros b Hb.
    destruct (entries_anchored _ _ _ Hord b Hb)
      as (link & (Hin & Hs & Ht) & Hc).
    exists link. auto.
Qed.

(** X13.  [checkedCount] is the size of [checkedUrls] and stays within 50;
    a checked URL was either probed or is an external target that the
    safety gate rejected (and then no request was sent to it). *)
Theorem checked_urls_are_probed_or_rejected (env : Env) (links : list Anchor) :
  let s := snd (run env links) in
  checkedCount s = Z.of_nat (size (checkedUrls s))
  /\ 0 <= checkedCount s <= 50
  /\ (forall u, u ∈ probed s -> u ∈ checkedUrls s)
  /\ (forall u, u ∈ checkedUrls s -> u ∉ probed s ->
       gate env u <> SafetyGate.Ok
       /\ exists link, link ∈ links
                       /\ target env (href link) = Some (u, false)).
Proof.
  cbv zeta. pose proof (run_orderly env links) as Hord.
  split; [apply (counted _ _ _ Hord) |].
  split; [apply (count_capped _ _ _ Hord) |].
  split; [apply (probed_checked _ _ _ Hord) |].
  intros u Hu Hnp.
  destruct (checked_probed_or_rejected _ _ _ Hord u Hu)
    as [Hp | (link & (Hin & _ & Ht) & Hg)]; [contradiction |].
  split; [exact Hg |]. exists link. auto.
Qed.

(** X14.  Anchors that are fragments, mailto:, tel: or empty references do not
    influence a run: the checker behaves as on the page without them. *)
Theorem skipped_anchors_are_ignored (env : Env) (links : list Anchor) :
  run env links = run env (List.filter followed links).
Proof. rewrite !run_visitAll, <- visitAll_skipped. reflexivity. Qed.

(** X15.  Once 50 URLs have been checked the loop ends: anchors further down
    the page are not looked at, whatever they are. *)
Theorem nothing_is_checked_after_fifty
    (env : Env) (links more : list Anchor) :
  checkedCount (snd (run env links)) = 50 ->
  run env (links ++ more) = run env links.
Proof.
  rewrite !run_visitAll. cbn [snd]. intros H.
  rewrite visitAll_app, (visitAll_full env more); [reflexivity |].
  rewrite H. unfold maxLinksToCheck. lia.
Qed.

Lemma nothing_is_checked_after_fifty_witness :
  run reachableSite (firstn 50 sixtyAnchors ++ skipn 50 sixtyAnchors)
  = run reachableSite (firstn 50 sixtyAnchors).
Proof.
  apply (nothing_is_checked_after_fifty reachableSite
           (firstn 50 sixtyAnchors) (skipn 50 sixtyAnchors)).
  vm_compute. reflexivity.
Defined.

End LinksMore.

(** ** Link checker and statistics together *)

Module AuditMore.
Import JS Scoring ScoringNotions ScoringFacts ScoringSamples ScoringMore.
Import Links LinksNotions LinksTrace LinksFacts LinksMore.
Local Open Scope list_scope.

Lemma followed_count (links : list Anchor) :
  count (fun h => negb (skippedHref h)) (List.map href links)
  = Z.of_nat (List.length (List.filter followed links)).
Proof.
  unfold count, Scoring.len. f_equal.
  induction links as [|link rest IH]; [reflexivity |].
  cbn [List.map List.filter]. unfold followed at 1.
  destruct (negb (skippedHref (href link))); cbn [List.length]; lia.
Qed.

(** X16.  In an audit the broken links come from the checker run on the
    anchors that the statistics count.  Then [workingLinks] is not
    negative: the broken links are at most 50 and at most the links
    counted as internal or external. *)
Theorem working_links_not_negative
    (env : Env) (p : Page) (links : list Anchor) (found : list BrokenLink) :
  List.map href links = anchorHrefs p ->
  checkLinks env links = Val found ->
  let s := calculateStatistics p found in
  0 <= workingLinks s
  /\ brokenLinkCount s <= 50
  /\ brokenLinkCount s <= internalLinks s + externalLinks s.
Proof.
  intros Hhrefs Hfound. cbv zeta.
  unfold checkLinks in Hfound. rewrite run_visitAll in Hfound.
  cbn [fst] in Hfound. injection Hfound as <-.
  pose proof (run_orderly env links) as Hord.
  pose proof (sublist_length _ _ (entries_ordered _ _ _ Hord)) as Hlen.
  rewrite length_map in Hlen.
  pose proof (probed_capped env links) as Hcap.
  pose proof (probed_bound env links initial) as Hb. cbn in Hb.
  rewrite run_visitAll in Hlen, Hcap. cbn [snd] in Hlen, Hcap.
  unfold calculateStatistics.
  pose proof (statStep_fold (anchorHrefs p) 0 0) as H. cbv zeta in H.
  destruct (fold_left statStep (anchorHrefs p) (0, 0)) as [i e].
  cbn [fst snd] in H.
  cbn [workingLinks brokenLinkCount totalLinks internalLinks externalLinks].
  rewrite <- Hhrefs, followed_count in H.
  pose proof (count_le_len (fun h => negb (skippedHref h)) (anchorHrefs p)) as Hc.
  rewrite <- Hhrefs, followed_count in Hc. rewrite <- Hhrefs.
  unfold Scoring.len in *. lia.
Qed.

Lemma working_links_not_negative_witness :
  0 <= workingLinks (calculateStatistics (anchorsOnly ["/a"; "#top"]) [])
  /\ brokenLinkCount (calculateStatistics (anchorsOnly ["/a"; "#top"]) []) <= 50
  /\ brokenLinkCount (calculateStatistics (anchorsOnly ["/a"; "#top"]) [])
     <= internalLinks (calculateStatistics (anchorsOnly ["/a"; "#top"]) [])
        + externalLinks (calculateStatistics (anchorsOnly ["/a"; "#top"]) []).
Proof.
  apply (working_links_not_negative reachableSite
           (anchorsOnly ["/a"; "#top"])
           [mkAnchor "/a" "nav"; mkAnchor "#top" "footer"] []).
  - reflexivity.
  - vm_compute. reflexivity.
Defined.

End AuditMore.

(** ** The trend engine on stored history *)

Module TrendMore.
Import JS Schema Storage Trend TrendNotions TrendTrace StorageFacts TrendFacts
  Insights.
Local Open Scope list_scope.

(** *** The sort *)

Section Sorting.
Context {A : Type} (key : A -> Z).

#[local] Instance byKey_transitive : Transitive (byKey key).
Proof. unfold byKey. intros a b c. lia. Qed.

Lemma insertBy_perm x l : insertBy key x l ≡ₚ x :: l.
Proof.
  induction l as [|y l IH]; [reflexivity |]. cbn [insertBy].
  destruct (key x <=? key y); [reflexivity |].
  rewrite IH. apply perm_swap.
Qed.

Lemma sortBy_perm l : sortBy key l ≡ₚ l.
Proof.
  induction l as [|x l IH]; [reflexivity |].
  unfold sortBy in *. cbn [fold_right]. rewrite insertBy_perm, IH.
  reflexivity.
Qed.

Lemma insertBy_sorted x l : Sorted (byKey key) l -> Sorted (byKey key) (insertBy key x l).
Proof.
  induction 1 as [|y l Hs IH Hhd]; cbn [insertBy].
  - repeat constructor.
  - destruct (Z.leb_spec (key x) (key y)) as [Hle|Hgt].
    + constructor; [constructor; assumption |]. constructor. exact Hle.
    + constructor; [exact IH |].
      destruct Hhd as [|z l Hz]; cbn [insertBy].
      * constructor. unfold byKey. lia.
      * destruct (key x <=? key z); constructor; unfold byKey in *; lia.
Qed.

Lemma sortBy_sorted l : StronglySorted (byKey key) (sortBy key l).
Proof.
  apply Sorted_StronglySorted; [apply _ |].
  induction l as [|x l IH]; [constructor |].
  unfold sortBy in *. cbn [fold_right]. apply insertBy_sorted, IH.
Qed.

Lemma sortBy_unique l1 l2 :
  l1 ≡ₚ l2 -> NoDup (List.map key l1) -> sortBy key l1 = sortBy key l2.
Proof.
  intros Hperm Hnd.
  apply (StronglySorted_unique_strong (byKey key)); try apply sortBy_sorted.
  - intros x1 x2 H1 H2 Hle Hge.
    assert (Hk : key x1 = key x2) by (unfold byKey in *; lia).
    rewrite sortBy_perm in H1. rewrite sortBy_perm, <- Hperm in H2.
    clear -H1 H2 Hk Hnd.
    induction l1 as [|y l IH]; [inversion H1 |].
    cbn [List.map] in Hnd. apply NoDup_cons in Hnd as [Hy Hnd].
    apply elem_of_cons in H1 as [->|H1], H2 as [->|H2].
    + reflexivity.
    + exfalso. apply Hy. rewrite Hk.
      apply list_elem_of_In, in_map, list_elem_of_In. exact H2.
    + exfalso. apply Hy. rewrite <- Hk.
      apply list_elem_of_In, in_map, list_elem_of_In. exact H1.
    + auto.
  - rewrite !sortBy_perm. exact Hperm.
Qed.

Lemma sortBy_head x l' l :
  sortBy key l = x :: l' -> x ∈ l /\ forall y, y ∈ l -> key x <= key y.
Proof.
  intros Hs. pose proof (sortBy_sorted l) as Hsorted.
  pose proof (sortBy_perm l) as Hperm. rewrite Hs in Hsorted, Hperm.
  split.
  - rewrite <- Hperm. constructor.
  - intros y Hy. rewrite <- Hperm in Hy.
    apply elem_of_cons in Hy as [->|Hy]; [lia |].
    apply StronglySorted_inv in Hsorted as [_ Hall].
    rewrite Forall_forall in Hall. apply Hall. exact Hy.
Qed.
End Sorting.

(** *** Order of the rows *)

Lemma len_perm {A} (l1 l2 : list A) : l1 ≡ₚ l2 -> len l1 = len l2.
Proof. intros H. unfold len. rewrite (Permutation_length H). reflexivity. Qed.

Lemma nullFields_perm (h1 h2 : list PerformanceHistory) :
  h1 ≡ₚ h2 ->
  forall n : Z,
    fold_left (fun n r => (n + isNull (seoScore r)
                           + isNull (accessibilityScore r)
                           + isNull (mobileScore r)
                           + isNull (performanceScore r))%Z) h1 n
    = fold_left (fun n r => (n + isNull (seoScore r)
                             + isNull (accessibilityScore r)
                             + isNull (mobileScore r)
                             + isNull (performanceScore r))%Z) h2 n.
Proof.
  induction 1 as [|x l l' _ IH|x y l|l l' l'' _ IH1 _ IH2]; intros n;
    cbn [fold_left].
  - reflexivity.
  - apply IH.
  - f_equal. lia.
  - rewrite IH1. apply IH2.
Qed.

Lemma calculateDataConsistency_perm h1 h2 :
  h1 ≡ₚ h2 -> calculateDataConsistency h1 = calculateDataConsistency h2.
Proof.
  intros H. unfold calculateDataConsistency.
  rewrite (len_perm _ _ H), (nullFields_perm _ _ H). reflexivity.
Qed.

Lemma negated_keys_distinct (h : list PerformanceHistory) :
  NoDup (List.map recordedAt h) ->
  NoDup (List.map (fun r => - recordedAt r) h).
Proof.
  induction h as [|r h IH]; cbn [List.map]; intros Hnd; [constructor |].
  apply NoDup_cons in Hnd as [Hr Hnd]. apply NoDup_cons. split; [| auto].
  intros Hin. apply Hr.
  apply list_elem_of_In, in_map_iff in Hin as (r' & Heq & Hin).
  replace (recordedAt r) with (recordedAt r') by lia.
  apply list_elem_of_In, in_map, Hin.
Qed.

(** X17.  The engine reads the stored rows in array order but sorts them by
    time first: when no two rows carry the same timestamp, trend,
    strength, improvements, regressions and confidence do not depend on
    the order in which the rows are handed over. *)
Theorem row_order_is_irrelevant (h1 h2 : list PerformanceHistory) :
  h1 ≡ₚ h2 -> NoDup (List.map recordedAt h1) ->
  detectOverallTrend h1 = detectOverallTrend h2
  /\ (forall trend, calculateTrendStrength h1 trend
                     = calculateTrendStrength h2 trend)
  /\ (forall threshold,
        identifyImprovements h1 threshold = identifyImprovements h2 threshold
        /\ identifyRegressions h1 threshold
           = identifyRegressions h2 threshold)
  /\ (forall p now, calculateConfidenceScore h1 p now
                     = calculateConfidenceScore h2 p now).
Proof.
  intros Hperm Hnd.
  pose proof (len_perm _ _ Hperm) as Hlen.
  assert (Hsorted : sorted h1 = sorted h2)
    by (apply sortBy_unique; assumption).
  assert (Hnewest : sortBy (fun r => - recordedAt r) h1
                    = sortBy (fun r => - recordedAt r) h2).
  { apply sortBy_unique; [assumption |].
    apply negated_keys_distinct, Hnd. }
  split; [| split; [| split]].
  - unfold detectOverallTrend. rewrite Hlen, Hsorted. reflexivity.
  - intros trend. unfold calculateTrendStrength, calculateConsecutiveChanges.
    rewrite Hlen, Hsorted. reflexivity.
  - intros threshold.
    unfold identifyImprovements, identifyRegressions, metricsOf.
    rewrite Hlen, Hsorted. split; reflexivity.
  - intros p now.
    unfold calculateConfidenceScore, calculateTimeSpanCoverage,
      calculateDataFreshness.
    rewrite Hlen, Hsorted, Hnewest, (calculateDataConsistency_perm _ _ Hperm).
    reflexivity.
Qed.

Lemma row_order_is_irrelevant_witness :
  detectOverallTrend fiftyThenEighty = detectOverallTrend (rev fiftyThenEighty)
  /\ (forall trend, calculateTrendStrength fiftyThenEighty trend
                     = calculateTrendStrength (rev fiftyThenEighty) trend)
  /\ (forall threshold,
        identifyImprovements fiftyThenEighty threshold
        = identifyImprovements (rev fiftyThenEighty) threshold
        /\ identifyRegressions fiftyThenEighty threshold
           = identifyRegressions (rev fiftyThenEighty) threshold)
  /\ (forall p now, calculateConfidenceScore fiftyThenEighty p now
                     = calculateConfidenceScore (rev fiftyThenEighty) p now).
Proof.
  apply (row_order_is_irrelevant fiftyThenEighty (rev fiftyThenEighty)).
  - apply Permutation_rev.
  - apply (bool_decide_unpack _). vm_compute. exact I.
Defined.

(** *** Improvements and regressions *)

Lemma changeOf_flagged t threshold m c :
  changeOf t threshold m = Some c ->
  category c = metricNameToCategory (name m) /\ changeType c = t
  /\ exists r b, recent m = Some r /\ baseline m = Some b
                 /\ match t with
                    | improvement => (threshold <= r - b)%Q
                    | regression => (r - b <= - threshold)%Q
                    end.
Proof.
  unfold changeOf. destruct (recent m) as [r|]; [| discriminate].
  destruct (baseline m) as [b|]; [| discriminate].
  destruct t.
  - destruct (Qle_bool threshold (r - b)) eqn:H; [| discriminate].
    intros [= <-]. cbn. split; [reflexivity | split; [reflexivity |]].
    exists r, b. apply Qle_bool_iff in H. auto.
  - destruct (Qle_bool (r - b) (- threshold)) eqn:H; [| discriminate].
    intros [= <-]. cbn. split; [reflexivity | split; [reflexivity |]].
    exists r, b. apply Qle_bool_iff in H. auto.
Qed.

Lemma changes_sublist t threshold ms :
  List.map category (omap (changeOf t threshold) ms)
    `sublist_of` List.map (fun m => metricNameToCategory (name m)) ms.
Proof.
  induction ms as [|m ms IH]; [constructor |].
  rewrite omap_cons. cbn [List.map].
  destruct (changeOf t threshold m) as [c|] eqn:Hc.
  - cbn [List.map]. destruct (changeOf_flagged _ _ _ _ Hc) as [-> _].
    apply sublist_skip, IH.
  - apply sublist_cons, IH.
Qed.

Lemma metric_categories h :
  List.map (fun m => metricNameToCategory (name m)) (metricsOf h) = categories.
Proof. reflexivity. Qed.

Lemma flagged_metric t threshold h c :
  c ∈ omap (changeOf t threshold) (metricsOf h) ->
  exists m, m ∈ metricsOf h /\ changeOf t threshold m = Some c.
Proof. intros H. apply list_elem_of_omap in H. exact H. Qed.

Lemma metric_by_category h m1 m2 :
  m1 ∈ metricsOf h -> m2 ∈ metricsOf h ->
  metricNameToCategory (name m1) = metricNameToCategory (name m2) -> m1 = m2.
Proof.
  unfold metricsOf. intros H1 H2.
  repeat (apply elem_of_cons in H1 as [->|H1]);
    try (inversion H1; fail);
    repeat (apply elem_of_cons in H2 as [->|H2]);
    try (inversion H2; fail);
    cbn [name]; intros Hc; first [reflexivity | discriminate Hc].
Qed.

(** X18.  With a positive threshold no metric is reported both as an
    improvement and as a regression; each list names every category at
    most once, in the order Overall, SEO, Accessibility, Mobile,
    Performance, so neither has more than five entries. *)
Theorem no_metric_improves_and_regresses
    (history : list PerformanceHistory) (threshold : Q) :
  (0 < threshold)%Q ->
  let improvements := identifyImprovements history threshold in
  let regressions := identifyRegressions history threshold in
  List.map category improvements `sublist_of` categories
  /\ List.map category regressions `sublist_of` categories
  /\ (forall c, c ∈ improvements -> changeType c = improvement)
  /\ (forall c, c ∈ regressions -> changeType c = regression)
  /\ (forall c1 c2, c1 ∈ improvements -> c2 ∈ regressions ->
        category c1 <> category c2).
Proof.
  intros Hpos. cbv zeta. unfold identifyImprovements, identifyRegressions.
  destruct (len history <? 2).
  { repeat split; try apply sublist_nil_l;
      first [intros c Hc; inversion Hc; fail | intros c1 c2 Hc; inversion Hc]. }
  repeat split.
  - rewrite <- (metric_categories history). apply changes_sublist.
  - rewrite <- (metric_categories history). apply changes_sublist.
  - intros c Hc. apply flagged_metric in Hc as (m & _ & Hm).
    apply (changeOf_flagged _ _ _ _ Hm).
  - intros c Hc. apply flagged_metric in Hc as (m & _ & Hm).
    apply (changeOf_flagged _ _ _ _ Hm).
  - intros c1 c2 H1 H2 Heq.
    apply flagged_metric in H1 as (m1 & Hin1 & Hm1).
    apply flagged_metric in H2 as (m2 & Hin2 & Hm2).
    destruct (changeOf_flagged _ _ _ _ Hm1) as (Hc1 & _ & r1 & b1 & Hr1 & Hb1 & Hup).
    destruct (changeOf_flagged _ _ _ _ Hm2) as (Hc2 & _ & r2 & b2 & Hr2 & Hb2 & Hdown).
    rewrite Hc1, Hc2 in Heq.
    pose proof (metric_by_category history m1 m2 Hin1 Hin2 Heq) as ->.
    rewrite Hr1 in Hr2. rewrite Hb1 in Hb2.
    injection Hr2 as <-. injection Hb2 as <-. lra.
Qed.

Lemma no_metric_improves_and_regresses_witness :
  List.map category (identifyImprovements fiftyThenEighty 8)
    `sublist_of` categories
  /\ List.map category (identifyRegressions fiftyThenEighty 8)
     `sublist_of` categories
  /\ (forall c, c ∈ identifyImprovements fiftyThenEighty 8 ->
        changeType c = improvement)
  /\ (forall c, c ∈ identifyRegressions fiftyThenEighty 8 ->
        changeType c = regression)
  /\ (forall c1 c2, c1 ∈ identifyImprovements fiftyThenEighty 8 ->
        c2 ∈ identifyRegressions fiftyThenEighty 8 ->
        category c1 <> category c2).
Proof.
  apply (no_metric_improves_and_regresses fiftyThenEighty 8). reflexivity.
Defined.

(** *** Strength of a steady trend *)

Lemma magnitude_sum_nonneg (changes : list Q) (acc : Q) :
  (0 <= acc)%Q ->
  (0 <= fold_left (fun sum change => sum + Qabs change) changes acc)%Q.
Proof.
  revert acc. induction changes as [|c l IH]; intros acc Hacc; [exact Hacc |].
  cbn [fold_left]. apply IH. pose proof (Qabs_nonneg c). lra.
Qed.

Lemma inject_len_pos {A} (l : list A) : l <> [] -> (0 < inject_Z (len l))%Q.
Proof.
  intros H. change 0%Q with (inject_Z 0). rewrite <- Zlt_Qlt.
  unfold len. destruct l; [contradiction | cbn; lia].
Qed.

Lemma calculateMagnitudeScore_range (changes : list Q) :
  (0 <= calculateMagnitudeScore changes <= 100)%Q.
Proof.
  unfold calculateMagnitudeScore.
  destruct (len changes =? 0) eqn:Hlen; [lra |].
  assert (Hne : changes <> []) by (intros ->; discriminate Hlen).
  pose proof (inject_len_pos changes Hne) as Hpos.
  pose proof (magnitude_sum_nonneg changes 0 ltac:(lra)) as Hsum.
  split; [| apply Q.le_min_l].
  apply Q.min_glb; [lra |].
  apply Qmult_le_0_compat; [| lra].
  apply Qle_shift_div_l; [exact Hpos | lra].
Qed.

Lemma consistent_when_all_rise (changes : list Q) :
  changes <> [] -> Forall (fun change => (0 < change)%Q) changes ->
  (calculateConsistencyScore changes improving == 100)%Q.
Proof.
  intros Hne Hall. unfold calculateConsistencyScore.
  destruct (len changes =? 0) eqn:Hlen;
    [destruct changes; [contradiction | discriminate Hlen] |].
  assert (Hkeep : List.filter
                    (fun change =>
                       (Qlt_bool 0 change && Qlt_bool 0 1)
                       || (Qlt_bool change 0 && Qlt_bool 1 0)) changes
                  = changes).
  { clear Hne Hlen. induction Hall as [|c l Hc _ IH]; [reflexivity |].
    cbn [List.filter]. rewrite IH.
    assert (Hlt : Qlt_bool 0 c = true).
    { unfold Qlt_bool. apply negb_true_iff, Qle_bool_false. exact Hc. }
    rewrite Hlt. reflexivity. }
  rewrite Hkeep. pose proof (inject_len_pos changes Hne) as Hpos.
  field. lra.
Qed.

Lemma consecutive_nonempty (l : list PerformanceHistory) :
  (2 <= List.length l)%nat -> consecutive l <> [].
Proof.
  destruct l as [|a [|b l]]; cbn; intros H; try lia. discriminate.
Qed.

(** X19.  When every audit scores higher than the one before and the trend
    comes out as improving, each change counts as consistent, so the
    strength is moderate or strong, never weak. *)
Theorem steady_gains_are_not_weak (history : list PerformanceHistory) :
  detectOverallTrend history = improving ->
  Forall (fun change => (0 < change)%Q) (calculateConsecutiveChanges history) ->
  calculateTrendStrength history (detectOverallTrend history) <> weak.
Proof.
  intros Htrend Hall. rewrite Htrend. unfold calculateTrendStrength.
  assert (Hne : calculateConsecutiveChanges history <> []).
  { unfold calculateConsecutiveChanges, detectOverallTrend in *.
    destruct (Z.ltb_spec (len history) 2) as [|Hlen]; [discriminate Htrend |].
    apply consecutive_nonempty. unfold sorted. rewrite sortBy_length.
    unfold len in Hlen. lia. }
  pose proof (consistent_when_all_rise _ Hne Hall) as Hc.
  pose proof (calculateMagnitudeScore_range
                (calculateConsecutiveChanges history)) as Hm.
  match goal with
  | |- context [Qle_bool 50 ?x] =>
      assert (H50 : Qle_bool 50 x = true)
        by (apply Qle_bool_iff; unfold Qdiv; change (/ 2)%Q with (1 # 2)%Q; lra);
      rewrite H50
  end.
  destruct (Qle_bool 75 _); discriminate.
Qed.

Lemma steady_gains_are_not_weak_witness :
  calculateTrendStrength threeRising (detectOverallTrend threeRising) <> weak.
Proof.
  apply (steady_gains_are_not_weak threeRising).
  - vm_compute. reflexivity.
  - vm_compute. repeat constructor.
Defined.

(** *** Confidence *)

Lemma nullFields_bounds (h : list PerformanceHistory) (n : Z) :
  n <= fold_left (fun n r => (n + isNull (seoScore r)
                              + isNull (accessibilityScore r)
                              + isNull (mobileScore r)
                              + isNull (performanceScore r))%Z) h n
    <= n + 4 * len h.
Proof.
  revert n. induction h as [|r h IH]; intros n; cbn [fold_left].
  - unfold len. cbn. lia.
  - match goal with |- context [fold_left _ h ?m] => specialize (IH m) end.
    unfold len in *. cbn [List.length]. rewrite Nat2Z.inj_succ.
    unfold isNull in *.
    destruct (seoScore r), (accessibilityScore r), (mobileScore r),
      (performanceScore r); lia.
Qed.

Lemma calculateDataConsistency_range (h : list PerformanceHistory) :
  h <> [] -> (20 <= calculateDataConsistency h <= 100)%Q.
Proof.
  intros Hne. unfold calculateDataConsistency.
  destruct (len h =? 0) eqn:Hlen;
    [destruct h; [contradiction | discriminate Hlen] |].
  pose proof (nullFields_bounds h 0) as Hn.
  pose proof (inject_len_pos h Hne) as Hpos.
  match goal with
  | |- context [inject_Z (5 * len h - ?f)] => generalize dependent f
  end.
  intros nulls Hn.
  assert (H1 : (inject_Z (len h) <= inject_Z (5 * len h - nulls))%Q)
    by (rewrite <- Zle_Qle; lia).
  assert (H2 : (inject_Z (5 * len h - nulls) <= inject_Z (5 * len h))%Q)
    by (rewrite <- Zle_Qle; lia).
  assert (H5 : (inject_Z (5 * len h) == 5 * inject_Z (len h))%Q)
    by (rewrite inject_Z_mult; reflexivity).
  set (x := inject_Z (5 * len h - nulls)) in *.
  set (y := inject_Z (5 * len h)) in *.
  assert (Hy : (0 < y)%Q) by lra.
  assert (Hlo : ((1 # 5) <= x / y)%Q)
    by (apply Qle_shift_div_l; [exact Hy | lra]).
  assert (Hhi : (x / y <= 1)%Q)
    by (apply Qle_shift_div_r; [exact Hy | lra]).
  set (z := (x / y)%Q) in *. lra.
Qed.

Lemma sorted_last_after_first (h : list PerformanceHistory) first rest lst :
  sorted h = first :: rest -> last (sorted h) = Some lst ->
  recordedAt first <= recordedAt lst.
Proof.
  intros Hs Hl. apply (sortBy_head recordedAt first rest h Hs).
  apply last_Some_elem_of in Hl. unfold sorted in Hl.
  rewrite sortBy_perm in Hl. exact Hl.
Qed.

Lemma expected_span_positive p : (0 < inject_Z (getExpectedTimeSpan p))%Q.
Proof. destruct p; reflexivity. Qed.

Lemma calculateTimeSpanCoverage_range (h : list PerformanceHistory) p :
  (0 <= calculateTimeSpanCoverage h p <= 100)%Q.
Proof.
  unfold calculateTimeSpanCoverage.
  destruct (sorted h) as [|first rest] eqn:Hs; [lra |].
  destruct (last (first :: rest)) as [lst|] eqn:Hl; [| lra].
  rewrite <- Hs in Hl.
  pose proof (sorted_last_after_first h first rest lst Hs Hl) as Hle.
  pose proof (expected_span_positive p) as Hpos.
  split; [| apply Q.le_min_l].
  apply Q.min_glb; [lra |].
  apply Qmult_le_0_compat; [| lra].
  apply Qle_shift_div_l; [exact Hpos |].
  rewrite Qmult_0_l. change 0%Q with (inject_Z 0). rewrite <- Zle_Qle. lia.
Qed.

Lemma calculateDataFreshness_range (h : list PerformanceHistory) now :
  h <> [] -> (10 <= calculateDataFreshness h now <= 100)%Q.
Proof.
  intros Hne. unfold calculateDataFreshness.
  destruct (sortBy _ h) as [|latest rest] eqn:Hs.
  - apply (f_equal (@List.length _)) in Hs. rewrite sortBy_length in Hs.
    destruct h; [contradiction | discriminate Hs].
  - repeat match goal with |- context [if ?b then _ else _] => destruct b end;
      lra.
Qed.

Lemma quantity_range (h : list PerformanceHistory) p :
  minimumDataPoints (TREND_PARAMS p) <= len h ->
  (50 <= Qmin 100 (inject_Z (len h)
                   / inject_Z (minimumDataPoints (TREND_PARAMS p) * 2) * 100)
      <= 100)%Q.
Proof.
  intros Hmin. split; [| apply Q.le_min_l].
  apply Q.min_glb; [lra |].
  apply ScoringMore.inject_at_least in Hmin.
  assert (Hhalf : ((1 # 2) <= inject_Z (len h)
                             / inject_Z (minimumDataPoints (TREND_PARAMS p) * 2))%Q).
  { destruct p; cbn [TREND_PARAMS minimumDataPoints] in *;
      (apply Qle_shift_div_l; [reflexivity |]);
      match goal with
      | H : (inject_Z ?k <= _)%Q |- context [inject_Z (?m * 2)] =>
          let v := eval vm_compute in (inject_Z k) in
          change (inject_Z k) with v in H;
          let w := eval vm_compute in (inject_Z (m * 2)) in
          change (inject_Z (m * 2)) with w
      end; lra. }
  set (z := (inject_Z (len h) / _)%Q) in *. lra.
Qed.

Lemma calculateConfidenceScore_sufficient (h : list PerformanceHistory) p now :
  minimumDataPoints (TREND_PARAMS p) <= len h ->
  22 <= calculateConfidenceScore h p now <= 100.
Proof.
  intros Hmin.
  assert (Hne : h <> []).
  { intros ->. destruct p; apply Hmin; reflexivity. }
  unfold calculateConfidenceScore.
  pose proof (quantity_range h p Hmin) as Hq.
  pose proof (calculateDataConsistency_range h Hne) as Hc.
  pose proof (calculateTimeSpanCoverage_range h p) as Ht.
  pose proof (calculateDataFreshness_range h now Hne) as Hf.
  set (q := Qmin 100 _) in *. set (c := calculateDataConsistency h) in *.
  set (t := calculateTimeSpanCoverage h p) in *.
  set (f := calculateDataFreshness h now) in *.
  set (x := (0 + q * (3 # 10) + c * (25 # 100) + t * (25 # 100)
             + f * (2 # 10))%Q).
  assert (Hx : (22 <= x <= 100)%Q) by (subst x; lra).
  assert (Hclamp : (22 <= Qmax 0 (Qmin 100 x) <= 100)%Q).
  { split.
    - apply Qle_trans with (Qmin 100 x); [| apply Q.le_max_r].
      apply Q.min_glb; lra.
    - apply Q.max_lub; [lra | apply Q.le_min_l]. }
  split.
  - apply ScoringMore.round_at_least. change (inject_Z 22) with 22%Q. lra.
  - apply ScoringFacts.round_score; lra.
Qed.

(** X20.  The confidence of an analysis tells whether it was computed: with
    too few rows in the period it is the fixed 10, and with enough rows
    it lies between 22 and 100, whatever the rows are. *)
Theorem confidence_tells_whether_computed
    (generateKeyInsights :
       list PerformanceHistory -> TimePeriod -> list TrendInsight)
    (generateRecommendations :
       list PerformanceHistory -> list SignificantChange ->
       list SignificantChange -> list HistoricalRecommendation)
    (cal : Calendar) (trackingId : string) (p : TimePeriod)
    (uuid : string) (now : Z) (st : MemStorage) :
  let history := historyInRange cal trackingId p now st in
  let a := fst (generateTrendAnalysis generateKeyInsights
                  generateRecommendations cal trackingId p uuid now st) in
  (len history < minimumDataPoints (TREND_PARAMS p) -> confidenceScore a = 10)
  /\ (minimumDataPoints (TREND_PARAMS p) <= len history ->
      22 <= confidenceScore a <= 100).
Proof.
  cbv zeta. split.
  - intros Hlt. rewrite generate_insufficient by exact Hlt.
    apply (createOrUpdate_fields (insufficientData trackingId p) uuid now st).
  - intros Hge. unfold generateTrendAnalysis.
    pose proof Hge as Hb. apply Z.ltb_ge in Hb. rewrite Hb.
    match goal with
    | |- context [createOrUpdateTrendAnalysis ?i uuid now st] =>
        pose proof (createOrUpdate_fields i uuid now st) as H
    end.
    cbv zeta in H. destruct H as (_ & _ & _ & _ & _ & _ & _ & _ & -> & _).
    cbn [insConfidenceScore].
    apply calculateConfidenceScore_sufficient, Hge.
Qed.

(** *** Analyses in the store *)

Lemma key_bare t p1 p2 : key "" p1 = key t p2 -> t = "" /\ p1 = p2.
Proof.
  unfold key. intros H.
  destruct t as [|c1 t]; [destruct p1, p2; cbn in H; first [discriminate H | auto] |].
  exfalso.
  destruct t as [|c2 t]; [destruct p1, p2; discriminate H |].
  destruct t as [|c3 t]; [destruct p1, p2; discriminate H |].
  destruct t as [|c4 t]; [destruct p1, p2; discriminate H |].
  destruct t as [|c5 t]; destruct p1, p2; discriminate H.
Qed.

Lemma key_inj t1 p1 t2 p2 : key t1 p1 = key t2 p2 -> t1 = t2 /\ p1 = p2.
Proof.
  revert t2. induction t1 as [|c t1 IH]; intros t2 H.
  - apply key_bare in H as [-> ->]. auto.
  - destruct t2 as [|c2 t2].
    + symmetry in H. apply key_bare in H as [H _]. discriminate H.
    + unfold key in *. cbn in H. injection H as -> H.
      destruct (IH t2 H) as [-> ->]. auto.
Qed.

Lemma createOrUpdate_store ins uuid now st :
  createOrUpdateTrendAnalysis ins uuid now st =
    let k := key (insTrackingId ins) (insTimePeriod ins) in
    let a := spread (match trendAnalyses st !! k with
                     | Some existing => id existing
                     | None => uuid
                     end) ins now in
    (a, mkStorage (performanceHistory st) (<[k := a]> (trendAnalyses st))).
Proof.
  unfold createOrUpdateTrendAnalysis. cbv zeta.
  destruct (trendAnalyses st !! _); reflexivity.
Qed.

Section Service.
Variable generateKeyInsights :
  list PerformanceHistory -> TimePeriod -> list TrendInsight.
Variable generateRecommendations :
  list PerformanceHistory -> list SignificantChange ->
  list SignificantChange -> list HistoricalRecommendation.
Variable cal : Calendar.

Local Abbreviation data :=
  (analysisData generateKeyInsights generateRecommendations cal).
Local Abbreviation inOrder :=
  (analysesInOrder generateKeyInsights generateRecommendations cal).

Lemma generate_as_insert trackingId p uuid now st :
  generateTrendAnalysis generateKeyInsights generateRecommendations cal
    trackingId p uuid now st
  = createOrUpdateTrendAnalysis (data trackingId p now st) uuid now st.
Proof.
  unfold generateTrendAnalysis, analysisData, createInsufficientDataAnalysis.
  cbv zeta. destruct (len _ <? _); reflexivity.
Qed.

Lemma analysisData_pair trackingId p now st :
  insTrackingId (data trackingId p now st) = trackingId
  /\ insTimePeriod (data trackingId p now st) = p.
Proof.
  unfold analysisData. cbv zeta. destruct (len _ <? _); split; reflexivity.
Qed.

Lemma analysisData_frame trackingId p now st st' :
  performanceHistory st' = performanceHistory st ->
  data trackingId p now st' = data trackingId p now st.
Proof.
  intros H. unfold analysisData, historyInRange,
    getPerformanceHistoryByDateRange, historiesOf. rewrite H. reflexivity.
Qed.

Lemma generate_store trackingId p uuid now st :
  generateTrendAnalysis generateKeyInsights generateRecommendations cal
    trackingId p uuid now st =
  let k := key trackingId p in
  let a := spread (match trendAnalyses st !! k with
                   | Some existing => id existing
                   | None => uuid
                   end) (data trackingId p now st) now in
  (a, mkStorage (performanceHistory st) (<[k := a]> (trendAnalyses st))).
Proof.
  rewrite generate_as_insert, createOrUpdate_store.
  destruct (analysisData_pair trackingId p now st) as [-> ->]. reflexivity.
Qed.

Lemma generate_commute trackingId uuid now p1 p2 st :
  p1 <> p2 ->
  inOrder [p1; p2] trackingId uuid now st
  = inOrder [p2; p1] trackingId uuid now st.
Proof.
  intros Hne. unfold analysesInOrder. cbn [fold_left].
  rewrite !generate_store. cbv zeta. cbn [snd performanceHistory trendAnalyses].
  assert (Hk : key trackingId p1 <> key trackingId p2).
  { intros Hk. apply key_inj in Hk as [_ Hk]. contradiction. }
  rewrite !lookup_insert_ne by (first [exact Hk | intros E; apply Hk; rewrite E; reflexivity]).
  rewrite !(analysisData_frame trackingId _ _ st) by reflexivity.
  f_equal. apply insert_insert_ne.
  intros E. apply Hk. rewrite E. reflexivity.
Qed.

Lemma analysesInOrder_app l1 l2 trackingId uuid now st :
  inOrder (l1 ++ l2) trackingId uuid now st
  = inOrder l2 trackingId uuid now
      (inOrder l1 trackingId uuid now st).
Proof. unfold analysesInOrder. apply fold_left_app. Qed.

Lemma analysesInOrder_perm order order' trackingId uuid now :
  order ≡ₚ order' -> NoDup order ->
  forall st,
    inOrder order trackingId uuid now st
    = inOrder order' trackingId uuid now st.
Proof.
  induction 1 as [|p l l' Hperm IH|p1 p2 l|l l' l'' H1 IH1 H2 IH2];
    intros Hnd st.
  - reflexivity.
  - apply NoDup_cons in Hnd as [_ Hnd].
    change (p :: l) with ([p] ++ l). change (p :: l') with ([p] ++ l').
    rewrite !analysesInOrder_app. apply IH, Hnd.
  - change (p2 :: p1 :: l) with ([p2; p1] ++ l).
    change (p1 :: p2 :: l) with ([p1; p2] ++ l).
    rewrite !analysesInOrder_app. f_equal. apply generate_commute.
    apply NoDup_cons in Hnd as [Hin _]. intros ->. apply Hin. constructor.
  - rewrite IH1 by exact Hnd. apply IH2. rewrite <- H1. exact Hnd.
Qed.

Lemma analysesInOrder_history order trackingId uuid now st :
  performanceHistory
    (inOrder order trackingId uuid now st)
  = performanceHistory st.
Proof.
  revert st. induction order as [|p l IH]; intros st; [reflexivity |].
  change (p :: l) with ([p] ++ l). rewrite analysesInOrder_app, IH.
  unfold analysesInOrder. cbn [fold_left]. rewrite generate_store.
  reflexivity.
Qed.

Lemma analysesInOrder_present order trackingId uuid now st p :
  p ∈ order ->
  exists a,
    getTrendAnalysis
      (inOrder order trackingId uuid now st) trackingId p = Some a
    /\ Schema.trackingId a = trackingId /\ timePeriod a = p.
Proof.
  revert st. induction order as [|q l IH]; intros st Hp; [inversion Hp |].
  change (q :: l) with ([q] ++ l). rewrite analysesInOrder_app.
  destruct (decide (p ∈ l)) as [Hl|Hl]; [apply IH, Hl |].
  apply elem_of_cons in Hp as [->|Hp]; [| contradiction].
  clear IH. set (st1 := analysesInOrder _ _ _ [q] _ _ _ st).
  assert (H1 : exists a, getTrendAnalysis st1 trackingId q = Some a
                         /\ Schema.trackingId a = trackingId
                         /\ timePeriod a = q).
  { subst st1. unfold analysesInOrder. cbn [fold_left].
    rewrite generate_store. cbv zeta. unfold getTrendAnalysis.
    cbn [snd trendAnalyses]. rewrite lookup_insert_eq.
    eexists. split; [reflexivity |]. cbn [spread Schema.trackingId timePeriod].
    apply analysisData_pair. }
  clearbody st1. revert st1 H1.
  induction l as [|r l IH]; intros st1 H1; [exact H1 |].
  change (r :: l) with ([r] ++ l). rewrite analysesInOrder_app.
  apply IH.
  - intros Hin. apply Hl. right. exact Hin.
  - destruct H1 as (a & Ha & Hfields).
    exists a. split; [| exact Hfields].
    unfold analysesInOrder. cbn [fold_left]. rewrite generate_store.
    cbv zeta. unfold getTrendAnalysis in *. cbn [snd trendAnalyses].
    rewrite lookup_insert_ne; [exact Ha |].
    intros Hk. apply key_inj in Hk as [_ ->]. apply Hl. constructor.
Qed.
End Service.

(** X21.  [generateTrendAnalysis] leaves the analysis it returns in the slot of
    its pair, keeps the id of an analysis it replaces, and touches
    neither the history nor the analysis of any other tracking id or
    period. *)
Theorem analysis_goes_to_its_own_slot
    (generateKeyInsights :
       list PerformanceHistory -> TimePeriod -> list TrendInsight)
    (generateRecommendations :
       list PerformanceHistory -> list SignificantChange ->
       list SignificantChange -> list HistoricalRecommendation)
    (cal : Calendar) (trackingId : string) (p : TimePeriod)
    (uuid : string) (now : Z) (st : MemStorage) :
  let r := generateTrendAnalysis generateKeyInsights generateRecommendations
             cal trackingId p uuid now st in
  getTrendAnalysis (snd r) trackingId p = Some (fst r)
  /\ Schema.trackingId (fst r) = trackingId /\ timePeriod (fst r) = p
  /\ analysisDate (fst r) = now
  /\ id (fst r) = match getTrendAnalysis st trackingId p with
                  | Some existing => id existing
                  | None => uuid
                  end
  /\ performanceHistory (snd r) = performanceHistory st
  /\ (forall trackingId' p',
        (trackingId', p') <> (trackingId, p) ->
        getTrendAnalysis (snd r) trackingId' p'
        = getTrendAnalysis st trackingId' p').
Proof.
  cbv zeta. rewrite generate_store. cbv zeta.
  unfold getTrendAnalysis. cbn [fst snd trendAnalyses performanceHistory].
  rewrite lookup_insert_eq.
  destruct (analysisData_pair generateKeyInsights generateRecommendations cal
              trackingId p now st) as [Ht Hp].
  repeat split; try assumption; try reflexivity.
  intros trackingId' p' Hne. apply lookup_insert_ne.
  intros Hk. apply key_inj in Hk as [-> ->]. apply Hne. reflexivity.
Qed.

(** X22.  After [onNewAuditRecorded] the store holds an analysis for each of
    the four periods of the tracking id, the history is as before, and
    the store is the same in whatever order the four analyses are
    completed. *)
Theorem all_four_periods_in_any_order
    (generateKeyInsights :
       list PerformanceHistory -> TimePeriod -> list TrendInsight)
    (generateRecommendations :
       list PerformanceHistory -> list SignificantChange ->
       list SignificantChange -> list HistoricalRecommendation)
    (cal : Calendar) (trackingId : string)
    (uuid : TimePeriod -> string) (now : TimePeriod -> Z) (st : MemStorage) :
  let st' := onNewAuditRecorded generateKeyInsights generateRecommendations
               cal trackingId uuid now st in
  (forall p, exists a, getTrendAnalysis st' trackingId p = Some a
                       /\ Schema.trackingId a = trackingId
                       /\ timePeriod a = p)
  /\ performanceHistory st' = performanceHistory st
  /\ (forall order, order ≡ₚ [P7d; P30d; P90d; P1y] ->
        analysesInOrder generateKeyInsights generateRecommendations cal
          order trackingId uuid now st = st').
Proof.
  cbv zeta. unfold onNewAuditRecorded. split; [| split].
  - intros p. apply analysesInOrder_present.
    destruct p; repeat first [left | right].
  - apply analysesInOrder_history.
  - intros order Hperm. apply analysesInOrder_perm; [exact Hperm |].
    rewrite Hperm. apply (bool_decide_unpack _). vm_compute. exact I.
Qed.

End TrendMore.

(** ** The history rows in the store *)

Module StorageMore.
Import JS Schema Storage Trend Tracking TrendNotions StorageTrace TrendTrace.
Import StorageFacts TrendFacts TrendMore.
Local Open Scope list_scope.

Lemma historiesOf_insert st tid l other ta :
  historiesOf (mkStorage (<[tid := l]> (performanceHistory st)) ta) other
  = if decide (tid = other) then l else historiesOf st other.
Proof.
  unfold historiesOf. cbn [performanceHistory].
  destruct (decide (tid = other)) as [->|Hne].
  - rewrite lookup_insert_eq. reflexivity.
  - rewrite lookup_insert_ne by exact Hne. reflexivity.
Qed.

Lemma orNull_None x : orNull x = None <-> falsy x.
Proof.
  destruct x as [v|]; cbn; [| tauto].
  destruct (Qeq_bool v 0) eqn:H.
  - apply Qeq_bool_iff in H. tauto.
  - split; [discriminate |]. intros Hz. apply Qeq_bool_iff in Hz. congruence.
Qed.

(** X23.  A new row is stamped with the clock and read back as the last row of
    its tracking id whenever the clock lies in the range asked for; rows
    of other tracking ids and the analyses are untouched; and a
    sub-score of 0 is stored as null, like a missing one. *)
Theorem new_row_is_read_back
    (insertHistory : PerformanceHistory) (now : Z) (st : MemStorage) :
  let r := createPerformanceHistory insertHistory now st in
  recordedAt (fst r) = now
  /\ (forall trackingId startDate endDate,
        getPerformanceHistoryByDateRange (snd r) trackingId startDate endDate
        = getPerformanceHistoryByDateRange st trackingId startDate endDate
          ++ (if decide (historicalTrackingId insertHistory = trackingId)
              then if (startDate <=? now) && (now <=? endDate)
                   then [fst r] else []
              else []))
  /\ trendAnalyses (snd r) = trendAnalyses st
  /\ (seoScore (fst r) = None <-> falsy (seoScore insertHistory))
  /\ (accessibilityScore (fst r) = None
      <-> falsy (accessibilityScore insertHistory))
  /\ (mobileScore (fst r) = None <-> falsy (mobileScore insertHistory))
  /\ (performanceScore (fst r) = None
      <-> falsy (performanceScore insertHistory)).
Proof.
  cbv zeta. unfold createPerformanceHistory. cbv zeta.
  cbn [fst snd recordedAt historicalTrackingId trendAnalyses seoScore
       accessibilityScore mobileScore performanceScore].
  split; [reflexivity |]. split; [| split; [reflexivity |]].
  - intros trackingId startDate endDate.
    unfold getPerformanceHistoryByDateRange. rewrite historiesOf_insert.
    destruct (decide (historicalTrackingId insertHistory = trackingId))
      as [<-|Hne]; [| rewrite app_nil_r; reflexivity].
    rewrite List.filter_app. cbn [List.filter recordedAt].
    destruct ((startDate <=? now) && (now <=? endDate)); reflexivity.
  - repeat split; apply orNull_None.
Qed.

(** *** Clean-up *)

Lemma filter_filter_weaker {A} (f g : A -> bool) (l : list A) :
  (forall x, f x = true -> g x = true) ->
  List.filter f (List.filter g l) = List.filter f l.
Proof.
  intros H. induction l as [|x l IH]; [reflexivity |]. cbn [List.filter].
  destruct (g x) eqn:Hg; cbn [List.filter].
  - rewrite IH. reflexivity.
  - destruct (f x) eqn:Hf; [| exact IH].
    rewrite (H x Hf) in Hg. discriminate Hg.
Qed.

Lemma historiesOf_cleanup cutoffDate st trackingId :
  historiesOf (cleanupExpiredData cutoffDate st) trackingId
  = List.filter (newerThan cutoffDate) (historiesOf st trackingId).
Proof.
  unfold historiesOf, cleanupExpiredData. cbn [performanceHistory].
  rewrite lookup_fmap. destruct (performanceHistory st !! trackingId); reflexivity.
Qed.

Lemma nothing_to_delete (cutoffDate : Z)
    (entries : list (string * list PerformanceHistory)) (deleted : Z) :
  Forall (fun entry => List.filter (newerThan cutoffDate) (snd entry)
                       = snd entry) entries ->
  fold_left
    (fun deleted entry =>
       (deleted + (len (snd entry)
                   - len (List.filter (fun h => cutoffDate <? recordedAt h)
                                      (snd entry))))%Z)
    entries deleted = deleted.
Proof.
  intros H. revert deleted.
  induction H as [|entry entries He _ IH]; intros deleted; [reflexivity |].
  cbn [fold_left]. rewrite IH. unfold newerThan in He. rewrite He. lia.
Qed.

Lemma deleted_nonneg (cutoffDate : Z)
    (entries : list (string * list PerformanceHistory)) (deleted : Z) :
  deleted <=
  fold_left
    (fun deleted entry =>
       (deleted + (len (snd entry)
                   - len (List.filter (fun h => cutoffDate <? recordedAt h)
                                      (snd entry))))%Z)
    entries deleted.
Proof.
  revert deleted. induction entries as [|entry entries IH]; intros deleted;
    cbn [fold_left]; [lia |].
  etransitivity; [| apply IH].
  pose proof (List.filter_length_le (fun h => cutoffDate <? recordedAt h)
                (snd entry)).
  unfold len. lia.
Qed.

(** X24.  [cleanupExpiredData] keeps, for every tracking id, exactly the rows
    recorded after the cut-off date, in their order, and leaves the
    stored analyses alone (also those of a tracking id whose rows are all
    gone).  A later cut-off makes an earlier clean-up redundant, and a
    second clean-up with the same cut-off deletes nothing. *)
Theorem cleanup_keeps_the_newer_rows (cutoffDate : Z) (st : MemStorage) :
  let st' := cleanupExpiredData cutoffDate st in
  (forall trackingId,
     historiesOf st' trackingId
     = List.filter (newerThan cutoffDate) (historiesOf st trackingId))
  /\ trendAnalyses st' = trendAnalyses st
  /\ (forall later, cutoffDate <= later ->
        cleanupExpiredData later st' = cleanupExpiredData later st)
  /\ 0 <= cleanupDeleted cutoffDate st
  /\ cleanupDeleted cutoffDate st' = 0.
Proof.
  cbv zeta. split; [apply historiesOf_cleanup |]. split; [reflexivity |].
  split; [| split].
  - intros later Hle. unfold cleanupExpiredData.
    cbn [performanceHistory trendAnalyses]. f_equal.
    rewrite <- map_fmap_compose. apply map_fmap_ext. intros k l _. cbn.
    apply filter_filter_weaker. intros h Hh.
    apply Z.ltb_lt in Hh. apply Z.ltb_lt. lia.
  - apply deleted_nonneg.
  - unfold cleanupDeleted. apply nothing_to_delete.
    apply Forall_forall. intros [k l] Hin.
    apply elem_of_map_to_list in Hin. unfold cleanupExpiredData in Hin.
    cbn [performanceHistory] in Hin. rewrite lookup_fmap in Hin.
    destruct (performanceHistory st !! k) as [l0|]; [| discriminate Hin].
    cbn in Hin. injection Hin as <-. cbn [snd].
    apply filter_filter_weaker. auto.
Qed.

(** *** Reading sorts the rows *)

Lemma newestFirst_sorted (l : list PerformanceHistory) :
  StronglySorted notOlder (newestFirst l).
Proof.
  pose proof (sortBy_sorted (fun h => - recordedAt h) l) as H.
  unfold newestFirst.
  induction H as [|x xs _ IH Hall]; constructor; [exact IH |].
  eapply Forall_impl; [exact Hall |].
  intros y Hy. unfold byKey, notOlder in *. lia.
Qed.

Lemma getPerformanceHistoryByTracking_store trackingId limit st other :
  historiesOf (snd (getPerformanceHistoryByTracking trackingId limit st)) other
  = if decide (trackingId = other)
    then newestFirst (historiesOf st trackingId)
    else historiesOf st other.
Proof.
  unfold getPerformanceHistoryByTracking. cbv zeta. cbn [snd].
  destruct (performanceHistory st !! trackingId) as [l|] eqn:Hl.
  - apply historiesOf_insert.
  - destruct (decide (trackingId = other)) as [<-|]; [| reflexivity].
    unfold historiesOf. rewrite Hl. reflexivity.
Qed.

Lemma slice_from_start {A} (l : list A) (n : Z) :
  slice l 0 (Some n)
  = firstn (Z.to_nat (if n <? 0 then Z.max (len l + n) 0 else Z.min n (len l))) l.
Proof.
  unfold slice, sliceIndex. change (0 <? 0) with false. cbv iota.
  replace (Z.min 0 (len l)) with 0 by (unfold len; lia).
  rewrite Z.sub_0_r. reflexivity.
Qed.

Lemma filter_perm {A} (f : A -> bool) (l1 l2 : list A) :
  l1 ≡ₚ l2 -> List.filter f l1 ≡ₚ List.filter f l2.
Proof.
  induction 1 as [|x l l' _ IH|x y l|l l' l'' _ IH1 _ IH2]; cbn [List.filter].
  - reflexivity.
  - destruct (f x); [constructor |]; exact IH.
  - destruct (f x), (f y); try reflexivity. apply perm_swap.
  - etransitivity; eassumption.
Qed.

(** X25.  [getPerformanceHistoryByTracking] sorts the stored array itself:
    after the call the rows of the tracking id stand newest first in the
    store (the same rows, and those of other tracking ids and the
    analyses as before), so a later date-range query returns the same
    rows in another order.  The answer is the whole sorted array for no
    limit and for limit 0, and its first [limit] rows for a positive
    limit. *)
Theorem reading_sorts_the_stored_rows
    (trackingId : string) (limit : option Z) (st : MemStorage) :
  let r := getPerformanceHistoryByTracking trackingId limit st in
  let sorted := newestFirst (historiesOf st trackingId) in
  historiesOf (snd r) trackingId = sorted
  /\ sorted ≡ₚ historiesOf st trackingId
  /\ StronglySorted notOlder sorted
  /\ (forall other, other <> trackingId ->
        historiesOf (snd r) other = historiesOf st other)
  /\ trendAnalyses (snd r) = trendAnalyses st
  /\ (forall startDate endDate,
        getPerformanceHistoryByDateRange (snd r) trackingId startDate endDate
        ≡ₚ getPerformanceHistoryByDateRange st trackingId startDate endDate)
  /\ fst r = match limit with
             | Some n => if 0 <? n then firstn (Z.to_nat n) sorted
                         else if n =? 0 then sorted
                         else firstn (List.length sorted - Z.to_nat (- n)) sorted
             | None => sorted
             end.
Proof.
  cbv zeta.
  pose proof (getPerformanceHistoryByTracking_store trackingId limit st) as Hst.
  assert (Hperm : newestFirst (historiesOf st trackingId)
                  ≡ₚ historiesOf st trackingId) by apply sortBy_perm.
  split; [| split; [exact Hperm | split; [apply newestFirst_sorted | split; [| split; [| split]]]]].
  - rewrite Hst. destruct (decide (trackingId = trackingId)); [reflexivity | contradiction].
  - intros other Hne. rewrite Hst.
    destruct (decide (trackingId = other)) as [->|]; [contradiction | reflexivity].
  - unfold getPerformanceHistoryByTracking. cbv zeta. cbn [snd].
    destruct (performanceHistory st !! trackingId); reflexivity.
  - intros startDate endDate. unfold getPerformanceHistoryByDateRange.
    rewrite Hst.
    destruct (decide (trackingId = trackingId)); [| contradiction].
    apply filter_perm, Hperm.
  - unfold getPerformanceHistoryByTracking. cbv zeta. cbn [fst].
    destruct limit as [n|]; [| reflexivity].
    destruct (Z.eqb_spec n 0) as [->|Hn]; [reflexivity |].
    rewrite slice_from_start.
    destruct (Z.ltb_spec 0 n) as [Hpos|Hneg];
      destruct (Z.ltb_spec n 0) as [Hlt|Hge]; try lia.
    + destruct (Z.le_gt_cases n (len (newestFirst (historiesOf st trackingId))))
        as [Hle|Hgt].
      * rewrite Z.min_l by exact Hle. reflexivity.
      * rewrite Z.min_r by lia. unfold len in *.
        rewrite Nat2Z.id, !firstn_all2; [reflexivity | lia | lia].
    + f_equal. unfold len. lia.
Qed.

(** X26.  [getLatestPerformanceHistory] answers with a stored row that no row
    of the tracking id is newer than, and with nothing exactly when the
    tracking id has no rows. *)
Theorem latest_row_is_newest (trackingId : string) (st : MemStorage) :
  match fst (getLatestPerformanceHistory trackingId st) with
  | Some latest =>
      latest ∈ historiesOf st trackingId
      /\ forall h, h ∈ historiesOf st trackingId ->
                   recordedAt h <= recordedAt latest
  | None => historiesOf st trackingId = []
  end.
Proof.
  unfold getLatestPerformanceHistory, getPerformanceHistoryByTracking.
  cbv zeta. cbn [Z.eqb fst]. rewrite slice_from_start.
  change (1 <? 0) with false. cbv iota.
  destruct (newestFirst (historiesOf st trackingId)) as [|latest rest] eqn:Hs.
  - cbn. apply (f_equal (@List.length _)) in Hs.
    unfold newestFirst in Hs. rewrite sortBy_length in Hs.
    destruct (historiesOf st trackingId); [reflexivity | discriminate Hs].
  - assert (Hone : Z.min 1 (len (latest :: rest)) = 1)
      by (unfold len; cbn [List.length]; lia).
    rewrite Hone. cbn [Z.to_nat Pos.to_nat Pos.iter_op firstn List.head].
    destruct (sortBy_head (fun h => - recordedAt h) latest rest
                (historiesOf st trackingId) Hs) as [Hin Hmax].
    split; [exact Hin |]. intros h Hh. specialize (Hmax h Hh). cbn in Hmax. lia.
Qed.

End StorageMore.

(** ** Tracked sites *)

Module TrackingMore.
Import JS Schema Storage Trend Tracking StorageTrace TrackingTrace.
Import StorageFacts TrendFacts TrendMore StorageMore.
Local Open Scope list_scope.

(** *** The map *)

Lemma eqb_refl_string (k : string) : String.eqb k k = true.
Proof. apply String.eqb_refl. Qed.

Lemma mapGet_In {V} (m : JsMap V) k v : mapGet m k = Some v -> In (k, v) m.
Proof.
  induction m as [|[k' v'] m IH]; cbn [mapGet]; [discriminate |].
  destruct (String.eqb_spec k' k) as [->|Hne].
  - intros [= ->]. left. reflexivity.
  - intros H. right. apply IH, H.
Qed.

Lemma In_mapGet {V} (m : JsMap V) k v :
  NoDup (List.map fst m) -> In (k, v) m -> mapGet m k = Some v.
Proof.
  induction m as [|[k' v'] m IH]; cbn [mapGet List.map fst]; [contradiction |].
  intros Hnd [Heq|Hin].
  - injection Heq as -> ->. rewrite eqb_refl_string. reflexivity.
  - apply NoDup_cons in Hnd as [Hk Hnd].
    destruct (String.eqb_spec k' k) as [->|Hne]; [| apply IH; assumption].
    exfalso. apply Hk. apply list_elem_of_In.
    apply (in_map fst) in Hin. exact Hin.
Qed.

Lemma mapGet_None_keys {V} (m : JsMap V) k :
  mapGet m k = None <-> ~ In k (List.map fst m).
Proof.
  induction m as [|[k' v'] m IH]; cbn [mapGet List.map fst In]; [tauto |].
  destruct (String.eqb_spec k' k) as [->|Hne].
  - split; [discriminate | tauto].
  - rewrite IH. tauto.
Qed.

Lemma mapSet_fresh {V} (m : JsMap V) k v :
  mapGet m k = None -> mapSet k v m = m ++ [(k, v)].
Proof.
  induction m as [|[k' v'] m IH]; cbn [mapGet mapSet]; [reflexivity |].
  destruct (String.eqb k' k); [discriminate |].
  intros H. rewrite IH by exact H. reflexivity.
Qed.

Lemma mapSet_present {V} (m : JsMap V) k v v0 :
  mapGet m k = Some v0 ->
  exists m1 m2, m = m1 ++ (k, v0) :: m2 /\ mapSet k v m = m1 ++ (k, v) :: m2
                /\ ~ In k (List.map fst m1).
Proof.
  induction m as [|[k' v'] m IH]; cbn [mapGet mapSet]; [discriminate |].
  destruct (String.eqb_spec k' k) as [->|Hne].
  - intros [= ->]. exists [], m. repeat split. intros [].
  - intros H. destruct (IH H) as (m1 & m2 & -> & -> & Hk).
    exists ((k', v') :: m1), m2. repeat split.
    cbn. intros [Heq|Hin]; [contradiction | apply Hk, Hin].
Qed.

Lemma mapGet_mapSet {V} (m : JsMap V) k v k' :
  mapGet (mapSet k v m) k' = if String.eqb k k' then Some v else mapGet m k'.
Proof.
  induction m as [|[k0 v0] m IH]; cbn [mapGet mapSet].
  - destruct (String.eqb k k'); reflexivity.
  - destruct (String.eqb_spec k0 k) as [->|Hne]; cbn [mapGet].
    + destruct (String.eqb k k'); reflexivity.
    + destruct (String.eqb_spec k0 k') as [->|Hne'].
      * destruct (String.eqb_spec k k') as [->|]; [contradiction | reflexivity].
      * exact IH.
Qed.

Lemma find_In {A} (f : A -> bool) (l : list A) x :
  List.find f l = Some x -> In x l /\ f x = true.
Proof. apply find_some. Qed.

Lemma In_mapSet {V} (m : JsMap V) k v k' v' :
  NoDup (List.map fst m) ->
  In (k', v') (mapSet k v m)
  <-> (k' = k /\ v' = v) \/ (k' <> k /\ In (k', v') m).
Proof.
  intros Hnd. destruct (mapGet m k) as [v0|] eqn:Hget.
  - destruct (mapSet_present m k v v0 Hget) as (m1 & m2 & Hm & -> & Hk).
    subst m. rewrite List.map_app in Hnd. cbn [List.map fst] in Hnd.
    apply NoDup_app in Hnd as (_ & Hdisj & Hnd2).
    apply NoDup_cons in Hnd2 as [Hk2 _].
    rewrite !in_app_iff. cbn [In]. split.
    + intros [H|[H|H]].
      * right. split; [| auto]. intros ->. apply Hk.
        apply (in_map fst) in H. exact H.
      * injection H as <- <-. left. auto.
      * right. split; [| auto]. intros ->. apply Hk2.
        apply list_elem_of_In. apply (in_map fst) in H. exact H.
    + intros [[-> ->]|[Hne [H|[H|H]]]]; auto.
      injection H as <- <-. contradiction.
  - rewrite mapSet_fresh by exact Hget. rewrite in_app_iff. cbn [In].
    apply mapGet_None_keys in Hget. split.
    + intros [H|[H|[]]].
      * right. split; [| exact H]. intros ->. apply Hget.
        apply (in_map fst) in H. exact H.
      * injection H as <- <-. left. auto.
    + intros [[-> ->]|[_ H]]; auto.
Qed.

Lemma keys_mapSet_present {V} (m : JsMap V) k v v0 :
  mapGet m k = Some v0 -> List.map fst (mapSet k v m) = List.map fst m.
Proof.
  intros H. destruct (mapSet_present m k v v0 H) as (m1 & m2 & -> & -> & _).
  rewrite !List.map_app. reflexivity.
Qed.

(** Replacing a tracking by one with the same id and URL. *)
Lemma consistent_update m k t t0 :
  consistent m -> mapGet m k = Some t0 ->
  trackId t = trackId t0 -> trackUrl t = trackUrl t0 ->
  consistent (mapSet k t m).
Proof.
  intros [Hk Hid Hu] Hget Hsame Hurl.
  pose proof (mapGet_In _ _ _ Hget) as Hin0.
  split.
  - rewrite (keys_mapSet_present m k t t0 Hget). exact Hk.
  - intros k' t' Hin. apply In_mapSet in Hin as [[-> ->]|[_ Hin]]; [| auto | exact Hk].
    rewrite Hsame. apply Hid, Hin0.
  - destruct (mapSet_present m k t t0 Hget) as (m1 & m2 & Hm & -> & _).
    subst m. unfold mapValues in *.
    rewrite !List.map_app in *. cbn [List.map snd] in *.
    rewrite Hurl. exact Hu.
Qed.

Lemma consistent_fresh m k t :
  consistent m -> mapGet m k = None -> trackId t = k ->
  List.find (byUrl (trackUrl t)) (mapValues m) = None ->
  consistent (mapSet k t m).
Proof.
  intros [Hk Hid Hu] Hget Hsame Hfind.
  rewrite mapSet_fresh by exact Hget. split.
  - rewrite List.map_app. cbn [List.map fst]. apply NoDup_app.
    split; [exact Hk | split; [| apply NoDup_singleton]].
    intros x Hx Hx'. apply list_elem_of_singleton in Hx' as ->.
    apply mapGet_None_keys in Hget. apply Hget, list_elem_of_In, Hx.
  - intros k' t' Hin. apply in_app_iff in Hin as [Hin|[Hin|[]]]; [auto |].
    injection Hin as <- <-. exact Hsame.
  - unfold mapValues in *. rewrite !List.map_app. cbn [List.map snd].
    apply NoDup_app. split; [exact Hu | split; [| apply NoDup_singleton]].
    intros x Hx Hx'. apply list_elem_of_singleton in Hx' as ->.
    apply list_elem_of_In, in_map_iff in Hx as (t' & Heq & Hin).
    pose proof (find_none _ _ Hfind t' Hin) as Hno.
    unfold byUrl in Hno. rewrite Heq, eqb_refl_string in Hno. discriminate Hno.
Qed.

Section Urls.
Variable canonicalizeUrl : string -> string.
Variable hostnameOf : string -> option string.

Local Abbreviation create :=
  (createOrUpdateHistoricalTracking canonicalizeUrl hostnameOf).
Local Abbreviation record :=
  (recordAuditInHistory canonicalizeUrl hostnameOf).

(** What [createOrUpdateHistoricalTracking] does: it hands out the
    tracking of the canonical URL when there is one, and otherwise
    appends a fresh one with no audits. *)
Lemma create_cases url domainArg uuid now st t st' :
  create url domainArg uuid now st = Some (t, st') ->
  (List.find (byUrl (canonicalizeUrl url)) (mapValues (historicalTracking st))
   = Some t /\ st' = st)
  \/ (List.find (byUrl (canonicalizeUrl url))
                (mapValues (historicalTracking st)) = None
      /\ trackId t = uuid /\ trackUrl t = canonicalizeUrl url
      /\ totalAudits t = 0 /\ isActive t = true
      /\ st' = mkStore (mapSet uuid t (historicalTracking st)) (records st)).
Proof.
  unfold createOrUpdateHistoricalTracking. cbv zeta.
  destruct (List.find _ _) as [existing|].
  - intros [= -> ->]. left. auto.
  - match goal with
    | |- match ?o with _ => _ end = _ -> _ => destruct o as [host|]
    end; [| discriminate].
    intros [= <- <-]. right. repeat split.
Qed.

Lemma audited_create exact url domainArg uuid now st t st' :
  audited exact st ->
  mapGet (historicalTracking st) uuid = None ->
  create url domainArg uuid now st = Some (t, st') ->
  audited exact st' /\ mapGet (historicalTracking st') (trackId t) = Some t
  /\ trackUrl t = canonicalizeUrl url.
Proof.
  intros [Hc Hrows Hle Heq] Hfresh Hcreate.
  apply create_cases in Hcreate
    as [[Hfind ->]|(Hfind & Hid & Hurl & Hzero & _ & ->)].
  - apply find_In in Hfind as [Hin Hurl].
    unfold mapValues in Hin. apply in_map_iff in Hin as ([k t'] & Ht & Hin).
    cbn in Ht. subst t'.
    split; [split; assumption |]. split.
    + apply In_mapGet; [apply Hc |].
      rewrite (keyed_by_id _ Hc k t Hin). exact Hin.
    + unfold byUrl in Hurl. apply String.eqb_eq in Hurl. exact Hurl.
  - cbn [historicalTracking records].
    assert (Hnone : historiesOf (records st) uuid = []).
    { destruct (historiesOf (records st) uuid) eqn:Hh; [reflexivity |].
      exfalso. apply (Hrows uuid); [rewrite Hh; discriminate | exact Hfresh]. }
    split; [split; cbn [historicalTracking records] |].
    + apply consistent_fresh; try assumption. rewrite Hurl. exact Hfind.
    + intros k Hk. rewrite mapGet_mapSet.
      destruct (String.eqb uuid k); [discriminate | apply Hrows, Hk].
    + intros k t' Hin. apply In_mapSet in Hin as [[-> ->]|[_ Hin]];
        [| apply Hle, Hin | apply Hc].
      rewrite Hnone, Hzero. unfold len. cbn. lia.
    + intros He k t' Hin. apply In_mapSet in Hin as [[-> ->]|[_ Hin]];
        [| apply Heq; assumption | apply Hc].
      rewrite Hnone, Hzero. reflexivity.
    + split; [| exact Hurl]. rewrite mapGet_mapSet, Hid, eqb_refl_string.
      reflexivity.
Qed.

Lemma historiesOf_create insertHistory now recs k :
  historiesOf (snd (createPerformanceHistory insertHistory now recs)) k
  = if decide (historicalTrackingId insertHistory = k)
    then historiesOf recs k
         ++ [fst (createPerformanceHistory insertHistory now recs)]
    else historiesOf recs k.
Proof.
  unfold createPerformanceHistory. cbv zeta.
  cbn [fst snd historicalTrackingId]. rewrite historiesOf_insert.
  destruct (decide (historicalTrackingId insertHistory = k)) as [<-|];
    reflexivity.
Qed.

Lemma record_cases auditReport uuid now st t h st' :
  record auditReport uuid now st = Some ((t, h), st') ->
  exists t0 st1,
    create (reportUrl auditReport) None uuid now st = Some (t0, st1)
    /\ (mapGet (historicalTracking st1) (trackId t0) = Some t0 ->
        t = mkTracking (trackId t0) (trackUrl t0) (domain t0)
              (trackingStartDate t0) (reportDate auditReport)
              (totalAudits t0 + 1) (isActive t0) (retentionDays t0)
              (trackingFrequency t0)
        /\ h = fst (createPerformanceHistory
                      (mkHistory (trackId t0) (reportId auditReport) 0
                         (reportScore auditReport)
                         (Some (reportScore auditReport))
                         (Some (reportScore auditReport))
                         (Some (reportScore auditReport))
                         (Some (reportScore auditReport)))
                      now (records st1))
        /\ st' = mkStore (mapSet (trackId t0) t (historicalTracking st1))
                   (snd (createPerformanceHistory
                           (mkHistory (trackId t0) (reportId auditReport) 0
                              (reportScore auditReport)
                              (Some (reportScore auditReport))
                              (Some (reportScore auditReport))
                              (Some (reportScore auditReport))
                              (Some (reportScore auditReport)))
                           now (records st1)))).
Proof.
  unfold recordAuditInHistory.
  destruct (create (reportUrl auditReport) None uuid now st)
    as [[t0 st1]|]; [| discriminate].
  intros H. exists t0, st1. split; [reflexivity |]. intros Hget.
  revert H. unfold updateTrackingStats. rewrite Hget. cbv zeta.
  cbn [historicalTracking records]. rewrite mapGet_mapSet, eqb_refl_string.
  cbn [default trackId].
  destruct (createPerformanceHistory _ now (records st1)) as [h' recs] eqn:Hc.
  intros [= <- <- <-]. repeat split.
Qed.

Lemma audited_record exact auditReport uuid now st t h st' :
  audited exact st ->
  mapGet (historicalTracking st) uuid = None ->
  record auditReport uuid now st = Some ((t, h), st') ->
  audited exact st'
  /\ getHistoricalTracking st' (trackId t) = Some t
  /\ trackUrl t = canonicalizeUrl (reportUrl auditReport)
  /\ lastAuditDate t = reportDate auditReport
  /\ totalAudits t
     = 1 + match getHistoricalTrackingByUrl canonicalizeUrl st
                   (reportUrl auditReport) with
           | Some before => totalAudits before
           | None => 0
           end
  /\ historicalTrackingId h = trackId t /\ recordedAt h = now
  /\ historiesOf (records st') (trackId t)
     = historiesOf (records st) (trackId t) ++ [h].
Proof.
  intros Haud Hfresh Hrec.
  apply record_cases in Hrec as (t0 & st1 & Hcreate & Hrest).
  destruct (audited_create exact _ _ _ _ _ _ _ Haud Hfresh Hcreate)
    as (Haud1 & Hget & Hurl).
  destruct (Hrest Hget) as (Ht & Hh & Hst). clear Hrest.
  assert (Hid : trackId t = trackId t0) by (rewrite Ht; reflexivity).
  assert (Hrecs : records st1 = records st).
  { apply create_cases in Hcreate as [[_ ->]|(_ & _ & _ & _ & _ & ->)];
      reflexivity. }
  destruct Haud1 as [Hc Hrows Hle Heq].
  assert (Hrow : forall k,
             historiesOf (records st') k
             = if decide (trackId t0 = k)
               then historiesOf (records st1) k ++ [h]
               else historiesOf (records st1) k).
  { intros k. rewrite Hst, Hh. cbn [records].
    rewrite historiesOf_create. reflexivity. }
  split; [split |].
  - rewrite Hst. cbn [historicalTracking].
    apply (consistent_update _ _ _ t0 Hc Hget); rewrite Ht; reflexivity.
  - intros k Hk. rewrite Hst. cbn [historicalTracking].
    rewrite mapGet_mapSet. destruct (String.eqb_spec (trackId t0) k) as [|Hne];
      [discriminate |].
    apply Hrows. rewrite Hrow in Hk.
    destruct (decide (trackId t0 = k)); [contradiction | exact Hk].
  - intros k t' Hin. rewrite Hst in Hin. cbn [historicalTracking] in Hin.
    rewrite Hrow.
    apply In_mapSet in Hin as [[-> ->]|[Hne Hin]]; [| | apply Hc].
    + destruct (decide (trackId t0 = trackId t0)); [| contradiction].
      pose proof (Hle _ _ (mapGet_In _ _ _ Hget)) as H0.
      rewrite Ht. cbn [totalAudits]. unfold len in *.
      rewrite length_app. cbn [List.length]. lia.
    + destruct (decide (trackId t0 = k)) as [E|];
        [exfalso; apply Hne; symmetry; exact E |].
      apply Hle, Hin.
  - intros He k t' Hin. rewrite Hst in Hin. cbn [historicalTracking] in Hin.
    rewrite Hrow.
    apply In_mapSet in Hin as [[-> ->]|[Hne Hin]]; [| | apply Hc].
    + destruct (decide (trackId t0 = trackId t0)); [| contradiction].
      pose proof (Heq He _ _ (mapGet_In _ _ _ Hget)) as H0.
      rewrite Ht. cbn [totalAudits]. unfold len in *.
      rewrite length_app. cbn [List.length]. lia.
    + destruct (decide (trackId t0 = k)) as [E|];
        [exfalso; apply Hne; symmetry; exact E |].
      apply Heq; assumption.
  - unfold getHistoricalTracking.
    split; [| split; [| split; [| split; [| split; [| split]]]]].
    + rewrite Hst. cbn [historicalTracking].
      rewrite mapGet_mapSet, Hid, eqb_refl_string. reflexivity.
    + rewrite Ht. exact Hurl.
    + rewrite Ht. reflexivity.
    + unfold getHistoricalTrackingByUrl.
      apply create_cases in Hcreate
        as [[Hfind ->]|(Hfind & _ & _ & Hzero & _ & ->)];
        rewrite Hfind, Ht; cbn [totalAudits]; lia.
    + rewrite Hh, Hid. reflexivity.
    + rewrite Hh. reflexivity.
    + rewrite Hrow, Hid, Hrecs.
      destruct (decide (trackId t0 = trackId t0)); [reflexivity | contradiction].
Qed.

Lemma audited_deactivate exact id st :
  audited exact st -> audited exact (snd (deactivateTracking id st)).
Proof.
  intros [Hc Hrows Hle Heq]. unfold deactivateTracking.
  destruct (mapGet (historicalTracking st) id) as [t0|] eqn:Hget;
    [| split; assumption].
  cbn [snd]. split; cbn [historicalTracking records].
  - apply (consistent_update _ _ _ t0 Hc Hget); reflexivity.
  - intros k Hk. rewrite mapGet_mapSet.
    destruct (String.eqb id k); [discriminate | apply Hrows, Hk].
  - intros k t' Hin.
    apply In_mapSet in Hin as [[-> ->]|[_ Hin]]; [| apply Hle, Hin | apply Hc].
    cbn [totalAudits]. apply Hle, mapGet_In, Hget.
  - intros He k t' Hin.
    apply In_mapSet in Hin as [[-> ->]|[_ Hin]];
      [| apply Heq; assumption | apply Hc].
    cbn [totalAudits]. apply Heq; [exact He | apply mapGet_In, Hget].
Qed.

(** Rows may be reordered or analyses written: nothing changes for the
    trackings. *)
Lemma audited_rows exact st recs :
  (forall k, len (historiesOf recs k) = len (historiesOf (records st) k)) ->
  audited exact st -> audited exact (mkStore (historicalTracking st) recs).
Proof.
  intros Hlen [Hc Hrows Hle Heq].
  assert (Hempty : forall k, historiesOf recs k <> [] ->
                             historiesOf (records st) k <> []).
  { intros k Hk Hnil. specialize (Hlen k). rewrite Hnil in Hlen.
    destruct (historiesOf recs k); [contradiction | discriminate Hlen]. }
  split; cbn [historicalTracking records].
  - exact Hc.
  - intros k Hk. apply Hrows, Hempty, Hk.
  - intros k t Hin. rewrite Hlen. apply Hle, Hin.
  - intros He k t Hin. rewrite Hlen. apply Heq; assumption.
Qed.

Lemma audited_cleanup exact st cutoffDate :
  audited exact st ->
  audited false
    (mkStore (historicalTracking st)
       (cleanupExpiredData cutoffDate (records st))).
Proof.
  intros [Hc Hrows Hle Heq].
  assert (Hshort : forall k,
             len (historiesOf (cleanupExpiredData cutoffDate (records st)) k)
             <= len (historiesOf (records st) k)).
  { intros k. rewrite historiesOf_cleanup. unfold len.
    pose proof (List.filter_length_le (newerThan cutoffDate)
                  (historiesOf (records st) k)). lia. }
  split; cbn [historicalTracking records].
  - exact Hc.
  - intros k Hk. apply Hrows. intros Hnil. specialize (Hshort k).
    rewrite Hnil in Hshort.
    destruct (historiesOf (cleanupExpiredData cutoffDate (records st)) k);
      [contradiction |]. unfold len in Hshort. cbn in Hshort. lia.
  - intros k t Hin. specialize (Hshort k). specialize (Hle k t Hin). lia.
  - discriminate.
Qed.

Lemma tracked_audited b st :
  tracked canonicalizeUrl hostnameOf b st -> audited (negb b) st.
Proof.
  induction 1 as [|b st url domainArg uuid now t st' _ IH Hfresh Hcreate
                  |b st auditReport uuid now [t h] st' _ IH Hfresh Hrec
                  |b st id _ IH|b st trackingId limit _ IH
                  |b st insertAnalysis uuid now _ IH|b st cutoffDate _ IH].
  - split; cbn.
    + split; cbn; [constructor | contradiction | constructor].
    + intros k Hk. contradiction.
    + contradiction.
    + contradiction.
  - apply (audited_create _ _ _ _ _ _ _ _ IH Hfresh Hcreate).
  - apply (audited_record _ _ _ _ _ _ _ _ IH Hfresh Hrec).
  - apply audited_deactivate, IH.
  - apply audited_rows; [| exact IH]. intros k.
    rewrite getPerformanceHistoryByTracking_store.
    destruct (decide (trackingId = k)) as [<-|]; [| reflexivity].
    unfold len, newestFirst. rewrite sortBy_length. reflexivity.
  - apply audited_rows; [| exact IH]. intros k.
    unfold historiesOf. rewrite createOrUpdate_store. reflexivity.
  - apply (audited_cleanup _ _ _ IH).
Qed.
End Urls.

(** X27.  However the store was reached, each tracking is filed under its own
    id, no two trackings share a canonical URL, and looking a URL up
    finds exactly the tracking of its canonical form. *)
Theorem one_tracking_per_canonical_url
    (canonicalizeUrl : string -> string) (hostnameOf : string -> option string)
    (b : bool) (st : Store) :
  tracked canonicalizeUrl hostnameOf b st ->
  (forall t, In t (mapValues (historicalTracking st)) ->
             getHistoricalTracking st (trackId t) = Some t)
  /\ (forall t1 t2, In t1 (mapValues (historicalTracking st)) ->
        In t2 (mapValues (historicalTracking st)) ->
        trackUrl t1 = trackUrl t2 -> t1 = t2)
  /\ (forall url t,
        getHistoricalTrackingByUrl canonicalizeUrl st url = Some t
        <-> In t (mapValues (historicalTracking st))
            /\ trackUrl t = canonicalizeUrl url).
Proof.
  intros Ht. apply tracked_audited in Ht. destruct Ht as [[Hk Hid Hu] _ _ _].
  assert (Hstored : forall t, In t (mapValues (historicalTracking st)) ->
                              In (trackId t, t) (historicalTracking st)).
  { intros t Hin. apply in_map_iff in Hin as ([k t'] & Heq & Hin).
    cbn in Heq. subst t'. rewrite (Hid k t Hin). exact Hin. }
  assert (Huniq : forall t1 t2, In t1 (mapValues (historicalTracking st)) ->
                    In t2 (mapValues (historicalTracking st)) ->
                    trackUrl t1 = trackUrl t2 -> t1 = t2).
  { generalize dependent (mapValues (historicalTracking st)). clear.
    intros l Hu _. induction l as [|t l IH]; [contradiction |].
    cbn [List.map] in Hu. apply NoDup_cons in Hu as [Hnew Hu].
    intros t1 t2 [<-|H1] [<-|H2] Heq; auto.
    - exfalso. apply Hnew. rewrite Heq.
      apply list_elem_of_In, in_map, H2.
    - exfalso. apply Hnew. rewrite <- Heq.
      apply list_elem_of_In, in_map, H1. }
  split; [| split; [exact Huniq |]].
  - intros t Hin. apply In_mapGet; [exact Hk | apply Hstored, Hin].
  - intros url t. unfold getHistoricalTrackingByUrl. split.
    + intros Hfind. apply find_In in Hfind as [Hin Hurl].
      split; [exact Hin |]. apply String.eqb_eq in Hurl. exact Hurl.
    + intros [Hin Hurl].
      destruct (List.find _ _) as [t'|] eqn:Hfind.
      * apply find_In in Hfind as [Hin' Hurl'].
        apply String.eqb_eq in Hurl'. f_equal.
        apply Huniq; [assumption | assumption | congruence].
      * pose proof (find_none _ _ Hfind t Hin) as Hno.
        unfold byUrl in Hno. rewrite Hurl, eqb_refl_string in Hno.
        discriminate Hno.
Qed.

Lemma afterFirstAudit_tracked : tracked lowerCase wholeHost false afterFirstAudit.
Proof.
  eapply (tracked_record lowerCase wholeHost false noTracking firstReport
            "u1" 5).
  - constructor.
  - reflexivity.
  - vm_compute. reflexivity.
Qed.

Lemma one_tracking_per_canonical_url_witness :
  (forall t, In t (mapValues (historicalTracking afterFirstAudit)) ->
             getHistoricalTracking afterFirstAudit (trackId t) = Some t)
  /\ (forall t1 t2, In t1 (mapValues (historicalTracking afterFirstAudit)) ->
        In t2 (mapValues (historicalTracking afterFirstAudit)) ->
        trackUrl t1 = trackUrl t2 -> t1 = t2)
  /\ (forall url t,
        getHistoricalTrackingByUrl lowerCase afterFirstAudit url = Some t
        <-> In t (mapValues (historicalTracking afterFirstAudit))
            /\ trackUrl t = lowerCase url).
Proof.
  apply (one_tracking_per_canonical_url lowerCase wholeHost false
           afterFirstAudit).
  apply afterFirstAudit_tracked.
Defined.

(** X28.  A tracking never has more rows than it counts audits, it has exactly
    as many as long as no clean-up has run, and rows are only kept under
    the id of a tracking. *)
Theorem total_audits_count_the_rows
    (canonicalizeUrl : string -> string) (hostnameOf : string -> option string)
    (b : bool) (st : Store) :
  tracked canonicalizeUrl hostnameOf b st ->
  (forall t, In t (mapValues (historicalTracking st)) ->
     len (historiesOf (records st) (trackId t)) <= totalAudits t
     /\ (b = false ->
         len (historiesOf (records st) (trackId t)) = totalAudits t))
  /\ (forall k, historiesOf (records st) k <> [] ->
        exists t, getHistoricalTracking st k = Some t).
Proof.
  intros Ht. apply tracked_audited in Ht.
  destruct Ht as [[Hk Hid Hu] Hrows Hle Heq]. split.
  - intros t Hin. apply in_map_iff in Hin as ([k t'] & E & Hin).
    cbn in E. subst t'. rewrite (Hid k t Hin). split; [apply Hle, Hin |].
    intros ->. apply Heq; [reflexivity | exact Hin].
  - intros k Hne. specialize (Hrows k Hne). unfold getHistoricalTracking.
    destruct (mapGet (historicalTracking st) k) as [t|];
      [exists t; reflexivity | contradiction].
Qed.

Lemma total_audits_count_the_rows_witness :
  (forall t, In t (mapValues (historicalTracking afterFirstAudit)) ->
     len (historiesOf (records afterFirstAudit) (trackId t)) <= totalAudits t
     /\ (false = false ->
         len (historiesOf (records afterFirstAudit) (trackId t))
         = totalAudits t))
  /\ (forall k, historiesOf (records afterFirstAudit) k <> [] ->
        exists t, getHistoricalTracking afterFirstAudit k = Some t).
Proof.
  apply (total_audits_count_the_rows lowerCase wholeHost false afterFirstAudit).
  apply afterFirstAudit_tracked.
Defined.

(** X29.  [recordAuditInHistory] hands back the tracking as the store now
    holds it: that of the report's canonical URL, with the report's date
    and one audit more than before, together with the new last row of
    that tracking.  It fails only for a URL that has no tracking yet and
    that [new URL] does not accept. *)
Theorem recorded_audit_returns_the_stored_tracking
    (canonicalizeUrl : string -> string) (hostnameOf : string -> option string)
    (b : bool) (st : Store) (auditReport : AuditReport)
    (uuid : string) (now : Z) :
  tracked canonicalizeUrl hostnameOf b st ->
  getHistoricalTracking st uuid = None ->
  match recordAuditInHistory canonicalizeUrl hostnameOf auditReport uuid now
          st with
  | Some ((t, h), st') =>
      getHistoricalTracking st' (trackId t) = Some t
      /\ trackUrl t = canonicalizeUrl (reportUrl auditReport)
      /\ lastAuditDate t = reportDate auditReport
      /\ totalAudits t
         = 1 + match getHistoricalTrackingByUrl canonicalizeUrl st
                       (reportUrl auditReport) with
               | Some before => totalAudits before
               | None => 0
               end
      /\ historicalTrackingId h = trackId t /\ recordedAt h = now
      /\ historiesOf (records st') (trackId t)
         = historiesOf (records st) (trackId t) ++ [h]
  | None =>
      getHistoricalTrackingByUrl canonicalizeUrl st (reportUrl auditReport)
      = None
      /\ hostnameOf (canonicalizeUrl (reportUrl auditReport)) = None
  end.
Proof.
  intros Ht Hfresh. apply tracked_audited in Ht.
  destruct (recordAuditInHistory _ _ auditReport uuid now st)
    as [[[t h] st']|] eqn:Hrec.
  - apply (audited_record _ _ _ _ _ _ _ _ _ _ Ht Hfresh Hrec).
  - unfold recordAuditInHistory, createOrUpdateHistoricalTracking,
      getHistoricalTrackingByUrl in *. cbv zeta in Hrec.
    destruct (List.find _ _) as [existing|].
    + exfalso. revert Hrec.
      destruct (createPerformanceHistory _ _ _). discriminate.
    + destruct (hostnameOf _) as [host|]; [| auto].
      exfalso. revert Hrec.
      destruct (createPerformanceHistory _ _ _). discriminate.
Qed.

Lemma recorded_audit_returns_the_stored_tracking_witness :
  match recordAuditInHistory lowerCase wholeHost firstReport "u2" 9
          afterFirstAudit with
  | Some ((t, h), st') =>
      getHistoricalTracking st' (trackId t) = Some t
      /\ trackUrl t = lowerCase (reportUrl firstReport)
      /\ lastAuditDate t = reportDate firstReport
      /\ totalAudits t
         = 1 + match getHistoricalTrackingByUrl lowerCase afterFirstAudit
                       (reportUrl firstReport) with
               | Some before => totalAudits before
               | None => 0
               end
      /\ historicalTrackingId h = trackId t /\ recordedAt h = 9
      /\ historiesOf (records st') (trackId t)
         = historiesOf (records afterFirstAudit) (trackId t) ++ [h]
  | None =>
      getHistoricalTrackingByUrl lowerCase afterFirstAudit
        (reportUrl firstReport) = None
      /\ wholeHost (lowerCase (reportUrl firstReport)) = None
  end.
Proof.
  apply (recorded_audit_returns_the_stored_tracking lowerCase wholeHost false
           afterFirstAudit firstReport "u2" 9).
  - apply afterFirstAudit_tracked.
  - reflexivity.
Defined.

End TrackingMore.

(** ** Rankings *)

Module CompetitiveMore.
Import JS Trend Competitive CompetitiveTrace TrendTrace TrendFacts TrendMore.
Local Open Scope list_scope.

Section FirstBest.
Context {A : Type} (key : A -> Z).

Lemma sortBy_head_leader x l :
  List.head (sortBy key (x :: l)) = Some (leader key x l).
Proof.
  unfold leader. revert x.
  induction l as [|z l IH]; intros x; [reflexivity |].
  cbn [fold_left].
  specialize (IH z) as Hz.
  specialize (IH (if key z <? key x then z else x)) as Hx.
  unfold sortBy in *. cbn [fold_right] in *.
  destruct (fold_right (insertBy key) [] l) as [|y s]; cbn [insertBy] in *.
  - cbn [List.head] in *. injection Hz as Hz. injection Hx as Hx.
    rewrite <- Hx.
    destruct (Z.leb_spec (key x) (key z)), (Z.ltb_spec (key z) (key x));
      cbn [List.head]; try reflexivity; lia.
  - revert Hz Hx.
    destruct (Z.leb_spec (key z) (key y));
      destruct (Z.ltb_spec (key z) (key x));
      destruct (Z.leb_spec (key x) (key y));
      destruct (Z.leb_spec (key x) (key z));
      cbn [List.head insertBy]; intros Hz Hx;
      rewrite <- ?Hx; try reflexivity; try lia;
      repeat match goal with
             | |- context [if ?a <=? ?b then _ else _] =>
                 destruct (Z.leb_spec a b)
             end; cbn [List.head]; try reflexivity; lia.
Qed.
End FirstBest.

Lemma imap_ranks (k : nat) (l : list CompetitorRanking) :
  List.map rank (imap (fun i => withRank (k + i)) l)
  = List.map (fun i => Z.of_nat i + 1) (seq k (List.length l)).
Proof.
  revert k. induction l as [|x l IH]; intros k; [reflexivity |].
  cbn [imap List.length seq List.map]. f_equal.
  - cbn [withRank rank]. rewrite Nat.add_0_r. reflexivity.
  - rewrite <- (IH (S k)). f_equal. apply imap_ext. intros i y _. cbn.
    rewrite Nat.add_succ_r. reflexivity.
Qed.

Lemma imap_scores (f : nat -> CompetitorRanking -> CompetitorRanking)
    (l : list CompetitorRanking) :
  (forall i x, score (f i x) = score x) ->
  List.map score (imap f l) = List.map score l.
Proof.
  revert f. induction l as [|x l IH]; intros f Hf; [reflexivity |].
  cbn [imap List.map]. rewrite Hf. f_equal. apply IH. intros i y. apply Hf.
Qed.

Lemma sorted_by_scores (l l' : list CompetitorRanking) :
  List.map score l' = List.map score l ->
  StronglySorted (byKey (fun item => - score item)) l ->
  StronglySorted notBelow l'.
Proof.
  intros Hmap Hs. revert l' Hmap.
  induction Hs as [|x l _ IH Hall]; intros [|x' l'] Hmap;
    try discriminate Hmap; [constructor |].
  cbn [List.map] in Hmap. injection Hmap as Hx Hl.
  constructor; [apply IH, Hl |].
  apply Forall_forall. intros y' Hy'.
  apply list_elem_of_In, (in_map score) in Hy'. rewrite Hl in Hy'.
  apply in_map_iff in Hy' as (y & Hy & Hin).
  rewrite Forall_forall in Hall.
  specialize (Hall y (proj2 (list_elem_of_In _ _) Hin)).
  unfold byKey, notBelow in *. lia.
Qed.

Section Audits.
Variable AuditReport : Type.
Variable auditUrl : AuditReport -> string.
Variable scoreExtractor : AuditReport -> Z.

Lemma topPerformer_leader competitorAudits (top : CompetitorRanking) :
  fold_left
    (fun (top : Z * CompetitorRanking) ca =>
       if (fst top <? scoreExtractor (snd ca))%Z
       then (scoreExtractor (snd ca),
             mkRanking (Some (competitorId (fst ca))) (competitorUrl (fst ca))
               (orUndefined (competitorName (fst ca)))
               (scoreExtractor (snd ca)) 1 false)
       else top)
    competitorAudits (score top, withRank 0 top)
  = (score (leader (fun item => - score item) top
              (List.map (entry scoreExtractor) competitorAudits)),
     withRank 0 (leader (fun item => - score item) top
                   (List.map (entry scoreExtractor) competitorAudits))).
Proof.
  unfold leader. revert top.
  induction competitorAudits as [|ca l IH]; intros top; [reflexivity |].
  cbn [fold_left List.map fst]. cbv zeta.
  replace (- score (entry scoreExtractor ca) <? - score top)
    with (score top <? scoreExtractor (snd ca))
    by (cbn [entry score];
        destruct (Z.ltb_spec (score top) (scoreExtractor (snd ca))),
          (Z.ltb_spec (- scoreExtractor (snd ca)) (- score top));
        try reflexivity; lia).
  destruct (score top <? scoreExtractor (snd ca)).
  - apply (IH (entry scoreExtractor ca)).
  - apply IH.
Qed.

Lemma leader_primary (top : CompetitorRanking) competitorAudits :
  Forall (fun ca => scoreExtractor (snd ca) <= score top) competitorAudits ->
  leader (fun item => - score item) top (List.map (entry scoreExtractor) competitorAudits)
  = top.
Proof.
  unfold leader. induction 1 as [|ca l Hca _ IH]; [reflexivity |].
  cbn [List.map fold_left].
  destruct (Z.ltb_spec (- score (entry scoreExtractor ca)) (- score top))
    as [Hlt|_];
    [cbn [entry score] in Hlt; lia | exact IH].
Qed.
End Audits.

(** X30.  A ranking lists the primary site and every competitor once, numbered
    1, 2, ... by descending score.  When the primary site's score is not
    negative the first place is taken by the top performer of the
    benchmarks, and the primary site holds it whenever no competitor
    scores strictly higher. *)
Theorem top_performer_heads_the_ranking
    (AuditReport : Type) (auditUrl : AuditReport -> string)
    (scoreExtractor : AuditReport -> Z) (primaryAudit : AuditReport)
    (competitorAudits : list (Competitor * AuditReport)) :
  0 <= scoreExtractor primaryAudit ->
  let rankings :=
    calculateCategoryRankings AuditReport auditUrl primaryAudit
      competitorAudits scoreExtractor in
  let top :=
    getTopPerformer AuditReport auditUrl scoreExtractor primaryAudit
      competitorAudits in
  List.head rankings = Some top
  /\ List.map rank rankings
     = List.map (fun i => Z.of_nat i + 1)
         (seq 0 (S (List.length competitorAudits)))
  /\ StronglySorted notBelow rankings
  /\ (Forall (fun ca => scoreExtractor (snd ca) <= scoreExtractor primaryAudit)
        competitorAudits ->
      isPrimary top = true).
Proof.
  intros Hpos. cbv zeta.
  set (primary := mkRanking None (auditUrl primaryAudit) None
                    (scoreExtractor primaryAudit) 0 true).
  set (rest := List.map (entry scoreExtractor) competitorAudits).
  assert (Htop : getTopPerformer AuditReport auditUrl scoreExtractor
                   primaryAudit competitorAudits
                 = withRank 0 (leader (fun item => - score item) primary rest)).
  { unfold getTopPerformer. cbv zeta.
    destruct (Z.ltb_spec (-1) (scoreExtractor primaryAudit)) as [_|]; [| lia].
    exact (f_equal snd (topPerformer_leader AuditReport scoreExtractor
                          competitorAudits primary)). }
  rewrite Htop. unfold calculateCategoryRankings. cbv zeta.
  change (mkRanking None (auditUrl primaryAudit) None
            (scoreExtractor primaryAudit) 0 true :: List.map _ competitorAudits)
    with (primary :: rest).
  pose proof (sortBy_head_leader (fun item => - score item) primary rest) as Hhead.
  split; [| split; [| split]].
  - destruct (sortBy _ (primary :: rest)) as [|first others]; [discriminate Hhead |].
    cbn [List.head] in Hhead. injection Hhead as ->. reflexivity.
  - rewrite (imap_ranks 0). rewrite sortBy_length. cbn [List.length].
    subst rest. rewrite length_map. reflexivity.
  - eapply sorted_by_scores; [| apply sortBy_sorted].
    apply imap_scores. reflexivity.
  - intros Hall. subst rest.
    rewrite (leader_primary AuditReport scoreExtractor primary competitorAudits).
    + reflexivity.
    + exact Hall.
Qed.

Lemma top_performer_heads_the_ranking_witness :
  List.head (calculateCategoryRankings Z (fun _ => "https://home.example")
               70 rivals (fun audit => audit))
  = Some (getTopPerformer Z (fun _ => "https://home.example")
            (fun audit => audit) 70 rivals)
  /\ List.map rank
       (calculateCategoryRankings Z (fun _ => "https://home.example")
          70 rivals (fun audit => audit))
     = List.map (fun i => Z.of_nat i + 1) (seq 0 (S (List.length rivals)))
  /\ StronglySorted notBelow
       (calculateCategoryRankings Z (fun _ => "https://home.example")
          70 rivals (fun audit => audit))
  /\ (Forall (fun ca => snd ca <= 70) rivals ->
      isPrimary (getTopPerformer Z (fun _ => "https://home.example")
                   (fun audit => audit) 70 rivals) = true).
Proof.
  apply (top_performer_heads_the_ranking Z (fun _ => "https://home.example")
           (fun audit => audit) 70 rivals).
  lia.
Defined.

End CompetitiveMore.
